(** * Polygon from layer extent (processing/algs/qgis/ExtentFromLayer.py)

    A shallow embedding of [ExtentFromLayer.processAlgorithm],
    [ExtentFromLayer.layerExtent] and [ExtentFromLayer.featureExtent].

    Python floats are IEEE binary64 numbers: they are modelled by Rocq's
    primitive [float]s, whose operations are specified by [SpecFloat].
    Python integers are modelled by [Z].  The writer, the progress sink and
    the [QgsFeature] objects the methods allocate live in an explicit
    [World]; Python exceptions are results of the [Py] monad. *)

From Stdlib Require Import String ZArith List Bool Lia Floats Sorted.
Import ListNotations.

Local Open Scope Z_scope.

(** ** Python exceptions, the world, and the [Py] monad *)

Inductive PyExc : Type :=
| ZeroDivisionError
| OverflowError
| ValueError.

Inductive outcome (A : Type) : Type :=
| Ok (a : A)
| Raise (e : PyExc).
Arguments Ok {A} a.
Arguments Raise {A} e.

(** ** Geometry values of qgis.core *)

Record QgsPoint : Type := mkPoint { pt_x : float; pt_y : float }.

(** [QgsRectangle]: the four stored coordinates. *)
Record QgsRectangle : Type := mkRect {
  xMinimum : float;
  yMinimum : float;
  xMaximum : float;
  yMaximum : float
}.

(** Modelled from the spec: [QgsRectangle.width()] and
    [QgsRectangle.height()] belong to the C++ core, which is not part of the
    source at hand; the spec gives [width = maxX - minX] and
    [height = maxY - minY]. *)
Definition rect_width (r : QgsRectangle) : float := (xMaximum r - xMinimum r)%float.
Definition rect_height (r : QgsRectangle) : float := (yMaximum r - yMinimum r)%float.

(** A polygon geometry is a list of rings, a ring a list of points
    ([QgsGeometry().fromPolygon([rect])]). *)
Definition QgsPolyline : Type := list QgsPoint.
Inductive QgsGeometry : Type :=
| NullGeometry
| Polygon (rings : list QgsPolyline).

Definition fromPolygon (rings : list QgsPolyline) : QgsGeometry := Polygon rings.

(** The content of a [QgsFeature] object. *)
Record QgsFeature : Type := mkFeature {
  feat_geometry : QgsGeometry;
  feat_attributes : list float
}.

Definition emptyFeature : QgsFeature := mkFeature NullGeometry [].

(** ** The world

    [heap] holds the [QgsFeature] objects by reference (their index).
    [trace] is the sequence of calls the two sinks have received, oldest
    first: [writer.addFeature(feat)] hands the writer the content the
    feature object has at the time of the call, [progress.setPercentage(p)]
    hands the progress sink an integer. *)
Definition ref : Type := nat.

Inductive Event : Type :=
| AddFeature (f : QgsFeature)
| SetPercentage (p : Z).

Record World : Type := mkWorld {
  heap : list QgsFeature;
  trace : list Event
}.

Definition emptyWorld : World := mkWorld [] [].

(** The records the writer received, and the percentages the progress sink
    received, in order. *)
Fixpoint written_of (t : list Event) : list QgsFeature :=
  match t with
  | [] => []
  | AddFeature f :: t' => f :: written_of t'
  | SetPercentage _ :: t' => written_of t'
  end.

Fixpoint percentages_of (t : list Event) : list Z :=
  match t with
  | [] => []
  | AddFeature _ :: t' => percentages_of t'
  | SetPercentage p :: t' => p :: percentages_of t'
  end.

Definition written (w : World) : list QgsFeature := written_of (trace w).
Definition percentages (w : World) : list Z := percentages_of (trace w).

Definition Py (A : Type) : Type := World -> outcome A * World.

Definition ret {A} (a : A) : Py A := fun w => (Ok a, w).
Definition raise {A} (e : PyExc) : Py A := fun w => (Raise e, w).
Definition bind {A B} (m : Py A) (k : A -> Py B) : Py B :=
  fun w => match m w with
           | (Ok a, w') => k a w'
           | (Raise e, w') => (Raise e, w')
           end.

Declare Scope py_scope.
Delimit Scope py_scope with py.
Notation "x <- m ;; k" := (bind m (fun x => k))
  (at level 61, m at next level, right associativity) : py_scope.
Notation "m ;; k" := (bind m (fun _ => k))
  (at level 61, right associativity) : py_scope.
Local Open Scope py_scope.

(** *** Heap and sinks *)

Fixpoint update_nth {A} (n : nat) (x : A) (l : list A) : list A :=
  match n, l with
  | _, [] => []
  | O, _ :: t => x :: t
  | S n', h :: t => h :: update_nth n' x t
  end.

(** [QgsFeature()] *)
Definition newQgsFeature : Py ref :=
  fun w => (Ok (length (heap w)), mkWorld (heap w ++ [emptyFeature]) (trace w)).

Definition deref (r : ref) (w : World) : QgsFeature := nth r (heap w) emptyFeature.

Definition modify_feature (r : ref) (f : QgsFeature -> QgsFeature) : Py unit :=
  fun w => (Ok tt, mkWorld (update_nth r (f (deref r w)) (heap w)) (trace w)).

(** [feat.setGeometry(geometry)] *)
Definition setGeometry (r : ref) (g : QgsGeometry) : Py unit :=
  modify_feature r (fun f => mkFeature g (feat_attributes f)).

(** [feat.setAttributes(attrs)] *)
Definition setAttributes (r : ref) (attrs : list float) : Py unit :=
  modify_feature r (fun f => mkFeature (feat_geometry f) attrs).

(** [writer.addFeature(feat)] *)
Definition addFeature (r : ref) : Py unit :=
  fun w => (Ok tt, mkWorld (heap w) (trace w ++ [AddFeature (deref r w)])).

(** [progress.setPercentage(p)] *)
Definition setPercentage (p : Z) : Py unit :=
  fun w => (Ok tt, mkWorld (heap w) (trace w ++ [SetPercentage p])).

(** ** Python arithmetic

    The arithmetic of the source touches no object: its operations are
    [outcome]s, lifted into [Py] where the methods use them. *)

Definition lift {A} (o : outcome A) : Py A := fun w => (o, w).

(** [float(n)] for a Python integer, as the mixed operations [100.0 / n],
    [2 * width] and [current * total] apply it to their integer operand: the
    nearest binary64 number, ties to even, and [OverflowError] when that is
    an infinity. *)
Definition float_of_int (n : Z) : outcome float :=
  match binary_normalize prec emax n 0 false with
  | S754_infinity _ => Raise OverflowError
  | sf => Ok (SF2Prim sf)
  end.

(** [x / y] on floats: [ZeroDivisionError] on a zero divisor. *)
Definition float_truediv (x y : float) : outcome float :=
  if is_zero y then Raise ZeroDivisionError else Ok (x / y)%float.

(** [int(x)]: truncation toward zero; [ValueError] on a NaN and
    [OverflowError] on an infinity. *)
Definition int_of_float (x : float) : outcome Z :=
  match Prim2SF x with
  | S754_nan => Raise ValueError
  | S754_infinity _ => Raise OverflowError
  | S754_zero _ => Ok 0
  | S754_finite s m e =>
      Ok (cond_Zopp s (if 0 <=? e then Z.pos m * 2 ^ e else Z.pos m / 2 ^ (- e)))
  end.

(** The literals of the source. *)
Definition f2_0 : float := 2%float.
Definition f100_0 : float := 100%float.

(** ** The algorithm *)

(** [QVariant] types of the fields. *)
Inductive QVariantType : Type := QVariant_Double | QVariant_Int | QVariant_String.

Record QgsField : Type := mkField { field_name : string; field_type : QVariantType }.

(** The [fields] list of [processAlgorithm]. *)
Definition fields : list QgsField :=
  [ mkField "MINX"%string QVariant_Double;
    mkField "MINY"%string QVariant_Double;
    mkField "MAXX"%string QVariant_Double;
    mkField "MAXY"%string QVariant_Double;
    mkField "CNTX"%string QVariant_Double;
    mkField "CNTY"%string QVariant_Double;
    mkField "AREA"%string QVariant_Double;
    mkField "PERIM"%string QVariant_Double;
    mkField "HEIGHT"%string QVariant_Double;
    mkField "WIDTH"%string QVariant_Double ].

Section Layer.

(** The input layer: geometries are opaque, [boundingBox] is the host's. *)
Variable InGeometry : Type.
Variable boundingBox : InGeometry -> QgsRectangle.

Record InFeature : Type := mkInFeature { geometry : InGeometry }.

Record QgsVectorLayer : Type := mkLayer {
  extent : QgsRectangle;
  features : list InFeature
}.

(** [layerExtent(self, layer, writer, progress)] *)
Definition layerExtent (layer : QgsVectorLayer) : Py unit :=
  let rect := extent layer in
  let minx := xMinimum rect in
  let miny := yMinimum rect in
  let maxx := xMaximum rect in
  let maxy := yMaximum rect in
  let height := rect_height rect in
  let width := rect_width rect in
  half_w <- lift (float_truediv width f2_0) ;;
  let cntx := (minx + half_w)%float in
  half_h <- lift (float_truediv height f2_0) ;;
  let cnty := (miny + half_h)%float in
  let area := (width * height)%float in
  two_w <- lift (float_of_int 2) ;;
  two_h <- lift (float_of_int 2) ;;
  let perim := (two_w * width + two_h * height)%float in
  let rect := [ mkPoint minx miny; mkPoint minx maxy; mkPoint maxx maxy;
                mkPoint maxx miny; mkPoint minx miny ] in
  let geometry := fromPolygon [rect] in
  feat <- newQgsFeature ;;
  setGeometry feat geometry ;;
  let attrs := [ minx; miny; maxx; maxy; cntx; cnty; area; perim; height; width ] in
  setAttributes feat attrs ;;
  addFeature feat.

(** The body of the loop of [featureExtent] (lines 131-162) for the
    feature [f] at index [current]. *)
Definition featureExtent_body (total : float) (feat : ref) (current : Z)
    (f : InFeature) : Py unit :=
  let rect := boundingBox (geometry f) in
  let minx := xMinimum rect in
  let miny := yMinimum rect in
  let maxx := xMaximum rect in
  let maxy := yMaximum rect in
  let height := rect_height rect in
  let width := rect_width rect in
  half_w <- lift (float_truediv width f2_0) ;;
  let cntx := (minx + half_w)%float in
  half_h <- lift (float_truediv height f2_0) ;;
  let cnty := (miny + half_h)%float in
  let area := (width * height)%float in
  two_w <- lift (float_of_int 2) ;;
  two_h <- lift (float_of_int 2) ;;
  let perim := (two_w * width + two_h * height)%float in
  let rect := [ mkPoint minx miny; mkPoint minx maxy; mkPoint maxx maxy;
                mkPoint maxx miny; mkPoint minx miny ] in
  let geometry := fromPolygon [rect] in
  setGeometry feat geometry ;;
  let attrs := [ minx; miny; maxx; maxy; cntx; cnty; area; perim; height; width ] in
  setAttributes feat attrs ;;
  addFeature feat ;;
  c <- lift (float_of_int current) ;;
  p <- lift (int_of_float (c * total)%float) ;;
  setPercentage p.

(** [for current, f in enumerate(features)], from index [current] on. *)
Fixpoint featureExtent_loop (total : float) (feat : ref) (current : Z)
    (fs : list InFeature) : Py unit :=
  match fs with
  | [] => ret tt
  | f :: rest =>
      featureExtent_body total feat current f ;;
      featureExtent_loop total feat (current + 1) rest
  end.

(** [featureExtent(self, layer, writer, progress)] *)
Definition featureExtent (layer : QgsVectorLayer) : Py unit :=
  let fs := features layer in
  n <- lift (float_of_int (Z.of_nat (length fs))) ;;
  total <- lift (float_truediv f100_0 n) ;;
  feat <- newQgsFeature ;;
  featureExtent_loop total feat 0 fs.

(** [processAlgorithm(self, progress)]: the schema handed to the writer,
    and the run of the selected method. *)
Definition processAlgorithm (layer : QgsVectorLayer) (byFeature : bool)
    : list QgsField * Py unit :=
  (fields, if byFeature then featureExtent layer else layerExtent layer).

End Layer.

Arguments mkInFeature {InGeometry} _.
Arguments geometry {InGeometry} _.
Arguments mkLayer {InGeometry} _ _.
Arguments extent {InGeometry} _.
Arguments features {InGeometry} _.
Arguments layerExtent {InGeometry} _ _.
Arguments featureExtent {InGeometry} _ _ _.
Arguments featureExtent_loop {InGeometry} _ _ _ _ _ _.
Arguments featureExtent_body {InGeometry} _ _ _ _ _ _.
Arguments processAlgorithm {InGeometry} _ _ _.

(** ** What one extent record holds

    The ring and the attribute list the statements of the source build from
    a rectangle, as values; the lemmas below show that both methods write
    exactly these. *)
Definition extent_ring (r : QgsRectangle) : QgsPolyline :=
  [ mkPoint (xMinimum r) (yMinimum r); mkPoint (xMinimum r) (yMaximum r);
    mkPoint (xMaximum r) (yMaximum r); mkPoint (xMaximum r) (yMinimum r);
    mkPoint (xMinimum r) (yMinimum r) ].

Definition extent_attributes (r : QgsRectangle) : list float :=
  [ xMinimum r; yMinimum r; xMaximum r; yMaximum r;
    (xMinimum r + rect_width r / 2)%float;
    (yMinimum r + rect_height r / 2)%float;
    (rect_width r * rect_height r)%float;
    (2 * rect_width r + 2 * rect_height r)%float;
    rect_height r; rect_width r ].

Definition extent_record (r : QgsRectangle) : QgsFeature :=
  mkFeature (Polygon [extent_ring r]) (extent_attributes r).

(** The percentage [int(current * total)]. *)
Definition percentage (total : float) (current : Z) : outcome Z :=
  match float_of_int current with
  | Ok c => int_of_float (c * total)%float
  | Raise e => Raise e
  end.

(** [100.0 / len(features)] *)
Definition total_of (n : nat) : outcome float :=
  match float_of_int (Z.of_nat n) with
  | Ok nf => float_truediv f100_0 nf
  | Raise e => Raise e
  end.

(** The calls of the loop of [featureExtent] on the rectangles [rs] from
    index [current] on, and how the loop ends. *)
Fixpoint loop_trace (total : float) (current : Z) (rs : list QgsRectangle) : list Event :=
  match rs with
  | [] => []
  | r :: rest =>
      AddFeature (extent_record r) ::
      match percentage total current with
      | Ok p => SetPercentage p :: loop_trace total (current + 1) rest
      | Raise _ => []
      end
  end.

Fixpoint loop_outcome (total : float) (current : Z) (rs : list QgsRectangle) : outcome unit :=
  match rs with
  | [] => Ok tt
  | r :: rest =>
      match percentage total current with
      | Ok p => loop_outcome total (current + 1) rest
      | Raise e => Raise e
      end
  end.

(** The rectangle of an input feature: [f.geometry().boundingBox()]. *)
Definition rect_of {G : Type} (boundingBox : G -> QgsRectangle) (f : InFeature G)
  : QgsRectangle :=
  boundingBox (geometry f).

(** The calls in which each record is followed by its percentage. *)
Fixpoint alternate (rs : list QgsFeature) (ps : list Z) : list Event :=
  match rs, ps with
  | r :: rs', p :: ps' => AddFeature r :: SetPercentage p :: alternate rs' ps'
  | _, _ => []
  end.

(** ** Binary64 arithmetic on integers

    The definitions the proofs about rounding use.  [SpecFloat] rounds a
    mantissa by shifting it right in a record that keeps two bits of what
    was shifted out; here the same rounding is arithmetic on [Z]. *)

(** [loc_inv U D mrs]: the record [mrs] describes the rational [U / D]:
    its mantissa is the quotient and its two bits place the remainder with
    respect to one half. *)
Definition loc_inv (U D : Z) (mrs : shr_record) : Prop :=
  shr_m mrs = U / D /\
  match shr_r mrs, shr_s mrs with
  | false, false => U mod D = 0
  | false, true => 0 < U mod D /\ 2 * (U mod D) < D
  | true, false => 2 * (U mod D) = D
  | true, true => D < 2 * (U mod D)
  end.

(** Rounding of [U / D] to the nearest integer, ties to even. *)
Definition RN (U D : Z) : Z :=
  match 2 * (U mod D) ?= D with
  | Lt => U / D
  | Eq => if Z.even (U / D) then U / D else U / D + 1
  | Gt => U / D + 1
  end.

(** [binary_round_aux] on a record that describes [U / D]. *)
Definition bra_spec (s : bool) (U D mx ex : Z) : spec_float :=
  let k := Z.max (fexp prec emax (Zdigits2 mx + ex) - ex) 0 in
  let m1 := RN U (D * 2 ^ k) in
  let e1 := ex + k in
  let k1 := Z.max (fexp prec emax (Zdigits2 m1 + e1) - e1) 0 in
  match m1 / 2 ^ k1 with
  | Z0 => S754_zero s
  | Zpos m => if e1 + k1 <=? emax - prec then S754_finite s m (e1 + k1) else S754_infinity s
  | Zneg _ => S754_nan
  end.

(** A nonnegative binary64 number is represented by its value times
    [2^1074], an integer, its scaled value; [SF_of s W] is the number of
    sign [s] whose scaled value is [W] (an infinity from [2^2098] on). *)
Definition SF_of (s : bool) (W : Z) : spec_float :=
  if W <=? 0 then S754_zero s
  else if 2 ^ 2098 <=? W then S754_infinity s
  else let e := Z.max (Zdigits2 W - 53) 0 in
       S754_finite s (Z.to_pos (W / 2 ^ e)) (e - 1074).

(** Rounding of the real [V * 2^(-a)], as a scaled value. *)
Definition rnd (a V : Z) : Z :=
  let K := Z.max (Zdigits2 V - 53) (a - 1074) in
  RN V (2 ^ K) * 2 ^ (K - (a - 1074)).

(** The scaled value of a finite number, and its signed version. *)
Definition Wval (m : positive) (e : Z) : Z := Z.pos m * 2 ^ (e + 1074).
Definition sval (s : bool) (m : positive) (e : Z) : Z := cond_Zopp s (Wval m e).

(** Scaled values of binary64 numbers: at most 53 significant bits. *)
Definition repr (W : Z) : Prop := W mod 2 ^ Z.max (Zdigits2 W - 53) 0 = 0.

(** The exponent [SFdiv_core_binary] gives the quotient. *)
Definition div_exp (dx ex dy ey : Z) : Z :=
  Z.min (fexp prec emax (dx + ex - (dy + ey))) (ex - ey).

(** [nnfloat x W]: [x] is the finite nonnegative number of scaled value
    [W] (a positive zero when [W = 0]). *)
Definition nnfloat (x : float) (W : Z) : Prop :=
  Prim2SF x = SF_of false W /\ repr W /\ 0 <= W < 2 ^ 2098.

(** [int(i * total)] on scaled values, [Wt] the scaled value of [total]. *)
Definition pct_val (Wt i : Z) : Z :=
  rnd 2148 (rnd 1074 (i * 2 ^ 1074) * Wt) / 2 ^ 1074.

(** The numbers a difference [b - a] with [a <= b] can be: a NaN, a zero,
    or a positive number or infinity of scaled value [W]. *)
Inductive nnclass : spec_float -> Prop :=
| nnc_nan : nnclass S754_nan
| nnc_zero (s : bool) : nnclass (S754_zero s)
| nnc_pos (W : Z) : repr W -> 0 < W -> nnclass (SF_of false W).

(** The number [2.0]. *)
Definition SF_two : spec_float := S754_finite false 4503599627370496 (-51).

(** Large powers of two are kept out of the sight of [lia] and [nia]:
    [pw k] is [2 ^ k], folded. *)
Definition pw (k : Z) : Z := 2 ^ k.

Ltac hide_pow k := change (2 ^ k) with (pw k) in *.
Ltac hide_big :=
  hide_pow 2098; hide_pow 1074; hide_pow 2148; hide_pow 2102; hide_pow 2074;
  hide_pow 1000; hide_pow 1137; hide_pow 1082; hide_pow 1145; hide_pow 1028.
Ltac blia := hide_big; lia.
Ltac bnia := hide_big; nia.

(** ** The runs of [processAlgorithm] *)

(** The rectangles a run of [processAlgorithm] reads: the extent of the
    layer in whole-layer mode, the bounding boxes of the features, in
    order, in per-feature mode. *)
Definition boxes_read {G : Type} (boundingBox : G -> QgsRectangle)
    (layer : QgsVectorLayer G) (byFeature : bool) : list QgsRectangle :=
  if byFeature then map (rect_of boundingBox) (features layer) else [extent layer].

(** The run of the method [processAlgorithm] selects. *)
Definition run {G : Type} (boundingBox : G -> QgsRectangle)
    (layer : QgsVectorLayer G) (byFeature : bool) : Py unit :=
  snd (processAlgorithm boundingBox layer byFeature).

(** ** Signed binary64 numbers *)

(** Zeros and finite numbers. *)
Definition SFfin (X : spec_float) : bool :=
  match X with
  | S754_zero _ | S754_finite _ _ _ => true
  | _ => false
  end.

(** The sign bit and the scaled magnitude of a zero or a finite number. *)
Definition SFsign (X : spec_float) : bool :=
  match X with
  | S754_zero s | S754_infinity s | S754_finite s _ _ => s
  | S754_nan => false
  end.

Definition SFmag (X : spec_float) : Z :=
  match X with
  | S754_finite _ m e => Wval m e
  | _ => 0
  end.

(** The signed scaled value of a zero or a finite number. *)
Definition zval (X : spec_float) : Z := cond_Zopp (SFsign X) (SFmag X).

(** A number up to the sign of a zero. *)
Definition SFcan (X : spec_float) : spec_float :=
  match X with
  | S754_zero _ => S754_zero false
  | _ => X
  end.

(** Rounding of the signed real [V * 2^(-a)]: as a signed scaled value,
    and as a number (an infinity when the rounded magnitude reaches
    [2^2098], a zero when the real is too small). *)
Definition srnd (a V : Z) : Z := cond_Zopp (V <? 0) (rnd a (Z.abs V)).
Definition SFr (a V : Z) : spec_float := SF_of (V <? 0) (rnd a (Z.abs V)).

(** [nnv X W]: [X] is a zero and [W = 0], or [X] is the positive number,
    or the positive infinity, of scaled value [W]. *)
Definition nnv (X : spec_float) (W : Z) : Prop :=
  (W = 0 /\ exists s, X = S754_zero s) \/
  (0 < W /\ repr W /\ X = SF_of false W).

(** The binary64 number of the integer [z], for [|z| <= 2^53]. *)
Definition SFint (z : Z) : spec_float := SF_of (z <? 0) (Z.abs z * 2 ^ 1074).

(** ** Inputs of the examples *)

Definition box_0_0_4_2 : QgsRectangle := mkRect 0 0 4 2.
Definition box_unit : QgsRectangle := mkRect 0 0 1 1.
Definition box_point_5 : QgsRectangle := mkRect 5 5 5 5.

(** What an object reused from an earlier iteration may hold. *)
Definition stale_feature : QgsFeature :=
  mkFeature (Polygon [[mkPoint 7 7]]) [9; 9; 9]%float.

(** Features whose geometry is its own bounding box. *)
Definition two_features : list (InFeature QgsRectangle) :=
  [mkInFeature box_unit; mkInFeature box_0_0_4_2].

(** The ring a record of the rectangle [B] is to have: five coordinates,
    the corners in this order, the first repeated at the end. *)
Definition closed_rectangle (B : QgsRectangle) (g : QgsGeometry) : Prop :=
  exists ring,
    g = Polygon [ring] /\
    ring = [ mkPoint (xMinimum B) (yMinimum B); mkPoint (xMinimum B) (yMaximum B);
             mkPoint (xMaximum B) (yMaximum B); mkPoint (xMaximum B) (yMinimum B);
             mkPoint (xMinimum B) (yMinimum B) ] /\
    length ring = 5%nat /\
    nth_error ring 0 = nth_error ring 4.

(** ** The heap *)

Lemma update_nth_length {A} (n : nat) (x : A) (l : list A) :
  length (update_nth n x l) = length l.
Proof.
  revert n; induction l as [|h t IH]; intros [|n]; simpl; auto.
Qed.

Lemma nth_update_nth_eq {A} (n : nat) (x d : A) (l : list A) :
  (n < length l)%nat -> nth n (update_nth n x l) d = x.
Proof.
  revert n; induction l as [|h t IH]; intros [|n] H; simpl in *; try lia; auto.
  apply IH; lia.
Qed.

Lemma nth_update_nth_neq {A} (n k : nat) (x d : A) (l : list A) :
  n <> k -> nth k (update_nth n x l) d = nth k l d.
Proof.
  revert n k; induction l as [|h t IH]; intros [|n] [|k] H; simpl; auto; try congruence.
Qed.

Lemma update_nth_twice {A} (n : nat) (x y : A) (l : list A) :
  update_nth n y (update_nth n x l) = update_nth n y l.
Proof.
  revert n; induction l as [|h t IH]; intros [|n]; simpl; auto.
  now rewrite IH.
Qed.

(** ** The literals *)

Lemma float_truediv_2 (x : float) : float_truediv x f2_0 = Ok (x / 2)%float.
Proof. reflexivity. Qed.

Lemma float_of_int_2 : float_of_int 2 = Ok 2%float.
Proof. vm_compute. reflexivity. Qed.

(** ** One record: the statements from the rectangle to the write *)

Section Runs.

Variable InGeometry : Type.
Variable boundingBox : InGeometry -> QgsRectangle.

Lemma layerExtent_run (layer : QgsVectorLayer InGeometry) (w : World) :
  layerExtent layer w =
  (Ok tt, mkWorld (heap w ++ [extent_record (extent layer)])
                  (trace w ++ [AddFeature (extent_record (extent layer))])).
Proof.
  unfold layerExtent, bind. rewrite !float_truediv_2, float_of_int_2.
  unfold lift, newQgsFeature, setGeometry, setAttributes, modify_feature,
    addFeature, deref. cbn [heap trace feat_geometry feat_attributes].
  assert (U : forall x y : QgsFeature,
             update_nth (length (heap w)) y (heap w ++ [x]) = heap w ++ [y]).
  { intros x y. induction (heap w) as [|h t IH]; simpl; [reflexivity | now rewrite IH]. }
  assert (N : forall x : QgsFeature,
             nth (length (heap w)) (heap w ++ [x]) emptyFeature = x).
  { intros x. rewrite app_nth2, Nat.sub_diag by lia. reflexivity. }
  repeat (first [rewrite U | rewrite N]; cbn [feat_geometry feat_attributes]).
  reflexivity.
Qed.

Lemma featureExtent_body_run (total : float) (feat : ref) (current : Z)
    (f : InFeature InGeometry) (w : World) :
  (feat < length (heap w))%nat ->
  featureExtent_body boundingBox total feat current f w =
  let w1 := mkWorld (update_nth feat (extent_record (rect_of boundingBox f)) (heap w))
                    (trace w ++ [AddFeature (extent_record (rect_of boundingBox f))]) in
  match percentage total current with
  | Ok p => (Ok tt, mkWorld (heap w1) (trace w1 ++ [SetPercentage p]))
  | Raise e => (Raise e, w1)
  end.
Proof.
  intros Hf.
  unfold featureExtent_body, bind. rewrite !float_truediv_2, float_of_int_2.
  unfold lift, setGeometry, setAttributes, modify_feature, addFeature, deref.
  cbn [heap trace feat_geometry feat_attributes].
  rewrite !update_nth_twice.
  rewrite !nth_update_nth_eq by (rewrite ?update_nth_length; assumption).
  cbn [feat_geometry feat_attributes].
  unfold percentage, setPercentage.
  destruct (float_of_int current) as [c|e]; [|reflexivity].
  destruct (int_of_float (c * total)) as [p|e]; reflexivity.
Qed.

Lemma featureExtent_loop_run (total : float) (feat : ref)
    (fs : list (InFeature InGeometry)) :
  forall (current : Z) (w : World),
    (feat < length (heap w))%nat ->
    exists h,
      length h = length (heap w) /\
      (forall k, k <> feat -> nth k h emptyFeature = nth k (heap w) emptyFeature) /\
      featureExtent_loop boundingBox total feat current fs w =
      (loop_outcome total current (map (rect_of boundingBox) fs),
       mkWorld h (trace w ++ loop_trace total current (map (rect_of boundingBox) fs))).
Proof.
  induction fs as [|f rest IH]; intros current w Hf.
  - exists (heap w). simpl. rewrite app_nil_r. destruct w; auto.
  - cbn [featureExtent_loop map loop_trace loop_outcome]. unfold bind at 1.
    rewrite featureExtent_body_run by assumption. cbv zeta.
    destruct (percentage total current) as [p|e].
    + edestruct (IH (current + 1)) as (h & Hl & Hk & Hrun);
        [|rewrite Hrun; exists h; repeat split].
      * cbn [heap]. now rewrite update_nth_length.
      * rewrite Hl. cbn [heap]. apply update_nth_length.
      * intros k Hk'. rewrite Hk by assumption. cbn [heap].
        now apply nth_update_nth_neq.
      * cbn [trace]. rewrite <- !app_assoc. reflexivity.
    + exists (update_nth feat (extent_record (rect_of boundingBox f)) (heap w)).
      split; [apply update_nth_length | split].
      * intros k Hk'. apply nth_update_nth_neq. congruence.
      * reflexivity.
Qed.

Lemma featureExtent_run (layer : QgsVectorLayer InGeometry) (w : World) :
  match total_of (length (features layer)) with
  | Raise e => featureExtent boundingBox layer w = (Raise e, w)
  | Ok total =>
      exists h,
        length h = S (length (heap w)) /\
        (forall k, (k < length (heap w))%nat ->
                   nth k h emptyFeature = nth k (heap w) emptyFeature) /\
        featureExtent boundingBox layer w =
        (loop_outcome total 0 (map (rect_of boundingBox) (features layer)),
         mkWorld h (trace w ++ loop_trace total 0 (map (rect_of boundingBox) (features layer))))
  end.
Proof.
  unfold featureExtent, total_of, bind, lift.
  destruct (float_of_int (Z.of_nat (length (features layer)))) as [nf|e]; [|reflexivity].
  destruct (float_truediv f100_0 nf) as [total|e]; [|reflexivity].
  unfold newQgsFeature.
  edestruct (featureExtent_loop_run total (length (heap w)) (features layer) 0
               (mkWorld (heap w ++ [emptyFeature]) (trace w)))
    as (h & Hl & Hk & Hrun).
  { cbn [heap]. rewrite length_app. simpl. lia. }
  exists h. rewrite Hrun. cbn [heap trace] in *. repeat split.
  - rewrite Hl, length_app. simpl. lia.
  - intros k Hk'. rewrite Hk by lia. now rewrite app_nth1.
Qed.

End Runs.

(** ** Binary64 rounding, on integers *)

Module Binary64.

(** *** Digits *)
Lemma digits2_pos_bounds (p : positive) :
  2 ^ (Z.pos (digits2_pos p) - 1) <= Z.pos p < 2 ^ Z.pos (digits2_pos p).
Proof.
  induction p as [p IH|p IH|]; cbn [digits2_pos].
  - rewrite Pos2Z.inj_succ.
    replace (Z.succ (Z.pos (digits2_pos p)) - 1) with (Z.succ (Z.pos (digits2_pos p) - 1)) by lia.
    rewrite !Z.pow_succ_r by lia. lia.
  - rewrite Pos2Z.inj_succ.
    replace (Z.succ (Z.pos (digits2_pos p)) - 1) with (Z.succ (Z.pos (digits2_pos p) - 1)) by lia.
    rewrite !Z.pow_succ_r by lia. lia.
  - simpl. lia.
Qed.

Lemma Zdigits2_nonneg (m : Z) : 0 <= Zdigits2 m.
Proof. destruct m; simpl; lia. Qed.

Lemma Zdigits2_bounds (m : Z) :
  0 < m -> 2 ^ (Zdigits2 m - 1) <= m < 2 ^ Zdigits2 m.
Proof. destruct m; try lia. intros _. apply digits2_pos_bounds. Qed.

(** [Zdigits2 m] is the only [d] with [2^(d-1) <= m < 2^d]. *)
Lemma Zdigits2_unique (m d : Z) :
  0 < m -> 2 ^ (d - 1) <= m < 2 ^ d -> Zdigits2 m = d.
Proof.
  intros Hm [Hlo Hhi]. pose proof (Zdigits2_bounds m Hm) as [Hlo' Hhi'].
  pose proof (Zdigits2_nonneg m).
  assert (0 < d). { destruct (Z_lt_le_dec 0 d); auto. rewrite Z.pow_neg_r in Hlo by lia.
    assert (2 ^ d <= 2 ^ 0) by (destruct (Z.eq_dec d 0); [subst; lia| rewrite Z.pow_neg_r by lia; simpl; lia]). simpl in *. lia. }
  destruct (Z_lt_le_dec (Zdigits2 m) d).
  - assert (2 ^ Zdigits2 m <= 2 ^ (d - 1)) by (apply Z.pow_le_mono_r; lia). lia.
  - destruct (Z_lt_le_dec d (Zdigits2 m)); [|lia].
    assert (2 ^ d <= 2 ^ (Zdigits2 m - 1)) by (apply Z.pow_le_mono_r; lia). lia.
Qed.

Lemma Zdigits2_mul_pow2 (m k : Z) :
  0 < m -> 0 <= k -> Zdigits2 (m * 2 ^ k) = Zdigits2 m + k.
Proof.
  intros Hm Hk. pose proof (Zdigits2_bounds m Hm) as [Hlo Hhi].
  pose proof (Zdigits2_nonneg m).
  assert (0 < Zdigits2 m) by (destruct m; simpl in *; lia).
  apply Zdigits2_unique.
  - apply Z.mul_pos_pos; [lia | apply Z.pow_pos_nonneg; lia].
  - replace (Zdigits2 m + k - 1) with ((Zdigits2 m - 1) + k) by lia.
    rewrite !Z.pow_add_r by lia.
    assert (0 < 2 ^ k) by (apply Z.pow_pos_nonneg; lia). nia.
Qed.

Lemma Zdigits2_le_iff (m d : Z) :
  0 < m -> 0 <= d -> (Zdigits2 m <= d <-> m < 2 ^ d).
Proof.
  intros Hm Hd. pose proof (Zdigits2_bounds m Hm) as [Hlo Hhi]. split; intros H.
  - assert (2 ^ Zdigits2 m <= 2 ^ d) by (apply Z.pow_le_mono_r; lia). lia.
  - destruct (Z_lt_le_dec d (Zdigits2 m)); [|lia].
    assert (2 ^ d <= 2 ^ (Zdigits2 m - 1)) by (apply Z.pow_le_mono_r; lia). lia.
Qed.

(** *** Iterated right shifts *)
Lemma iter_pos_nat {A} (f : A -> A) (p : positive) (x : A) :
  iter_pos f p x = Nat.iter (Pos.to_nat p) f x.
Proof.
  revert x; induction p as [p IH|p IH|]; intros x; cbn [iter_pos].
  - rewrite !IH, Pos2Nat.inj_xI.
    replace (S (2 * Pos.to_nat p))%nat with (S (Pos.to_nat p + Pos.to_nat p))%nat by lia.
    now rewrite Nat.iter_succ_r, Nat.iter_add.
  - rewrite !IH, Pos2Nat.inj_xO.
    replace (2 * Pos.to_nat p)%nat with (Pos.to_nat p + Pos.to_nat p)%nat by lia.
    now rewrite Nat.iter_add.
  - reflexivity.
Qed.

(** *** Locations *)

Lemma loc_inv_exact (m : Z) : loc_inv m 1 (Build_shr_record m false false).
Proof. split; cbn; [now rewrite Z.div_1_r | apply Z.mod_1_r]. Qed.

Lemma shr_1_loc_inv (U D : Z) (mrs : shr_record) :
  0 <= U -> 0 < D -> loc_inv U D mrs -> loc_inv U (D * 2) (shr_1 mrs).
Proof.
  intros HU HD [Hm Hl].
  assert (Hq : 0 <= U / D) by (apply Z.div_pos; lia).
  pose proof (Z.mod_pos_bound U D HD) as Hr.
  pose proof (Z.div_mod U D ltac:(lia)) as HUD.
  assert (Hdiv : U / (D * 2) = U / D / 2) by (rewrite Z.div_div by lia; reflexivity).
  assert (Hmod : U mod (D * 2) = U mod D + D * ((U / D) mod 2)).
  { rewrite Z.rem_mul_r by lia. lia. }
  pose proof (Z.div_mod (U / D) 2 ltac:(lia)) as Hq2.
  pose proof (Z.mod_pos_bound (U / D) 2 ltac:(lia)) as Hq2b.
  destruct mrs as [m r s]; cbn [shr_m shr_r shr_s] in *. subst m.
  unfold loc_inv. rewrite Hdiv, Hmod.
  destruct (U / D) as [|q|q] eqn:EQ; [| |lia].
  - cbn [shr_1 shr_m shr_r shr_s]. change (0 mod 2) with 0. change (0 / 2) with 0.
    split; [reflexivity|]. destruct r, s; cbn [orb]; lia.
  - destruct q as [q|q|]; cbn [shr_1 shr_m shr_r shr_s].
    + assert (Z.pos q~1 mod 2 = 1 /\ Z.pos q~1 / 2 = Z.pos q) as [-> ->].
      { rewrite Pos2Z.inj_xI. split.
        - rewrite Z.add_comm, Z.mul_comm, Z.mod_add by lia. reflexivity.
        - rewrite Z.add_comm, Z.mul_comm, Z.div_add by lia. reflexivity. }
      split; [reflexivity|]. destruct r, s; cbn [orb]; lia.
    + assert (Z.pos q~0 mod 2 = 0 /\ Z.pos q~0 / 2 = Z.pos q) as [-> ->].
      { rewrite Pos2Z.inj_xO. split.
        - rewrite Z.mul_comm, Z.mod_mul by lia. reflexivity.
        - rewrite Z.mul_comm, Z.div_mul by lia. reflexivity. }
      split; [reflexivity|]. destruct r, s; cbn [orb]; lia.
    + change (1 mod 2) with 1. change (1 / 2) with 0.
      split; [reflexivity|]. destruct r, s; cbn [orb]; lia.
Qed.

Lemma iter_shr_1_loc_inv (U D : Z) (mrs : shr_record) (n : nat) :
  0 <= U -> 0 < D -> loc_inv U D mrs ->
  loc_inv U (D * 2 ^ Z.of_nat n) (Nat.iter n shr_1 mrs).
Proof.
  intros HU HD H. induction n as [|n IH].
  - simpl. now rewrite Z.mul_1_r.
  - rewrite Nat2Z.inj_succ, Z.pow_succ_r by lia. cbn [Nat.iter].
    replace (D * (2 * 2 ^ Z.of_nat n)) with (D * 2 ^ Z.of_nat n * 2) by lia.
    apply shr_1_loc_inv; auto.
    apply Z.mul_pos_pos; [lia | apply Z.pow_pos_nonneg; lia].
Qed.

Lemma shr_loc_inv (U D : Z) (mrs : shr_record) (e n : Z) :
  0 <= U -> 0 < D -> loc_inv U D mrs ->
  loc_inv U (D * 2 ^ Z.max n 0) (fst (shr mrs e n)) /\
  snd (shr mrs e n) = e + Z.max n 0.
Proof.
  intros HU HD H. destruct n as [|p|p]; cbn [shr fst snd].
  - rewrite Z.max_id. simpl. rewrite Z.mul_1_r, Z.add_0_r. auto.
  - rewrite Z.max_l by lia. split; [|reflexivity].
    rewrite iter_pos_nat, <- (positive_nat_Z p).
    now apply iter_shr_1_loc_inv.
  - rewrite Z.max_r by lia. simpl. rewrite Z.mul_1_r, Z.add_0_r. auto.
Qed.

Lemma round_loc_inv (U D : Z) (mrs : shr_record) :
  0 < D -> loc_inv U D mrs ->
  round_nearest_even (shr_m mrs) (loc_of_shr_record mrs) = RN U D.
Proof.
  intros HD [Hm Hl]. destruct mrs as [m r s]; cbn [shr_m shr_r shr_s] in *. subst m.
  unfold RN.
  destruct r, s; cbn [loc_of_shr_record round_nearest_even].
  - assert ((2 * (U mod D) ?= D) = Gt) as -> by (apply Z.compare_gt_iff; lia). reflexivity.
  - assert ((2 * (U mod D) ?= D) = Eq) as -> by (apply Z.compare_eq_iff; lia). reflexivity.
  - assert ((2 * (U mod D) ?= D) = Lt) as -> by (apply Z.compare_lt_iff; lia). reflexivity.
  - assert ((2 * (U mod D) ?= D) = Lt) as -> by (apply Z.compare_lt_iff; lia). reflexivity.
Qed.

Lemma RN_bounds (U D : Z) : 0 < D -> U / D <= RN U D <= U / D + 1.
Proof.
  intros HD. unfold RN.
  destruct (2 * (U mod D) ?= D); [destruct (Z.even (U / D))| |]; lia.
Qed.

Lemma RN_nonneg (U D : Z) : 0 <= U -> 0 < D -> 0 <= RN U D.
Proof.
  intros HU HD. pose proof (RN_bounds U D HD).
  assert (0 <= U / D) by (apply Z.div_pos; lia). lia.
Qed.

(** *** [binary_round_aux] in arithmetic terms *)

Lemma bra_unfold (s : bool) (U D mx ex : Z) (lx : location) :
  0 <= U -> 0 < D -> loc_inv U D (shr_record_of_loc mx lx) ->
  binary_round_aux prec emax s mx ex lx = bra_spec s U D mx ex.
Proof.
  intros HU HD H. unfold binary_round_aux, bra_spec, shr_fexp.
  set (n := fexp prec emax (Zdigits2 mx + ex) - ex).
  destruct (shr_loc_inv U D _ ex n HU HD H) as [H1 E1].
  destruct (shr (shr_record_of_loc mx lx) ex n) as [mrs' e'].
  cbn [fst snd] in H1, E1. subst e'.
  assert (HD1 : 0 < D * 2 ^ Z.max n 0).
  { apply Z.mul_pos_pos; auto. apply Z.pow_pos_nonneg; lia. }
  rewrite (round_loc_inv _ _ _ HD1 H1).
  set (m1 := RN U (D * 2 ^ Z.max n 0)).
  assert (Hm1 : 0 <= m1).
  { apply RN_nonneg; auto. }
  set (e1 := ex + Z.max n 0).
  set (n1 := fexp prec emax (Zdigits2 m1 + e1) - e1).
  cbn [shr_record_of_loc].
  destruct (shr_loc_inv m1 1 _ e1 n1 Hm1 ltac:(lia) (loc_inv_exact m1)) as [[H2 _] E2].
  destruct (shr (Build_shr_record m1 false false) e1 n1) as [mrs'' e''].
  cbn [fst snd] in H2, E2. subst e''. rewrite H2, Z.mul_1_l. reflexivity.
Qed.

Lemma fexp_eq (e : Z) : fexp prec emax e = Z.max (e - 53) (-1074).
Proof. reflexivity. Qed.

Lemma pow2_pos (k : Z) : 0 <= k -> 0 < 2 ^ k.
Proof. intros; apply Z.pow_pos_nonneg; lia. Qed.

Lemma pow2_le (a b : Z) : 0 <= a <= b -> 2 ^ a <= 2 ^ b.
Proof. intros; apply Z.pow_le_mono_r; lia. Qed.

Lemma pow2_lt (a b : Z) : 0 <= a < b -> 2 ^ a < 2 ^ b.
Proof. intros; apply Z.pow_lt_mono_r; lia. Qed.

Lemma Zdigits2_pos (m : Z) : 0 < m -> 0 < Zdigits2 m.
Proof. destruct m; simpl; lia. Qed.

Lemma SF_of_finite (s : bool) (m e : Z) :
  0 < m -> Zdigits2 m <= 53 -> e = Z.max (Zdigits2 m + e - 53) (-1074) ->
  SF_of s (m * 2 ^ (e + 1074)) =
  if e <=? 971 then S754_finite s (Z.to_pos m) e else S754_infinity s.
Proof.
  intros Hm Hd He.
  assert (He0 : 0 <= e + 1074) by lia.
  pose proof (pow2_pos _ He0) as Hp.
  pose proof (Zdigits2_pos m Hm) as Hdp.
  pose proof (Zdigits2_bounds m Hm) as [Hlo Hhi].
  assert (HW : 0 < m * 2 ^ (e + 1074)) by (apply Z.mul_pos_pos; lia).
  unfold SF_of.
  rewrite (proj2 (Z.leb_gt _ _) HW).
  rewrite Zdigits2_mul_pow2 by lia.
  destruct (Z.leb_spec e 971) as [Hle|Hgt].
  - assert (Hlt : m * 2 ^ (e + 1074) < 2 ^ 2098).
    { apply Z.lt_le_trans with (2 ^ Zdigits2 m * 2 ^ (e + 1074)).
      - apply Z.mul_lt_mono_pos_r; lia.
      - rewrite <- Z.pow_add_r by lia. apply pow2_le. lia. }
    rewrite (proj2 (Z.leb_gt _ _) Hlt). cbv zeta.
    replace (Z.max (Zdigits2 m + (e + 1074) - 53) 0) with (e + 1074) by lia.
    rewrite Z.div_mul by lia. f_equal. lia.
  - assert (Hd53 : Zdigits2 m = 53) by lia.
    rewrite Hd53 in Hlo.
    assert (Hge : 2 ^ 2098 <= m * 2 ^ (e + 1074)).
    { apply Z.le_trans with (2 ^ 52 * 2 ^ (e + 1074)).
      - rewrite <- Z.pow_add_r by lia. apply pow2_le. lia.
      - apply Z.mul_le_mono_nonneg_r; lia. }
    rewrite (proj2 (Z.leb_le _ _) Hge). reflexivity.
Qed.

(** A valid number is the number of its scaled value. *)
Lemma valid_SF_of (s : bool) (m : positive) (e : Z) :
  valid_binary (S754_finite s m e) = true ->
  S754_finite s m e = SF_of s (Z.pos m * 2 ^ (e + 1074)) /\
  -1074 <= e <= 971 /\ Zdigits2 (Z.pos m) <= 53 /\
  e = Z.max (Zdigits2 (Z.pos m) + e - 53) (-1074).
Proof.
  cbn [SpecFloat.valid_binary]. unfold bounded, canonical_mantissa.
  rewrite andb_true_iff, Z.eqb_eq, Z.leb_le, fexp_eq.
  change (emax - prec) with 971. intros [Hc Hb].
  change (Z.pos (digits2_pos m)) with (Zdigits2 (Z.pos m)) in Hc.
  assert (Hd : Zdigits2 (Z.pos m) <= 53) by lia.
  rewrite SF_of_finite by lia.
  rewrite (proj2 (Z.leb_le _ _) Hb). repeat split; try lia.
Qed.

Lemma RN_scale (U D c : Z) : 0 < D -> 0 < c -> RN (U * c) (D * c) = RN U D.
Proof.
  intros HD Hc. unfold RN.
  rewrite Z.div_mul_cancel_r, Z.mul_mod_distr_r by lia.
  assert (Hcmp : (2 * (U mod D * c) ?= D * c) = (2 * (U mod D) ?= D)).
  { destruct (Z.compare_spec (2 * (U mod D)) D);
      [apply Z.compare_eq_iff | apply Z.compare_lt_iff | apply Z.compare_gt_iff]; nia. }
  rewrite Hcmp. reflexivity.
Qed.

Lemma RN_exact (q D : Z) : 0 < D -> RN (q * D) D = q.
Proof.
  intros HD. unfold RN. rewrite Z.mod_mul, Z.div_mul by lia.
  assert ((2 * 0 ?= D) = Lt) as -> by (apply Z.compare_lt_iff; lia). reflexivity.
Qed.

(** The rounding of a positive mantissa whose exponent is at most the
    exponent of its format. *)
Lemma bra_spec_val (s : bool) (M : positive) (E a : Z) :
  1074 <= a -> 0 <= E + a -> E <= fexp prec emax (Zdigits2 (Z.pos M) + E) ->
  bra_spec s (Z.pos M) 1 (Z.pos M) E = SF_of s (rnd a (Z.pos M * 2 ^ (E + a))).
Proof.
  intros Ha HEa HE. rewrite fexp_eq in HE.
  set (d := Zdigits2 (Z.pos M)) in *.
  assert (Hd : 0 < d) by (apply Zdigits2_pos; lia).
  pose proof (Zdigits2_bounds (Z.pos M) ltac:(lia)) as [Hlo Hhi]. fold d in Hlo, Hhi.
  set (fe := Z.max (d + E - 53) (-1074)) in *.
  set (k := fe - E).
  assert (Hk : 0 <= k) by (unfold k; lia).
  pose proof (pow2_pos k Hk) as Hpk.
  pose proof (pow2_pos (E + a) HEa) as Hpa.
  (* the rounded mantissa *)
  set (m1 := RN (Z.pos M) (2 ^ k)).
  assert (Hrnd : rnd a (Z.pos M * 2 ^ (E + a)) = m1 * 2 ^ (fe + 1074)).
  { unfold rnd. rewrite Zdigits2_mul_pow2 by lia. fold d.
    replace (Z.max (d + (E + a) - 53) (a - 1074)) with (k + (E + a)) by (unfold k, fe; lia).
    rewrite (Z.pow_add_r 2 k (E + a)) by lia. rewrite RN_scale by lia. fold m1.
    f_equal. f_equal. unfold k. lia. }
  rewrite Hrnd.
  unfold bra_spec. rewrite fexp_eq. fold d. fold fe. fold k.
  rewrite (Z.max_l k 0) by lia. rewrite Z.mul_1_l. fold m1.
  replace (E + k) with fe by (unfold k; lia).
  pose proof (RN_bounds (Z.pos M) (2 ^ k) Hpk) as Hm1. fold m1 in Hm1.
  assert (Hq0 : 0 <= Z.pos M / 2 ^ k) by (apply Z.div_pos; lia).
  rewrite fexp_eq. change (emax - prec) with 971.
  destruct (Z.eq_dec m1 0) as [H0|Hn0].
  { rewrite H0. rewrite Z.div_0_l by (apply Z.pow_nonzero; lia). reflexivity. }
  assert (Hm1pos : 0 < m1) by lia.
  destruct (Z_le_gt_dec (-1074) (d + E - 53)) as [HN|HS].
  - (* normal range *)
    assert (Hfe : fe = d + E - 53) by (unfold fe; lia).
    assert (Hkd : k = d - 53) by (unfold k; lia).
    assert (Hq : 2 ^ 52 <= Z.pos M / 2 ^ k < 2 ^ 53).
    { split.
      - apply Z.div_le_lower_bound; [lia|].
        rewrite <- Z.pow_add_r by lia. replace (k + 52) with (d - 1) by lia. lia.
      - apply Z.div_lt_upper_bound; [lia|].
        rewrite <- Z.pow_add_r by lia. replace (k + 53) with d by lia. lia. }
    destruct (Z.eq_dec m1 (2 ^ 53)) as [Hc|Hnc].
    + (* the mantissa carries *)
      rewrite Hc.
      assert (Hd54 : Zdigits2 (2 ^ 53) = 54) by reflexivity.
      rewrite Hd54.
      replace (Z.max (Z.max (54 + fe - 53) (-1074) - fe) 0) with 1 by lia.
      change (2 ^ 53 / 2 ^ 1) with (Z.pos (Z.to_pos (2 ^ 52))).
      replace (2 ^ 53 * 2 ^ (fe + 1074)) with (2 ^ 52 * 2 ^ ((fe + 1) + 1074)).
      2:{ replace (fe + 1 + 1074) with (1 + (fe + 1074)) by lia.
          rewrite (Z.pow_add_r 2 1) by lia. change (2 ^ 53) with (2 ^ 52 * 2 ^ 1). lia. }
      rewrite SF_of_finite; [reflexivity | reflexivity | (change (Zdigits2 (2 ^ 52)) with 53; lia) |].
      change (Zdigits2 (2 ^ 52)) with 53. lia.
    + assert (Hd53 : Zdigits2 m1 = 53).
      { apply Zdigits2_unique; [lia|]. change (53 - 1) with 52. lia. }
      rewrite Hd53.
      replace (Z.max (Z.max (53 + fe - 53) (-1074) - fe) 0) with 0 by lia.
      rewrite Z.pow_0_r, Z.div_1_r, Z.add_0_r.
      rewrite SF_of_finite by lia.
      destruct m1; try lia. reflexivity.
  - (* subnormal range *)
    assert (Hfe : fe = -1074) by (unfold fe; lia).
    assert (Hq : Z.pos M / 2 ^ k < 2 ^ 52).
    { apply Z.div_lt_upper_bound; [lia|].
      rewrite <- Z.pow_add_r by lia.
      apply Z.lt_le_trans with (2 ^ d); [lia|]. apply pow2_le. unfold k. lia. }
    assert (Hd53 : Zdigits2 m1 <= 53).
    { apply Zdigits2_le_iff; [lia|lia|].
      change (2 ^ 53) with (2 * 2 ^ 52). lia. }
    pose proof (Zdigits2_pos m1 Hm1pos).
    replace (Z.max (Z.max (Zdigits2 m1 + fe - 53) (-1074) - fe) 0) with 0 by lia.
    rewrite Z.pow_0_r, Z.div_1_r, Z.add_0_r.
    rewrite SF_of_finite by lia.
    destruct m1; try lia. rewrite Hfe. reflexivity.
Qed.

Lemma bra_exact_val (s : bool) (M : positive) (E a : Z) :
  1074 <= a -> 0 <= E + a -> E <= fexp prec emax (Zdigits2 (Z.pos M) + E) ->
  binary_round_aux prec emax s (Z.pos M) E loc_Exact =
  SF_of s (rnd a (Z.pos M * 2 ^ (E + a))).
Proof.
  intros Ha HEa HE.
  rewrite (bra_unfold s (Z.pos M) 1 (Z.pos M) E loc_Exact);
    [now apply bra_spec_val | lia | lia | apply loc_inv_exact].
Qed.

Lemma iter_xO_val (m d : positive) : Z.pos (Pos.iter xO m d) = Z.pos m * 2 ^ Z.pos d.
Proof.
  change (Pos.iter xO m d) with (shift_pos d m).
  rewrite shift_pos_correct, Zpower_pos_nat, Zpower_nat_Z, positive_nat_Z. lia.
Qed.

Lemma shl_align_val (mx : positive) (ex ex' : Z) :
  let '(m, e) := shl_align mx ex ex' in
  Z.pos m = Z.pos mx * 2 ^ (ex - Z.min ex ex') /\ e = Z.min ex ex'.
Proof.
  unfold shl_align. destruct (ex' - ex) as [|p|p] eqn:E.
  - rewrite Z.min_l by lia. rewrite Z.sub_diag. split; [lia|reflexivity].
  - rewrite Z.min_l by lia. rewrite Z.sub_diag. split; [lia|reflexivity].
  - rewrite Z.min_r by lia. rewrite iter_xO_val. split; [|reflexivity].
    f_equal. f_equal. lia.
Qed.

Lemma binary_round_val (s : bool) (M : positive) (E a : Z) :
  1074 <= a -> 0 <= E + a ->
  binary_round prec emax s M E = SF_of s (rnd a (Z.pos M * 2 ^ (E + a))).
Proof.
  intros Ha HEa. unfold binary_round.
  change (Z.pos (digits2_pos M)) with (Zdigits2 (Z.pos M)).
  pose proof (shl_align_val M E (fexp prec emax (Zdigits2 (Z.pos M) + E))) as H.
  destruct (shl_align M E (fexp prec emax (Zdigits2 (Z.pos M) + E))) as [mz ez].
  destruct H as [Hm He].
  set (fe := fexp prec emax (Zdigits2 (Z.pos M) + E)) in *.
  assert (Hfe : -1074 <= fe) by (unfold fe; rewrite fexp_eq; lia).
  assert (Hs : 0 <= E - Z.min E fe) by lia.
  assert (Hdz : Zdigits2 (Z.pos mz) + ez = Zdigits2 (Z.pos M) + E).
  { rewrite Hm, Zdigits2_mul_pow2 by lia. lia. }
  rewrite (bra_exact_val s mz ez a); try lia.
  - f_equal. f_equal. rewrite Hm, <- Z.mul_assoc, <- Z.pow_add_r by lia.
    f_equal. f_equal. lia.
  - rewrite Hdz. fold fe. lia.
Qed.

Lemma Zdigits2_mul_lower (x y : Z) :
  0 < x -> 0 < y -> Zdigits2 x + Zdigits2 y - 1 <= Zdigits2 (x * y).
Proof.
  intros Hx Hy.
  pose proof (Zdigits2_bounds x Hx) as [Hx1 _].
  pose proof (Zdigits2_bounds y Hy) as [Hy1 _].
  pose proof (Zdigits2_pos x Hx). pose proof (Zdigits2_pos y Hy).
  assert (Hxy : 0 < x * y) by nia.
  destruct (Z_lt_le_dec (Zdigits2 (x * y)) (Zdigits2 x + Zdigits2 y - 1)) as [Hlt|]; [|lia].
  exfalso.
  assert (H1 : x * y < 2 ^ (Zdigits2 x + Zdigits2 y - 2)).
  { apply Zdigits2_le_iff; lia. }
  replace (Zdigits2 x + Zdigits2 y - 2) with ((Zdigits2 x - 1) + (Zdigits2 y - 1)) in H1 by lia.
  rewrite Z.pow_add_r in H1 by lia.
  pose proof (pow2_pos (Zdigits2 x - 1) ltac:(lia)).
  pose proof (pow2_pos (Zdigits2 y - 1) ltac:(lia)).
  nia.
Qed.

Lemma SFmul_val (sx sy : bool) (mx my : positive) (ex ey : Z) :
  valid_binary (S754_finite sx mx ex) = true ->
  valid_binary (S754_finite sy my ey) = true ->
  SFmul prec emax (S754_finite sx mx ex) (S754_finite sy my ey) =
  SF_of (xorb sx sy) (rnd 2148 (Wval mx ex * Wval my ey)).
Proof.
  intros Hx Hy.
  destruct (valid_SF_of _ _ _ Hx) as (_ & Hex & Hdx & Hcx).
  destruct (valid_SF_of _ _ _ Hy) as (_ & Hey & Hdy & Hcy).
  cbn [SFmul]. change (Z.pos (mx * my)) with (Z.pos mx * Z.pos my).
  pose proof (Zdigits2_mul_lower (Z.pos mx) (Z.pos my) ltac:(lia) ltac:(lia)) as Hd.
  pose proof (Zdigits2_pos (Z.pos mx) ltac:(lia)).
  pose proof (Zdigits2_pos (Z.pos my) ltac:(lia)).
  change (Z.pos mx * Z.pos my) with (Z.pos (mx * my)) in *.
  rewrite (bra_exact_val _ _ _ 2148); try lia.
  - f_equal. f_equal. unfold Wval.
    replace (ex + ey + 2148) with ((ex + 1074) + (ey + 1074)) by lia.
    rewrite Z.pow_add_r by lia. rewrite Pos2Z.inj_mul. ring.
  - rewrite fexp_eq. lia.
Qed.

(** *** Properties of [rnd] *)

Lemma Zdigits2_mono (x y : Z) : 0 <= x <= y -> Zdigits2 x <= Zdigits2 y.
Proof.
  intros [Hx Hxy]. destruct (Z.eq_dec x 0) as [->|Hx0].
  - apply Zdigits2_nonneg.
  - pose proof (Zdigits2_bounds x ltac:(lia)) as [Hlo _].
    pose proof (Zdigits2_bounds y ltac:(lia)) as [_ Hhi].
    pose proof (Zdigits2_pos x ltac:(lia)). pose proof (Zdigits2_pos y ltac:(lia)).
    destruct (Z_lt_le_dec (Zdigits2 y) (Zdigits2 x)) as [Hlt|]; [|lia].
    pose proof (pow2_le (Zdigits2 y) (Zdigits2 x - 1) ltac:(lia)). lia.
Qed.

Lemma Zdigits2_upper (x : Z) : 0 <= x -> x < 2 ^ Zdigits2 x.
Proof.
  intros Hx. destruct (Z.eq_dec x 0) as [->|]; [reflexivity|].
  apply Zdigits2_bounds. lia.
Qed.

Lemma RN_mono (U1 U2 D : Z) : 0 < D -> U1 <= U2 -> RN U1 D <= RN U2 D.
Proof.
  intros HD HU.
  pose proof (RN_bounds U1 D HD). pose proof (RN_bounds U2 D HD).
  assert (Hq : U1 / D <= U2 / D) by (apply Z.div_le_mono; lia).
  destruct (Z.eq_dec (U1 / D) (U2 / D)) as [Heq|]; [|lia].
  pose proof (Z.div_mod U1 D ltac:(lia)). pose proof (Z.div_mod U2 D ltac:(lia)).
  assert (Hr : U1 mod D <= U2 mod D) by nia.
  unfold RN. rewrite Heq.
  destruct (Z.compare_spec (2 * (U1 mod D)) D), (Z.compare_spec (2 * (U2 mod D)) D),
    (Z.even (U2 / D)); lia.
Qed.

Lemma RN_0 (D : Z) : 0 < D -> RN 0 D = 0.
Proof. intros HD. apply (RN_exact 0 D HD). Qed.

Lemma rnd_0 (a : Z) : 1074 <= a -> rnd a 0 = 0.
Proof.
  intros Ha. unfold rnd. rewrite RN_0; [reflexivity|]. apply pow2_pos. simpl. lia.
Qed.

Lemma rnd_nonneg (a V : Z) : 1074 <= a -> 0 <= V -> 0 <= rnd a V.
Proof.
  intros Ha HV. unfold rnd. cbv zeta.
  pose proof (Zdigits2_nonneg V).
  apply Z.mul_nonneg_nonneg.
  - apply RN_nonneg; [lia | apply pow2_pos; lia].
  - apply Z.lt_le_incl, pow2_pos. lia.
Qed.

Lemma rnd_mono (a V1 V2 : Z) :
  1074 <= a -> 0 <= V1 <= V2 -> rnd a V1 <= rnd a V2.
Proof.
  intros Ha [H1 H12]. unfold rnd. cbv zeta.
  pose proof (Zdigits2_mono V1 V2 ltac:(lia)) as Hd.
  pose proof (Zdigits2_nonneg V1) as Hd1.
  set (c := a - 1074). assert (Hc : 0 <= c) by (unfold c; lia).
  set (K1 := Z.max (Zdigits2 V1 - 53) c). set (K2 := Z.max (Zdigits2 V2 - 53) c).
  assert (HK : 0 <= K1 <= K2) by (unfold K1, K2; lia).
  pose proof (pow2_pos K1 ltac:(lia)) as HpK1. pose proof (pow2_pos K2 ltac:(lia)) as HpK2.
  destruct (Z.eq_dec K1 K2) as [Heq|Hne].
  - rewrite <- Heq. apply Z.mul_le_mono_nonneg_r.
    + apply Z.lt_le_incl, pow2_pos. unfold K1. lia.
    + apply RN_mono; lia.
  - assert (HK2 : K2 = Zdigits2 V2 - 53) by (unfold K1, K2 in *; lia).
    assert (HV2 : 0 < V2).
    { destruct (Z.eq_dec V2 0) as [E|]; [|lia]. rewrite E in HK2. simpl in HK2. lia. }
    pose proof (Zdigits2_bounds V2 HV2) as [Hlo2 _].
    pose proof (Zdigits2_upper V1 H1) as Hhi1.
    pose proof (RN_bounds V1 (2 ^ K1) HpK1) as [_ Hu].
    pose proof (RN_bounds V2 (2 ^ K2) HpK2) as [Hl _].
    assert (Hq1 : V1 / 2 ^ K1 < 2 ^ 53).
    { apply Z.div_lt_upper_bound; [lia|]. rewrite <- Z.pow_add_r by lia.
      apply Z.lt_le_trans with (2 ^ Zdigits2 V1); [lia|]. apply pow2_le. unfold K1. lia. }
    assert (Hq2 : 2 ^ 52 <= V2 / 2 ^ K2).
    { apply Z.div_le_lower_bound; [lia|]. rewrite <- Z.pow_add_r by lia.
      replace (K2 + 52) with (Zdigits2 V2 - 1) by lia. lia. }
    apply Z.le_trans with (2 ^ 53 * 2 ^ (K1 - c)).
    + apply Z.mul_le_mono_nonneg_r; [|lia]. apply Z.lt_le_incl, pow2_pos. unfold K1. lia.
    + apply Z.le_trans with (2 ^ 52 * 2 ^ (K2 - c)).
      * rewrite <- !Z.pow_add_r by (unfold K1, K2; lia). apply pow2_le. unfold K1. lia.
      * apply Z.mul_le_mono_nonneg_r; [|lia]. apply Z.lt_le_incl, pow2_pos. unfold K2. lia.
Qed.

Lemma repr_mul_pow2 (m j : Z) : 0 <= m <= 2 ^ 53 -> 0 <= j -> repr (m * 2 ^ j).
Proof.
  intros [Hm0 Hm] Hj. unfold repr.
  destruct (Z.eq_dec m 0) as [->|Hn0]; [reflexivity|].
  rewrite Zdigits2_mul_pow2 by lia.
  pose proof (Zdigits2_pos m ltac:(lia)) as Hdp.
  destruct (Z.eq_dec m (2 ^ 53)) as [->|Hlt].
  - change (Zdigits2 (2 ^ 53)) with 54.
    replace (Z.max (54 + j - 53) 0) with (j + 1) by lia.
    rewrite <- Z.pow_add_r by lia. replace (53 + j) with (52 + (j + 1)) by lia.
    rewrite Z.pow_add_r by lia. apply Z.mod_mul. apply Z.pow_nonzero; lia.
  - assert (Hd : Zdigits2 m <= 53) by (apply Zdigits2_le_iff; lia).
    set (e := Z.max (Zdigits2 m + j - 53) 0).
    assert (He : 0 <= e <= j) by (unfold e; lia).
    replace j with ((j - e) + e) by lia. rewrite Z.pow_add_r by lia.
    rewrite Z.mul_assoc. apply Z.mod_mul. apply Z.pow_nonzero; lia.
Qed.

Lemma rnd_exact (a W : Z) :
  1074 <= a -> 0 <= W -> repr W -> rnd a (W * 2 ^ (a - 1074)) = W.
Proof.
  intros Ha HW Hr.
  destruct (Z.eq_dec W 0) as [->|Hn0]; [now apply rnd_0|].
  unfold rnd, repr in *. cbv zeta.
  rewrite Zdigits2_mul_pow2 by lia.
  set (e := Z.max (Zdigits2 W - 53) 0) in *.
  replace (Z.max (Zdigits2 W + (a - 1074) - 53) (a - 1074)) with (e + (a - 1074))
    by (unfold e; lia).
  assert (He : 0 <= e) by (unfold e; lia).
  rewrite Z.pow_add_r by lia.
  rewrite RN_scale by (apply pow2_pos; lia).
  replace (e + (a - 1074) - (a - 1074)) with e by lia.
  pose proof (Z.div_mod W (2 ^ e) ltac:(apply Z.pow_nonzero; lia)) as HWe.
  rewrite Hr, Z.add_0_r in HWe.
  rewrite HWe at 1. rewrite (Z.mul_comm (2 ^ e)), RN_exact by (apply pow2_pos; lia). lia.
Qed.

Lemma rnd_repr (a V : Z) : 1074 <= a -> 0 <= V -> repr (rnd a V).
Proof.
  intros Ha HV. unfold rnd. cbv zeta.
  pose proof (Zdigits2_nonneg V).
  set (K := Z.max (Zdigits2 V - 53) (a - 1074)).
  assert (HK : 0 <= K) by (unfold K; lia).
  pose proof (pow2_pos K HK) as HpK.
  apply repr_mul_pow2; [|unfold K; lia].
  split; [apply RN_nonneg; lia|].
  pose proof (RN_bounds V (2 ^ K) HpK) as [_ Hu].
  assert (V / 2 ^ K < 2 ^ 53); [|lia].
  apply Z.div_lt_upper_bound; [lia|]. rewrite <- Z.pow_add_r by lia.
  apply Z.lt_le_trans with (2 ^ Zdigits2 V); [now apply Zdigits2_upper|].
  apply pow2_le. unfold K. lia.
Qed.

Lemma rnd_double (V : Z) : 0 <= V -> rnd 1074 (2 * V) = 2 * rnd 1074 V.
Proof.
  intros HV. destruct (Z.eq_dec V 0) as [->|Hn0]; [reflexivity|].
  unfold rnd. cbv zeta.
  replace (2 * V) with (V * 2 ^ 1) by (change (2 ^ 1) with 2; lia).
  rewrite Zdigits2_mul_pow2 by lia.
  pose proof (Zdigits2_pos V ltac:(lia)) as Hd.
  change (1074 - 1074) with 0. rewrite !Z.sub_0_r.
  destruct (Z_le_gt_dec (Zdigits2 V) 52) as [Hs|Hb].
  - rewrite !Z.max_r by lia. change (2 ^ 0) with 1.
    assert (R1 : forall x, RN x 1 = x).
    { intros x. rewrite <- (Z.mul_1_r x) at 1. apply RN_exact. lia. }
    rewrite !R1. change (2 ^ 1) with 2. lia.
  - rewrite !Z.max_l by lia.
    replace (Zdigits2 V + 1 - 53) with ((Zdigits2 V - 53) + 1) by lia.
    rewrite (Z.pow_add_r 2 (Zdigits2 V - 53) 1) by lia.
    rewrite RN_scale by (try apply pow2_pos; simpl; lia). simpl (2 ^ 1). lia.
Qed.

Lemma repr_pow2 (j : Z) : 0 <= j -> repr (2 ^ j).
Proof.
  intros Hj. rewrite <- (Z.mul_1_l (2 ^ j)). apply repr_mul_pow2; [|lia].
  split; [lia|]. apply Z.lt_le_incl. apply (pow2_pos 53). lia.
Qed.

(** A bound by a power of two survives rounding. *)
Lemma rnd_le_pow2 (a V j : Z) :
  1074 <= a -> 0 <= V -> 0 <= j -> V <= 2 ^ j * 2 ^ (a - 1074) -> rnd a V <= 2 ^ j.
Proof.
  intros Ha HV Hj HVj.
  assert (E : rnd a (2 ^ j * 2 ^ (a - 1074)) = 2 ^ j).
  { apply rnd_exact; [lia | apply Z.lt_le_incl, pow2_pos; lia | now apply repr_pow2]. }
  rewrite <- E. apply rnd_mono; lia.
Qed.

(** *** Division *)

Lemma new_location_inv (U D : Z) :
  0 <= U -> 0 < D ->
  loc_inv U D (shr_record_of_loc (U / D) (new_location D (U mod D))).
Proof.
  intros HU HD. pose proof (Z.mod_pos_bound U D HD) as Hr.
  unfold new_location. destruct (Z.even D) eqn:Ev.
  - unfold new_location_even.
    destruct (Z.eqb_spec (U mod D) 0) as [H0|H0]; [split; cbn [shr_m shr_r shr_s shr_record_of_loc]; auto|].
    destruct (Z.compare_spec (2 * (U mod D)) D); split; cbn [shr_m shr_r shr_s shr_record_of_loc]; auto; lia.
  - unfold new_location_odd.
    destruct (Z.eqb_spec (U mod D) 0) as [H0|H0]; [split; cbn [shr_m shr_r shr_s shr_record_of_loc]; auto|].
    assert (Hodd : Z.odd D = true) by (rewrite <- Z.negb_even, Ev; reflexivity).
    apply Z.odd_spec in Hodd. destruct Hodd as [h Hh].
    destruct (Z.compare_spec (2 * (U mod D) + 1) D); split; cbn [shr_m shr_r shr_s shr_record_of_loc]; auto; lia.
Qed.

Lemma SFdiv_unfold (sx sy : bool) (mx my : positive) (ex ey : Z) :
  let e' := div_exp (Zdigits2 (Z.pos mx)) ex (Zdigits2 (Z.pos my)) ey in
  let U := Z.pos mx * 2 ^ (ex - ey - e') in
  SFdiv prec emax (S754_finite sx mx ex) (S754_finite sy my ey) =
  bra_spec (xorb sx sy) U (Z.pos my) (U / Z.pos my) e'.
Proof.
  intros e' U. cbn [SFdiv]. unfold SFdiv_core_binary.
  fold (div_exp (Zdigits2 (Z.pos mx)) ex (Zdigits2 (Z.pos my)) ey). fold e'.
  assert (Hs : 0 <= ex - ey - e') by (unfold e', div_exp; lia).
  assert (HU : match ex - ey - e' with
               | 0 => Z.pos mx
               | Z.pos _ => Z.shiftl (Z.pos mx) (ex - ey - e')
               | Z.neg _ => 0
               end = U).
  { unfold U. destruct (ex - ey - e') as [|p|p] eqn:E; [|rewrite Z.shiftl_mul_pow2|]; lia. }
  rewrite HU.
  assert (HU0 : 0 <= U).
  { unfold U. apply Z.mul_nonneg_nonneg; [lia|]. apply Z.lt_le_incl, pow2_pos; lia. }
  pose proof (new_location_inv U (Z.pos my) HU0 ltac:(lia)) as Hinv.
  unfold Z.div, Z.modulo in Hinv |- *.
  destruct (Z.div_eucl U (Z.pos my)) as [q r]. cbn [fst snd] in *.
  now apply bra_unfold.
Qed.

Lemma bra_spec_bound (s : bool) (U D mx ex B : Z) :
  0 <= U -> 0 < D -> mx = U / D ->
  -1074 <= ex <= B -> Zdigits2 mx + ex <= B -> B <= 971 ->
  bra_spec s U D mx ex = S754_zero s \/
  exists m e, bra_spec s U D mx ex = S754_finite s m e /\
              Wval m e <= mx * 2 ^ (ex + 1074) +
                          2 ^ (Z.max ex (fexp prec emax (Zdigits2 mx + ex)) + 1074) /\
              Wval m e <= 2 ^ (B + 1 + 1074).
Proof.
  intros HU HD Hmx Hex Hdig HB. unfold bra_spec. rewrite !fexp_eq.
  set (k := Z.max (Z.max (Zdigits2 mx + ex - 53) (-1074) - ex) 0).
  assert (Hk : 0 <= k) by (unfold k; lia).
  pose proof (pow2_pos k Hk) as Hpk.
  set (m1 := RN U (D * 2 ^ k)).
  assert (HDk : 0 < D * 2 ^ k) by (apply Z.mul_pos_pos; lia).
  pose proof (RN_bounds U (D * 2 ^ k) HDk) as [_ Hm1u].
  pose proof (RN_nonneg U (D * 2 ^ k) HU HDk) as Hm10. fold m1 in Hm1u, Hm10.
  rewrite <- Z.div_div, <- Hmx in Hm1u by lia.
  assert (Hmx0 : 0 <= mx) by (subst mx; apply Z.div_pos; lia).
  set (e1 := ex + k).
  assert (He1 : -1074 <= e1 <= B) by (unfold e1, k; lia).
  assert (He1' : Z.max ex (Z.max (Zdigits2 mx + ex - 53) (-1074)) = e1) by (unfold e1, k; lia).
  rewrite He1'.
  pose proof (pow2_pos (ex + 1074) ltac:(lia)) as Hpe.
  pose proof (pow2_pos (e1 + 1074) ltac:(lia)) as Hpe1.
  (* the value before the last shift *)
  assert (Hv0 : m1 * 2 ^ (e1 + 1074) <= mx * 2 ^ (ex + 1074) + 2 ^ (e1 + 1074)).
  { assert (Hq : mx / 2 ^ k * 2 ^ k <= mx).
    { pose proof (Z.mul_div_le mx (2 ^ k) Hpk). lia. }
    unfold e1. replace (ex + k + 1074) with (k + (ex + 1074)) by lia.
    rewrite Z.pow_add_r by lia. nia. }
  assert (Hv1 : mx * 2 ^ (ex + 1074) + 2 ^ (e1 + 1074) <= 2 ^ (B + 1 + 1074)).
  { pose proof (Zdigits2_upper mx Hmx0) as Hup.
    pose proof (Zdigits2_nonneg mx) as Hdn.
    assert (H1 : mx * 2 ^ (ex + 1074) < 2 ^ (B + 1074)).
    { apply Z.lt_le_trans with (2 ^ Zdigits2 mx * 2 ^ (ex + 1074)).
      - apply Z.mul_lt_mono_pos_r; lia.
      - rewrite <- Z.pow_add_r by lia. apply pow2_le. lia. }
    assert (H2 : 2 ^ (e1 + 1074) <= 2 ^ (B + 1074)) by (apply pow2_le; lia).
    replace (B + 1 + 1074) with (1 + (B + 1074)) by lia.
    rewrite (Z.pow_add_r 2 1) by lia. change (2 ^ 1) with 2. lia. }
  set (k1 := Z.max (Z.max (Zdigits2 m1 + e1 - 53) (-1074) - e1) 0).
  assert (Hk1 : 0 <= k1) by (unfold k1; lia).
  pose proof (pow2_pos k1 Hk1) as Hpk1.
  assert (Hm2 : 0 <= m1 / 2 ^ k1) by (apply Z.div_pos; lia).
  destruct (m1 / 2 ^ k1) as [|m2|m2] eqn:Em2; [left; reflexivity| |lia].
  right. change (emax - prec) with 971.
  assert (Hm1pos : 0 < m1).
  { destruct (Z.eq_dec m1 0) as [E|]; [|lia]. rewrite E in Em2.
    rewrite Z.div_0_l in Em2 by lia. discriminate. }
  assert (Hd1 : Zdigits2 m1 + e1 <= B + 2).
  { assert (Hlt : m1 < 2 ^ (B + 2 - e1)).
    { apply Z.mul_lt_mono_pos_r with (2 ^ (e1 + 1074)); [lia|].
      rewrite <- Z.pow_add_r by lia.
      apply Z.le_lt_trans with (2 ^ (B + 1 + 1074)); [lia|]. apply pow2_lt. lia. }
    apply Zdigits2_le_iff in Hlt; lia. }
  assert (He2 : e1 + k1 <= 971) by (unfold k1; lia).
  rewrite (proj2 (Z.leb_le _ _) He2).
  exists m2, (e1 + k1). split; [reflexivity|].
  assert (Hle : Wval m2 (e1 + k1) <= m1 * 2 ^ (e1 + 1074)).
  { unfold Wval. rewrite <- Em2.
    replace (e1 + k1 + 1074) with (k1 + (e1 + 1074)) by lia.
    rewrite Z.pow_add_r, Z.mul_assoc by lia.
    apply Z.mul_le_mono_nonneg_r; [lia|].
    pose proof (Z.mul_div_le m1 (2 ^ k1) Hpk1). lia. }
  lia.
Qed.

(** *** Binary64 numbers by their scaled values *)

Lemma SF_of_repr (s : bool) (W : Z) :
  repr W -> 0 < W < 2 ^ 2098 ->
  exists m e, SF_of s W = S754_finite s m e /\ Wval m e = W /\
              valid_binary (S754_finite s m e) = true.
Proof.
  intros Hr [H0 Hlt]. unfold repr in Hr.
  set (e0 := Z.max (Zdigits2 W - 53) 0) in *.
  assert (He0 : 0 <= e0) by (unfold e0; blia).
  pose proof (pow2_pos e0 He0) as Hp.
  pose proof (Z.div_mod W (2 ^ e0) ltac:(lia)) as HW. rewrite Hr, Z.add_0_r in HW.
  assert (Hq : 0 < W / 2 ^ e0) by bnia.
  exists (Z.to_pos (W / 2 ^ e0)), (e0 - 1074).
  assert (HWv : Wval (Z.to_pos (W / 2 ^ e0)) (e0 - 1074) = W).
  { unfold Wval. rewrite Z2Pos.id by blia. replace (e0 - 1074 + 1074) with e0 by blia. blia. }
  split; [|split; [exact HWv|]].
  - unfold SF_of. rewrite (proj2 (Z.leb_gt _ _) H0), (proj2 (Z.leb_gt _ _) Hlt). reflexivity.
  - cbn [SpecFloat.valid_binary]. unfold bounded, canonical_mantissa.
    change (Z.pos (digits2_pos (Z.to_pos (W / 2 ^ e0)))) with (Zdigits2 (Z.pos (Z.to_pos (W / 2 ^ e0)))).
    rewrite Z2Pos.id by blia. rewrite fexp_eq. change (emax - prec) with 971.
    assert (Hd : Zdigits2 W = Zdigits2 (W / 2 ^ e0) + e0).
    { rewrite HW at 1. rewrite Z.mul_comm. apply Zdigits2_mul_pow2; blia. }
    assert (Hd2 : Zdigits2 W <= 2098) by (apply Zdigits2_le_iff; blia).
    apply andb_true_iff. split; [apply Z.eqb_eq | apply Z.leb_le]; unfold e0 in *; blia.
Qed.

Lemma SF_of_valid (s : bool) (W : Z) : repr W -> valid_binary (SF_of s W) = true.
Proof.
  intros Hr. destruct (Z_lt_le_dec 0 W) as [H0|H0].
  2:{ unfold SF_of. rewrite (proj2 (Z.leb_le _ _) H0). reflexivity. }
  destruct (Z_lt_le_dec W (2 ^ 2098)) as [Hf|Hi].
  - destruct (SF_of_repr s W Hr (conj H0 Hf)) as (m & e & -> & _ & Hv). exact Hv.
  - unfold SF_of. rewrite (proj2 (Z.leb_gt _ _) H0), (proj2 (Z.leb_le _ _) Hi). reflexivity.
Qed.

Lemma binary_normalize_val (z : Z) :
  0 <= z -> binary_normalize prec emax z 0 false = SF_of false (rnd 1074 (z * 2 ^ 1074)).
Proof.
  intros Hz. destruct z as [|p|p]; [| |blia].
  - reflexivity.
  - cbn [binary_normalize]. now rewrite (binary_round_val false p 0 1074) by blia.
Qed.

Lemma pow2_split (a b : Z) : 0 <= a -> 0 <= b -> 2 ^ (a + b) = 2 ^ a * 2 ^ b.
Proof. intros. now apply Z.pow_add_r. Qed.

(** A bound by a binary64 number survives rounding. *)
Lemma rnd_le_repr (a V W : Z) :
  1074 <= a -> 0 <= V -> 0 <= W -> repr W -> V <= W * 2 ^ (a - 1074) -> rnd a V <= W.
Proof.
  intros Ha HV HW Hr HVW. rewrite <- (rnd_exact a W) by assumption.
  apply rnd_mono; [assumption | split; assumption].
Qed.

Lemma float_of_int_nn (z : Z) :
  0 <= z < 2 ^ 63 ->
  exists c, float_of_int z = Ok c /\ nnfloat c (rnd 1074 (z * 2 ^ 1074)) /\
            rnd 1074 (z * 2 ^ 1074) <= 2 ^ 63 * 2 ^ 1074.
Proof.
  intros [Hz Hlt]. unfold float_of_int. rewrite binary_normalize_val by assumption.
  assert (Hp : 0 < 2 ^ 1074) by (apply pow2_pos; discriminate).
  assert (HV : 0 <= z * 2 ^ 1074) by (apply Z.mul_nonneg_nonneg; [assumption | now apply Z.lt_le_incl]).
  set (W := rnd 1074 (z * 2 ^ 1074)).
  assert (HW0 : 0 <= W) by (apply rnd_nonneg; [discriminate | exact HV]).
  assert (HWr : repr W) by (apply rnd_repr; [discriminate | exact HV]).
  assert (HWb : W <= 2 ^ 63 * 2 ^ 1074).
  { apply rnd_le_repr; [discriminate | exact HV | | |].
    - apply Z.mul_nonneg_nonneg; [discriminate | now apply Z.lt_le_incl].
    - rewrite <- pow2_split by discriminate. apply repr_pow2. discriminate.
    - change (2 ^ (1074 - 1074)) with 1. rewrite Z.mul_1_r.
      apply Z.mul_le_mono_nonneg_r; [now apply Z.lt_le_incl | now apply Z.lt_le_incl]. }
  assert (HWlt : W < 2 ^ 2098).
  { apply Z.le_lt_trans with (2 ^ 63 * 2 ^ 1074); [exact HWb|].
    rewrite <- pow2_split by discriminate. apply pow2_lt. split; [discriminate|reflexivity]. }
  exists (SF2Prim (SF_of false W)).
  assert (Hok : match SF_of false W with
                | S754_infinity _ => Raise OverflowError
                | sf => Ok (SF2Prim sf)
                end = Ok (SF2Prim (SF_of false W))).
  { unfold SF_of. destruct (W <=? 0); [reflexivity|].
    rewrite (proj2 (Z.leb_gt _ _) HWlt). reflexivity. }
  split; [exact Hok|]. split; [|exact HWb]. split; [|split; [exact HWr|split; assumption]].
  apply Prim2SF_SF2Prim. now apply SF_of_valid.
Qed.

Lemma nnfloat_cases (x : float) (W : Z) :
  nnfloat x W ->
  (W = 0 /\ Prim2SF x = S754_zero false) \/
  (0 < W /\ exists m e, Prim2SF x = S754_finite false m e /\ Wval m e = W /\
                        valid_binary (S754_finite false m e) = true).
Proof.
  intros (Hx & Hr & H0 & Hlt). destruct (Z.eq_dec W 0) as [->|Hn0].
  - left. split; [reflexivity | exact Hx].
  - right. assert (Hpos : 0 < W) by (clear Hlt; lia). split; [exact Hpos|].
    destruct (SF_of_repr false W Hr (conj Hpos Hlt)) as (m & e & Hm & Hv & Hval).
    exists m, e. rewrite Hx. auto.
Qed.

Lemma mul_nn (x y : float) (Wx Wy : Z) :
  nnfloat x Wx -> nnfloat y Wy -> rnd 2148 (Wx * Wy) < 2 ^ 2098 ->
  nnfloat (x * y) (rnd 2148 (Wx * Wy)).
Proof.
  intros Hx Hy Hb.
  assert (H0 : 0 <= Wx * Wy) by (destruct Hx as (_ & _ & ? & _), Hy as (_ & _ & ? & _); bnia).
  split; [|split; [apply rnd_repr; blia | split; [apply rnd_nonneg; blia | exact Hb]]].
  rewrite mul_spec. unfold SF64mul.
  destruct (nnfloat_cases x Wx Hx) as [[-> Ex]|[Hpx (mx & ex & Ex & Hvx & Hvalx)]];
  destruct (nnfloat_cases y Wy Hy) as [[-> Ey]|[Hpy (my & ey & Ey & Hvy & Hvaly)]];
  rewrite Ex, Ey.
  - reflexivity.
  - rewrite Z.mul_0_l, rnd_0 by blia. reflexivity.
  - rewrite Z.mul_0_r, rnd_0 by blia. reflexivity.
  - rewrite SFmul_val by assumption. now rewrite Hvx, Hvy.
Qed.

Lemma int_of_float_nn (x : float) (W : Z) :
  nnfloat x W -> int_of_float x = Ok (W / 2 ^ 1074).
Proof.
  intros Hx. unfold int_of_float.
  destruct (nnfloat_cases x W Hx) as [[-> Ex]|[Hp (m & e & Ex & Hv & Hval)]]; rewrite Ex.
  - reflexivity.
  - destruct (valid_SF_of _ _ _ Hval) as (_ & He & _ & _).
    cbn [cond_Zopp]. f_equal. rewrite <- Hv. unfold Wval.
    destruct (Z.leb_spec 0 e) as [Hn|Hn].
    + rewrite Z.pow_add_r by blia. rewrite Z.mul_assoc, Z.div_mul by (apply Z.pow_nonzero; blia).
      reflexivity.
    + replace (2 ^ 1074) with (2 ^ (- e) * 2 ^ (e + 1074)).
      2:{ rewrite <- Z.pow_add_r by blia. f_equal. blia. }
      rewrite Z.div_mul_cancel_r; try (apply Z.pow_nonzero; blia). reflexivity.
Qed.

Lemma valid_nnfloat (x : float) (m : positive) (e : Z) :
  Prim2SF x = S754_finite false m e -> nnfloat x (Wval m e).
Proof.
  intros Hx. pose proof (Prim2SF_valid x) as Hv. rewrite Hx in Hv.
  destruct (valid_SF_of _ _ _ Hv) as (Heq & He & Hd & Hc).
  assert (Hm : Z.pos m < 2 ^ 53) by (apply Zdigits2_le_iff; blia).
  split; [now rewrite Hx|]. split; [apply repr_mul_pow2; blia|].
  unfold Wval. pose proof (pow2_pos (e + 1074) ltac:(lia)) as Hp. split; [bnia|].
  apply Z.lt_le_trans with (2 ^ 53 * 2 ^ (e + 1074)); [bnia|].
  rewrite <- Z.pow_add_r by blia. apply pow2_le. blia.
Qed.

Lemma zero_nnfloat (x : float) : Prim2SF x = S754_zero false -> nnfloat x 0.
Proof. intros Hx. split; [exact Hx|]. split; [reflexivity|]. split; [blia|reflexivity]. Qed.

Lemma Prim2SF_100 : Prim2SF f100_0 = S754_finite false 7036874417766400 (-46).
Proof. reflexivity. Qed.

Lemma Prim2SF_zero : Prim2SF zero = S754_zero false.
Proof. reflexivity. Qed.

(** [100.0 / y] for a finite [y >= 1]: the quotient [Wq], truncated to the
    exponent of the result, is within one unit in the last place. *)
Lemma div100_nn (y : float) (Wy : Z) :
  nnfloat y Wy -> 2 ^ 1074 <= Wy ->
  float_truediv f100_0 y = Ok (f100_0 / y)%float /\
  exists Wt Wq,
    nnfloat (f100_0 / y) Wt /\ 0 <= Wq /\
    Wt * 2 ^ 52 <= Wq * (2 ^ 52 + 1) /\
    Wq * Wy <= 100 * 2 ^ 2148 /\
    100 * 2 ^ 2148 * 2 ^ 52 < Wq * (2 ^ 52 + 1) * Wy.
Proof.
  intros Hy HWy.
  assert (Hp1074 : 0 < 2 ^ 1074) by (apply pow2_pos; blia).
  destruct (nnfloat_cases y Wy Hy) as [[-> _]|[Hpos (my & ey & Ey & HWv & Hval)]]; [blia|].
  split.
  { unfold float_truediv, is_zero. rewrite eqb_spec, Ey, Prim2SF_zero. reflexivity. }
  destruct (valid_SF_of _ _ _ Hval) as (_ & Hey & Hdy & Hcy).
  set (dy := Zdigits2 (Z.pos my)) in *.
  assert (Hdy0 : 0 < dy) by (apply Zdigits2_pos; blia).
  pose proof (Zdigits2_bounds (Z.pos my) ltac:(lia)) as [Hmylo Hmyhi]. fold dy in Hmylo, Hmyhi.
  assert (HL : 1 <= dy + ey).
  { assert (H : Zdigits2 (2 ^ 1074) <= Zdigits2 Wy) by (apply Zdigits2_mono; blia).
    change (Zdigits2 (2 ^ 1074)) with 1075 in H.
    rewrite <- HWv in H. unfold Wval in H. rewrite Zdigits2_mul_pow2 in H by blia. fold dy in H. blia. }
  pose proof (div_spec f100_0 y) as Hdiv. unfold SF64div in Hdiv.
  rewrite Prim2SF_100, Ey, SFdiv_unfold in Hdiv. cbv zeta in Hdiv.
  change (Zdigits2 (Z.pos 7036874417766400)) with 53 in Hdiv. fold dy in Hdiv.
  assert (He' : div_exp 53 (-46) dy ey = -46 - (dy + ey)).
  { unfold div_exp. rewrite fexp_eq. blia. }
  rewrite He' in Hdiv.
  replace (-46 - ey - (-46 - (dy + ey))) with dy in Hdiv by blia.
  set (mx := 7036874417766400) in *.
  set (U := mx * 2 ^ dy) in *.
  set (q := U / Z.pos my) in *.
  set (e' := -46 - (dy + ey)) in *.
  pose proof (pow2_pos dy ltac:(lia)) as Hpdy.
  pose proof (pow2_pos (dy - 1) ltac:(lia)) as Hpdy1.
  assert (H2dy : 2 ^ dy = 2 * 2 ^ (dy - 1)).
  { replace dy with (1 + (dy - 1)) at 1 by blia. rewrite Z.pow_add_r by blia. reflexivity. }
  assert (HU0 : 0 <= U) by (unfold U, mx; blia).
  assert (Hq : 2 ^ 52 <= q < 2 ^ 54).
  { unfold q. split.
    - apply Z.div_le_lower_bound; [blia|]. unfold U, mx. bnia.
    - apply Z.div_lt_upper_bound; [blia|]. unfold U, mx. bnia. }
  pose proof (Z.mul_div_le U (Z.pos my) ltac:(lia)) as Hqlo. fold q in Hqlo.
  pose proof (Z.mul_succ_div_gt U (Z.pos my) ltac:(lia)) as Hqhi. fold q in Hqhi.
  assert (Hdq : 53 <= Zdigits2 q <= 54).
  { split.
    - destruct (Z_lt_le_dec (Zdigits2 q) 53) as [Hlt|]; [|blia]. exfalso.
      assert (q < 2 ^ 52) by (apply Zdigits2_le_iff; blia). blia.
    - apply Zdigits2_le_iff; blia. }
  pose proof (Zdigits2_bounds q ltac:(lia)) as [Hqd _].
  cbn [xorb] in Hdiv.
  set (Pe := 2 ^ (e' + 1074)). set (Pey := 2 ^ (ey + 1074)).
  assert (HPe : 0 < Pe) by (apply pow2_pos; unfold e'; blia).
  assert (HPey : 0 < Pey) by (apply pow2_pos; blia).
  assert (HT : 2 ^ dy * Pe * Pey = 2 ^ 2102).
  { unfold Pe, Pey. rewrite <- !Z.pow_add_r by (unfold e'; blia). f_equal. unfold e'. blia. }
  assert (HC : mx * 2 ^ 2102 = 100 * 2 ^ 2148) by reflexivity.
  assert (HUT : U * Pe * Pey = 100 * 2 ^ 2148).
  { unfold U. rewrite <- HC, <- HT. ring. }
  assert (HWy' : Wy = Z.pos my * Pey) by (rewrite <- HWv; reflexivity).
  set (Wq := q * Pe).
  assert (Hb : Wq * Wy <= 100 * 2 ^ 2148).
  { rewrite <- HUT, HWy'. unfold Wq.
    replace (q * Pe * (Z.pos my * Pey)) with (Z.pos my * q * (Pe * Pey)) by ring.
    replace (U * Pe * Pey) with (U * (Pe * Pey)) by ring.
    apply Z.mul_le_mono_nonneg_r; [bnia|blia]. }
  assert (Hulp : Pe * 2 ^ 52 <= Wq) by (unfold Wq; bnia).
  assert (Hc : 100 * 2 ^ 2148 * 2 ^ 52 < Wq * (2 ^ 52 + 1) * Wy).
  { rewrite <- HUT, HWy'.
    assert (H1 : U * (Pe * Pey) < Z.pos my * Z.succ q * (Pe * Pey)).
    { apply Z.mul_lt_mono_pos_r; [bnia|blia]. }
    assert (H2 : Z.pos my * Z.succ q * (Pe * Pey) * 2 ^ 52 <=
                 Wq * (2 ^ 52 + 1) * (Z.pos my * Pey)).
    { replace (Z.pos my * Z.succ q * (Pe * Pey) * 2 ^ 52)
        with ((Wq * 2 ^ 52 + Pe * 2 ^ 52) * (Z.pos my * Pey)) by (unfold Wq; ring).
      apply Z.mul_le_mono_nonneg_r; [bnia|]. blia. }
    replace (U * Pe * Pey * 2 ^ 52) with (U * (Pe * Pey) * 2 ^ 52) by ring.
    assert (H3 : U * (Pe * Pey) * 2 ^ 52 < Z.pos my * Z.succ q * (Pe * Pey) * 2 ^ 52).
    { apply Z.mul_lt_mono_pos_r; [reflexivity|exact H1]. }
    blia. }
  assert (HWq0 : 0 <= Wq) by (unfold Wq; bnia).
  destruct (bra_spec_bound false U (Z.pos my) q e' 7 HU0 ltac:(lia) eq_refl
              ltac:(unfold e'; lia) ltac:(unfold e'; lia) ltac:(lia))
    as [Hz|(m & e & Hf & Hbd & _)].
  - rewrite Hz in Hdiv. exists 0, Wq.
    split; [now apply zero_nnfloat|]. repeat split; try assumption. blia.
  - rewrite Hf in Hdiv. exists (Wval m e), Wq.
    split; [now apply valid_nnfloat|]. repeat split; try assumption.
    rewrite fexp_eq in Hbd.
    replace (Z.max e' (Z.max (Zdigits2 q + e' - 53) (-1074)) + 1074)
      with ((Zdigits2 q - 53) + (e' + 1074)) in Hbd by (unfold e'; blia).
    rewrite (Z.pow_add_r 2 (Zdigits2 q - 53)) in Hbd by (unfold e'; blia).
    fold Pe in Hbd. fold Wq in Hbd.
    assert (Hd52 : 2 ^ (Zdigits2 q - 53) * 2 ^ 52 <= q).
    { rewrite <- Z.pow_add_r by blia. replace (Zdigits2 q - 53 + 52) with (Zdigits2 q - 1) by blia.
      exact Hqd. }
    assert (Hm : 2 ^ (Zdigits2 q - 53) * Pe * 2 ^ 52 <= Wq) by (unfold Wq; bnia).
    blia.
Qed.

(** *** The percentages of [featureExtent] *)

Lemma total_of_nn (n : nat) :
  1 <= Z.of_nat n < 2 ^ 63 ->
  exists total Wt Wq,
    total_of n = Ok total /\ nnfloat total Wt /\ Wt <= 256 * 2 ^ 1074 /\ 0 <= Wq /\
    Wt * 2 ^ 52 <= Wq * (2 ^ 52 + 1) /\
    Wq * rnd 1074 (Z.of_nat n * 2 ^ 1074) <= 100 * 2 ^ 2148 /\
    100 * 2 ^ 2148 * 2 ^ 52 < Wq * (2 ^ 52 + 1) * rnd 1074 (Z.of_nat n * 2 ^ 1074).
Proof.
  intros [H1 Hn]. unfold total_of.
  destruct (float_of_int_nn (Z.of_nat n)) as (nf & -> & Hnf & _).
  { split; [lia | exact Hn]. }
  set (Wn := rnd 1074 (Z.of_nat n * 2 ^ 1074)) in *.
  assert (Hp : 0 < 2 ^ 1074) by (apply pow2_pos; discriminate).
  assert (HWn : 2 ^ 1074 <= Wn).
  { assert (E : rnd 1074 (2 ^ 1074 * 2 ^ (1074 - 1074)) = 2 ^ 1074).
    { apply rnd_exact; [discriminate | now apply Z.lt_le_incl | apply repr_pow2; discriminate]. }
    rewrite <- E. apply rnd_mono; [discriminate|]. change (2 ^ (1074 - 1074)) with 1.
    clear E. bnia. }
  destruct (div100_nn nf Wn Hnf HWn) as (-> & Wt & Wq & Ht & Hq0 & Ha & Hb & Hc).
  exists (f100_0 / nf)%float, Wt, Wq.
  split; [reflexivity|]. split; [exact Ht|]. split; [|auto].
  (* the crude bound *)
  change (2 ^ 2148) with (2 ^ 1074 * 2 ^ 1074) in Hb.
  change (2 ^ 52) with 4503599627370496 in Ha.
  clear Hc Hnf Ht.
  assert (HWq : Wq <= 100 * 2 ^ 1074) by bnia.
  blia.
Qed.

Lemma percentage_val (total : float) (Wt i : Z) :
  nnfloat total Wt -> Wt <= 256 * 2 ^ 1074 -> 0 <= i < 2 ^ 63 ->
  percentage total i = Ok (pct_val Wt i).
Proof.
  intros Ht HWt Hi. unfold percentage.
  destruct (float_of_int_nn i Hi) as (c & -> & Hc & HWc).
  set (Wc := rnd 1074 (i * 2 ^ 1074)) in *.
  assert (Hp : 0 < 2 ^ 1074) by (apply pow2_pos; discriminate).
  assert (HWc0 : 0 <= Wc) by (destruct Hc as (_ & _ & ? & _); assumption).
  assert (HWt0 : 0 <= Wt) by (destruct Ht as (_ & _ & ? & _); assumption).
  assert (Hb : rnd 2148 (Wc * Wt) < 2 ^ 2098).
  { apply Z.le_lt_trans with (2 ^ 1145); [|apply pow2_lt; split; [discriminate|reflexivity]].
    apply rnd_le_repr; [discriminate | | | apply repr_pow2; discriminate |].
    - now apply Z.mul_nonneg_nonneg.
    - apply Z.lt_le_incl, pow2_pos. discriminate.
    - change (2 ^ 1145 * 2 ^ (2148 - 1074)) with ((2 ^ 63 * 2 ^ 1074) * (256 * 2 ^ 1074)).
      apply Z.mul_le_mono_nonneg; assumption. }
  rewrite (int_of_float_nn _ _ (mul_nn c total Wc Wt Hc Ht Hb)). reflexivity.
Qed.

Lemma pct_val_0 (Wt : Z) : pct_val Wt 0 = 0.
Proof.
  reflexivity.
Qed.

Lemma pct_val_mono (Wt i j : Z) :
  0 <= Wt -> 0 <= i <= j -> pct_val Wt i <= pct_val Wt j.
Proof.
  intros HWt [Hi Hij]. unfold pct_val.
  assert (Hp : 0 < 2 ^ 1074) by (apply pow2_pos; discriminate).
  assert (Hi' : 0 <= i * 2 ^ 1074) by bnia.
  assert (Hij' : i * 2 ^ 1074 <= j * 2 ^ 1074) by bnia.
  apply Z.div_le_mono; [exact Hp|].
  assert (H0 : 0 <= rnd 1074 (i * 2 ^ 1074)) by (apply rnd_nonneg; [discriminate|exact Hi']).
  assert (H1 : rnd 1074 (i * 2 ^ 1074) <= rnd 1074 (j * 2 ^ 1074)).
  { apply rnd_mono; [discriminate | split; assumption]. }
  apply rnd_mono; [discriminate|]. split.
  - now apply Z.mul_nonneg_nonneg.
  - now apply Z.mul_le_mono_nonneg_r.
Qed.

Lemma rnd_1074_small (z : Z) : 0 <= z <= 2 ^ 53 -> rnd 1074 (z * 2 ^ 1074) = z * 2 ^ 1074.
Proof.
  intros Hz. assert (Hp : 0 < 2 ^ 1074) by (apply pow2_pos; discriminate).
  rewrite <- (Z.mul_1_r (z * 2 ^ 1074)) at 1.
  change 1 with (2 ^ (1074 - 1074)) at 1.
  apply rnd_exact; [discriminate | bnia | apply repr_mul_pow2; [exact Hz | discriminate]].
Qed.

(** With fewer than [2^50] features the percentage stays below 100. *)
Lemma pct_val_lt_100 (Wt Wq n i : Z) :
  0 <= i < n -> n <= 2 ^ 50 -> 0 <= Wt -> 0 <= Wq ->
  Wt * 2 ^ 52 <= Wq * (2 ^ 52 + 1) ->
  Wq * rnd 1074 (n * 2 ^ 1074) <= 100 * 2 ^ 2148 ->
  100 * 2 ^ 2148 * 2 ^ 52 < Wq * (2 ^ 52 + 1) * rnd 1074 (n * 2 ^ 1074) ->
  pct_val Wt i < 100.
Proof.
  intros [Hi0 Hin] Hn HWt HWq Ha Hb Hc.
  assert (Hn53 : n <= 2 ^ 53) by (apply Z.le_trans with (2 ^ 50); [blia|discriminate]).
  rewrite rnd_1074_small in Hb, Hc by blia.
  unfold pct_val. rewrite rnd_1074_small by blia.
  change (2 ^ 2148) with (2 ^ 1074 * 2 ^ 1074) in Hb, Hc.
  change (2 ^ 50) with 1125899906842624 in Hn.
  change (2 ^ 52) with 4503599627370496 in Ha, Hc.
  assert (HAB : 2 ^ 1074 = 70368744177664 * 2 ^ 1028) by reflexivity.
  assert (HB : 0 < 2 ^ 1028) by (apply pow2_pos; blia).
  set (A := 2 ^ 1074) in *. set (B := 2 ^ 1028) in *.
  assert (HA : 0 < A) by blia.
  (* the largest binary64 number below 100 *)
  set (P := 100 * A - B).
  assert (HP : rnd 2148 (P * 2 ^ (2148 - 1074)) = P).
  { apply rnd_exact; [blia | unfold P; blia |].
    replace P with ((100 * 70368744177664 - 1) * 2 ^ 1028) by (unfold P, B; blia).
    apply repr_mul_pow2; [|blia]. split; [blia|]. discriminate. }
  change (2 ^ (2148 - 1074)) with A in HP.
  assert (Hb' : Wq * n <= 100 * A) by bnia.
  assert (Hc' : 100 * A * 4503599627370496 < Wq * 4503599627370497 * n) by bnia.
  assert (Hq : 400 * A < Wq * 4503599627370497) by bnia.
  assert (HiW : i * Wt <= P).
  { assert (H1 : i * Wt * 4503599627370496 <= i * (Wq * 4503599627370497)) by bnia.
    assert (H2 : i * (Wq * 4503599627370497) <= (n - 1) * (Wq * 4503599627370497)) by bnia.
    assert (H3 : (n - 1) * (Wq * 4503599627370497) <= 100 * A * 4503599627370497 - 400 * A) by bnia.
    unfold P. blia. }
  assert (Hr : rnd 2148 (i * A * Wt) <= P).
  { rewrite <- HP. apply rnd_mono; [blia|]. split; [bnia|]. bnia. }
  apply Z.div_lt_upper_bound; [blia|]. unfold P in Hr. blia.
Qed.

(** *** Nonnegative results: [2*x + 2*y = 2*(x + y)] *)

Lemma SF_of_inf (s : bool) (W : Z) : 2 ^ 2098 <= W -> SF_of s W = S754_infinity s.
Proof.
  intros H. assert (H0 : 0 < W) by (pose proof (pow2_pos 2098 ltac:(lia)); blia).
  unfold SF_of. now rewrite (proj2 (Z.leb_gt _ _) H0), (proj2 (Z.leb_le _ _) H).
Qed.

Lemma rnd_pos (a V : Z) : 1074 <= a -> 2 ^ (a - 1074) <= V -> 0 < rnd a V.
Proof.
  intros Ha HV. assert (Hp : 0 < 2 ^ (a - 1074)) by (apply pow2_pos; blia).
  assert (E : rnd a (1 * 2 ^ (a - 1074)) = 1).
  { apply rnd_exact; [blia|blia|reflexivity]. }
  assert (rnd a (1 * 2 ^ (a - 1074)) <= rnd a V) by (apply rnd_mono; blia). blia.
Qed.

Lemma rnd_big (a V : Z) :
  1074 <= a -> 2 ^ 2098 * 2 ^ (a - 1074) <= V -> 2 ^ 2098 <= rnd a V.
Proof.
  intros Ha HV. assert (Hp : 0 < 2 ^ (a - 1074)) by (apply pow2_pos; blia).
  assert (Hq : 0 < 2 ^ 2098) by (apply pow2_pos; blia).
  assert (E : rnd a (2 ^ 2098 * 2 ^ (a - 1074)) = 2 ^ 2098).
  { apply rnd_exact; [blia|blia|apply repr_pow2; blia]. }
  rewrite <- E. apply rnd_mono; [blia|]. split; [bnia|blia].
Qed.

Lemma repr_double (W : Z) : repr W -> 0 < W -> repr (2 * W).
Proof.
  intros Hr HW. unfold repr in Hr.
  set (e := Z.max (Zdigits2 W - 53) 0) in *.
  assert (He : 0 <= e) by (unfold e; blia).
  pose proof (pow2_pos e He) as Hp.
  pose proof (Z.div_mod W (2 ^ e) ltac:(lia)) as HWe. rewrite Hr, Z.add_0_r in HWe.
  assert (Hq : 0 < W / 2 ^ e) by bnia.
  assert (Hd : Zdigits2 W = Zdigits2 (W / 2 ^ e) + e).
  { rewrite HWe at 1. rewrite Z.mul_comm. apply Zdigits2_mul_pow2; blia. }
  assert (Hq53 : W / 2 ^ e < 2 ^ 53) by (apply Zdigits2_le_iff; unfold e in *; blia).
  replace (2 * W) with (W / 2 ^ e * 2 ^ (e + 1)).
  - apply repr_mul_pow2; blia.
  - rewrite Z.pow_add_r by blia. change (2 ^ 1) with 2. blia.
Qed.

Lemma SFadd_pos (W1 W2 : Z) :
  repr W1 -> 0 < W1 -> repr W2 -> 0 < W2 ->
  SFadd prec emax (SF_of false W1) (SF_of false W2) = SF_of false (rnd 1074 (W1 + W2)).
Proof.
  intros Hr1 H1 Hr2 H2.
  assert (HR : forall W, 2 ^ 2098 <= W -> W <= W1 + W2 ->
               SF_of false (rnd 1074 (W1 + W2)) = S754_infinity false).
  { intros W HW Hle. apply SF_of_inf, rnd_big; [blia|].
    change (2 ^ (1074 - 1074)) with 1. blia. }
  destruct (Z_le_gt_dec (2 ^ 2098) W1) as [Hi1|Hf1%Z.gt_lt];
  destruct (Z_le_gt_dec (2 ^ 2098) W2) as [Hi2|Hf2%Z.gt_lt].
  - rewrite (SF_of_inf false W1), (SF_of_inf false W2), (HR W1) by blia. reflexivity.
  - rewrite (SF_of_inf false W1), (HR W1) by blia.
    destruct (SF_of_repr false W2 Hr2 (conj H2 Hf2)) as (m & e & -> & _). reflexivity.
  - rewrite (SF_of_inf false W2), (HR W2) by blia.
    destruct (SF_of_repr false W1 Hr1 (conj H1 Hf1)) as (m & e & -> & _). reflexivity.
  - destruct (SF_of_repr false W1 Hr1 (conj H1 Hf1)) as (m1 & e1 & -> & Hv1 & Hval1).
    destruct (SF_of_repr false W2 Hr2 (conj H2 Hf2)) as (m2 & e2 & -> & Hv2 & Hval2).
    destruct (valid_SF_of _ _ _ Hval1) as (_ & He1 & _).
    destruct (valid_SF_of _ _ _ Hval2) as (_ & He2 & _).
    cbn [SFadd cond_Zopp].
    pose proof (shl_align_val m1 e1 (Z.min e1 e2)) as A1.
    pose proof (shl_align_val m2 e2 (Z.min e1 e2)) as A2.
    destruct (shl_align m1 e1 (Z.min e1 e2)) as [n1 z1].
    destruct (shl_align m2 e2 (Z.min e1 e2)) as [n2 z2].
    destruct A1 as [A1 _], A2 as [A2 _]. cbn [fst].
    change (Z.pos n1 + Z.pos n2) with (Z.pos (n1 + n2)). cbn [binary_normalize].
    rewrite (binary_round_val false (n1 + n2) (Z.min e1 e2) 1074) by blia.
    f_equal. f_equal. rewrite Pos2Z.inj_add, A1, A2, <- Hv1, <- Hv2. unfold Wval.
    rewrite Z.mul_add_distr_r, <- !Z.mul_assoc, <- !Z.pow_add_r by blia.
    f_equal; f_equal; f_equal; blia.
Qed.

Lemma SFmul_two_pos (W : Z) :
  repr W -> 0 < W -> SFmul prec emax SF_two (SF_of false W) = SF_of false (2 * W).
Proof.
  intros Hr HW. destruct (Z_le_gt_dec (2 ^ 2098) W) as [Hi|Hf%Z.gt_lt].
  - rewrite !SF_of_inf by blia. reflexivity.
  - destruct (SF_of_repr false W Hr (conj HW Hf)) as (m & e & -> & Hv & Hval).
    unfold SF_two. rewrite SFmul_val by (try assumption; reflexivity).
    cbn [xorb]. f_equal. rewrite Hv.
    change (Wval 4503599627370496 (-51)) with (2 * 2 ^ 1074).
    replace (2 * 2 ^ 1074 * W) with (2 * W * 2 ^ (2148 - 1074)) by (change (2148 - 1074) with 1074; ring).
    apply rnd_exact; [blia | blia | now apply repr_double].
Qed.

Lemma nnclass_double (X : spec_float) : nnclass X -> nnclass (SFmul prec emax SF_two X).
Proof.
  intros [|s|W Hr HW].
  - constructor.
  - destruct s; constructor.
  - rewrite SFmul_two_pos by assumption. constructor; [now apply repr_double | blia].
Qed.

Lemma SF_of_pos_cases (W : Z) :
  repr W -> 0 < W ->
  SF_of false W = S754_infinity false \/ exists m e, SF_of false W = S754_finite false m e.
Proof.
  intros Hr HW. destruct (Z_le_gt_dec (2 ^ 2098) W) as [Hi|Hf%Z.gt_lt].
  - left. now apply SF_of_inf.
  - right. destruct (SF_of_repr false W Hr (conj HW Hf)) as (m & e & -> & _). eauto.
Qed.

Lemma SFadd_zero_l_pos (s : bool) (W : Z) :
  repr W -> 0 < W -> SFadd prec emax (S754_zero s) (SF_of false W) = SF_of false W.
Proof.
  intros Hr HW. destruct (SF_of_pos_cases W Hr HW) as [->|(m & e & ->)]; reflexivity.
Qed.

Lemma SFadd_zero_r_pos (s : bool) (W : Z) :
  repr W -> 0 < W -> SFadd prec emax (SF_of false W) (S754_zero s) = SF_of false W.
Proof.
  intros Hr HW. destruct (SF_of_pos_cases W Hr HW) as [->|(m & e & ->)]; reflexivity.
Qed.

Lemma SFadd_nan_r (X : spec_float) : SFadd prec emax X S754_nan = S754_nan.
Proof. destruct X; reflexivity. Qed.

Lemma SF_double_distr (X Y : spec_float) :
  nnclass X -> nnclass Y ->
  SFadd prec emax (SFmul prec emax SF_two X) (SFmul prec emax SF_two Y) =
  SFmul prec emax SF_two (SFadd prec emax X Y).
Proof.
  intros [|sx|Wx Hrx HWx] [|sy|Wy Hry HWy].
  - reflexivity.
  - reflexivity.
  - reflexivity.
  - cbn [SFmul SF_two]. now rewrite SFadd_nan_r.
  - destruct sx, sy; reflexivity.
  - rewrite SFadd_zero_l_pos by assumption.
    rewrite SFmul_two_pos by assumption.
    replace (SFmul prec emax SF_two (S754_zero sx)) with (S754_zero sx) by (destruct sx; reflexivity).
    apply SFadd_zero_l_pos; [now apply repr_double | blia].
  - rewrite !SFadd_nan_r. reflexivity.
  - rewrite SFadd_zero_r_pos by assumption.
    rewrite SFmul_two_pos by assumption.
    replace (SFmul prec emax SF_two (S754_zero sy)) with (S754_zero sy) by (destruct sy; reflexivity).
    apply SFadd_zero_r_pos; [now apply repr_double | blia].
  - rewrite !SFmul_two_pos by assumption.
    rewrite !SFadd_pos by (try apply repr_double; try assumption; blia).
    rewrite SFmul_two_pos; [| apply rnd_repr; blia | apply rnd_pos; [blia|]; change (2 ^ (1074 - 1074)) with 1; blia].
    f_equal. rewrite <- rnd_double by blia. f_equal. blia.
Qed.

(** *** Differences of ordered numbers *)

Lemma Wval_pos (m : positive) (e : Z) : -1074 <= e -> 0 < Wval m e.
Proof. intros He. unfold Wval. pose proof (pow2_pos (e + 1074) ltac:(lia)). bnia. Qed.

Lemma Wval_lt_exp (m1 m2 : positive) (e1 e2 : Z) :
  valid_binary (S754_finite false m1 e1) = true ->
  valid_binary (S754_finite false m2 e2) = true ->
  e1 < e2 -> Wval m1 e1 < Wval m2 e2.
Proof.
  intros H1 H2 Hlt.
  destruct (valid_SF_of _ _ _ H1) as (_ & He1 & Hd1 & Hc1).
  destruct (valid_SF_of _ _ _ H2) as (_ & He2 & Hd2 & Hc2).
  assert (Hd2' : Zdigits2 (Z.pos m2) = 53) by blia.
  pose proof (Zdigits2_bounds (Z.pos m2) ltac:(lia)) as [Hlo _]. rewrite Hd2' in Hlo.
  assert (Hm1 : Z.pos m1 < 2 ^ 53) by (apply Zdigits2_le_iff; blia).
  unfold Wval.
  pose proof (pow2_pos (e1 + 1074) ltac:(lia)).
  pose proof (pow2_pos (e2 + 1074) ltac:(lia)).
  apply Z.lt_le_trans with (2 ^ 53 * 2 ^ (e1 + 1074)); [bnia|].
  apply Z.le_trans with (2 ^ 52 * 2 ^ (e2 + 1074)); [|change (53 - 1) with 52 in Hlo; bnia].
  rewrite <- !Z.pow_add_r by blia. apply pow2_le. blia.
Qed.

Lemma valid_sign (s : bool) (m : positive) (e : Z) :
  valid_binary (S754_finite s m e) = valid_binary (S754_finite false m e).
Proof. reflexivity. Qed.

Lemma SFcompare_finite (s1 s2 : bool) (m1 m2 : positive) (e1 e2 : Z) :
  valid_binary (S754_finite s1 m1 e1) = true ->
  valid_binary (S754_finite s2 m2 e2) = true ->
  SFcompare (S754_finite s1 m1 e1) (S754_finite s2 m2 e2) =
  Some (sval s1 m1 e1 ?= sval s2 m2 e2).
Proof.
  intros H1 H2. rewrite valid_sign in H1, H2.
  destruct (valid_SF_of _ _ _ H1) as (_ & He1 & _).
  destruct (valid_SF_of _ _ _ H2) as (_ & He2 & _).
  pose proof (Wval_pos m1 e1 ltac:(lia)) as P1.
  pose proof (Wval_pos m2 e2 ltac:(lia)) as P2.
  assert (Heq : e1 = e2 -> (Wval m1 e1 ?= Wval m2 e2) = (m1 ?= m2)%positive).
  { intros ->. unfold Wval. pose proof (pow2_pos (e2 + 1074) ltac:(lia)).
    change (m1 ?= m2)%positive with (Z.pos m1 ?= Z.pos m2).
    destruct (Z.compare_spec (Z.pos m1) (Z.pos m2));
      [apply Z.compare_eq_iff | apply Z.compare_lt_iff | apply Z.compare_gt_iff]; bnia. }
  cbn [SFcompare]. unfold sval. f_equal.
  destruct s1, s2; cbn [cond_Zopp].
  - rewrite Z.compare_opp.
    destruct (Z.compare_spec e1 e2) as [E|E|E].
    + change (Pos.compare_cont Eq m1 m2) with (m1 ?= m2)%positive.
      rewrite (Z.compare_antisym (Wval m1 e1) (Wval m2 e2)), Heq by assumption. reflexivity.
    + symmetry. apply Z.compare_gt_iff. now apply Wval_lt_exp.
    + symmetry. apply Z.compare_lt_iff. now apply Wval_lt_exp.
  - symmetry. apply Z.compare_lt_iff. blia.
  - symmetry. apply Z.compare_gt_iff. blia.
  - destruct (Z.compare_spec e1 e2) as [E|E|E].
    + change (Pos.compare_cont Eq m1 m2) with (m1 ?= m2)%positive. now rewrite Heq.
    + symmetry. apply Z.compare_lt_iff. now apply Wval_lt_exp.
    + symmetry. apply Z.compare_gt_iff. now apply Wval_lt_exp.
Qed.

Lemma SFsub_finite_val (s1 s2 : bool) (m1 m2 : positive) (e1 e2 : Z) :
  -1074 <= e1 -> -1074 <= e2 ->
  sval s2 m2 e2 <= sval s1 m1 e1 ->
  nnclass (SFsub prec emax (S754_finite s1 m1 e1) (S754_finite s2 m2 e2)).
Proof.
  intros He1 He2 Hle. cbn [SFsub].
  pose proof (shl_align_val m1 e1 (Z.min e1 e2)) as A1.
  pose proof (shl_align_val m2 e2 (Z.min e1 e2)) as A2.
  destruct (shl_align m1 e1 (Z.min e1 e2)) as [n1 z1].
  destruct (shl_align m2 e2 (Z.min e1 e2)) as [n2 z2].
  destruct A1 as [A1 _], A2 as [A2 _]. cbn [fst].
  set (ez := Z.min e1 e2) in *.
  replace (Z.min e1 ez) with ez in A1 by (unfold ez; blia).
  replace (Z.min e2 ez) with ez in A2 by (unfold ez; blia).
  set (d := cond_Zopp s1 (Z.pos n1) - cond_Zopp s2 (Z.pos n2)).
  pose proof (pow2_pos (ez + 1074) ltac:(unfold ez; blia)) as Hp.
  assert (Hd : d * 2 ^ (ez + 1074) = sval s1 m1 e1 - sval s2 m2 e2).
  { assert (W1 : Z.pos n1 * 2 ^ (ez + 1074) = Wval m1 e1).
    { rewrite A1. unfold Wval. rewrite <- Z.mul_assoc, <- Z.pow_add_r by (unfold ez; blia).
      f_equal. f_equal. blia. }
    assert (W2 : Z.pos n2 * 2 ^ (ez + 1074) = Wval m2 e2).
    { rewrite A2. unfold Wval. rewrite <- Z.mul_assoc, <- Z.pow_add_r by (unfold ez; blia).
      f_equal. f_equal. blia. }
    unfold d, sval. destruct s1, s2; cbn [cond_Zopp]; blia. }
  assert (Hd0 : 0 <= d) by bnia.
  destruct d as [|p|p] eqn:Ed; [| |blia]; cbn [binary_normalize].
  - constructor.
  - rewrite (binary_round_val false p ez 1074) by (unfold ez; blia).
    constructor; [apply rnd_repr; blia | apply rnd_pos; [blia|]].
    change (2 ^ (1074 - 1074)) with 1. bnia.
Qed.

Lemma nnclass_finite (m : positive) (e : Z) :
  valid_binary (S754_finite false m e) = true -> nnclass (S754_finite false m e).
Proof.
  intros Hv. rewrite (proj1 (valid_SF_of _ _ _ Hv)).
  destruct (valid_SF_of _ _ _ Hv) as (_ & He & Hd & _).
  constructor; [|apply Wval_pos; blia].
  apply repr_mul_pow2; [|blia]. split; [blia|].
  apply Z.lt_le_incl, Zdigits2_le_iff; blia.
Qed.

Lemma nnclass_inf : nnclass (S754_infinity false).
Proof.
  rewrite <- (SF_of_inf false (2 ^ 2098)) by blia.
  constructor; [apply repr_pow2; blia | apply pow2_pos; blia].
Qed.

Lemma SFsub_nnclass (A B : spec_float) :
  valid_binary A = true -> valid_binary B = true ->
  SFleb A B = true -> nnclass (SFsub prec emax B A).
Proof.
  intros HA HB Hle. unfold SFleb in Hle.
  destruct A as [sa|sa| |sa ma ea], B as [sb|sb| |sb mb eb].
  16: { rewrite SFcompare_finite in Hle by assumption.
        rewrite valid_sign in HA, HB.
        destruct (valid_SF_of _ _ _ HA) as (_ & Hea & _).
        destruct (valid_SF_of _ _ _ HB) as (_ & Heb & _).
        apply SFsub_finite_val; try blia.
        destruct (Z.compare_spec (sval sa ma ea) (sval sb mb eb)); try discriminate; blia. }
  all: cbn [SFcompare] in Hle; try discriminate Hle.
  all: try (destruct sa; try discriminate Hle).
  all: try (destruct sb; try discriminate Hle).
  all: cbn [SFsub negb].
  all: first [ constructor | exact nnclass_inf | now apply nnclass_finite ].
Qed.

(** The lemma the perimeter needs: on differences of ordered numbers,
    [2*w + 2*h] and [2*(w + h)] are the same number. *)
Lemma float_double_distr (a b c d : float) :
  (a <=? b)%float = true -> (c <=? d)%float = true ->
  (2 * (b - a) + 2 * (d - c))%float = (2 * ((b - a) + (d - c)))%float.
Proof.
  intros Hab Hcd. rewrite leb_spec in Hab, Hcd.
  apply Prim2SF_inj.
  rewrite add_spec, !mul_spec, add_spec, !sub_spec.
  change (Prim2SF 2) with SF_two.
  apply SF_double_distr; apply SFsub_nnclass; auto using Prim2SF_valid.
Qed.

End Binary64.

(** ** The traces of the two methods *)

Lemma written_of_app (t1 t2 : list Event) :
  written_of (t1 ++ t2) = written_of t1 ++ written_of t2.
Proof.
  induction t1 as [|[f|p] t1 IH]; cbn [written_of app]; [reflexivity| |assumption].
  now rewrite IH.
Qed.

Lemma percentages_of_app (t1 t2 : list Event) :
  percentages_of (t1 ++ t2) = percentages_of t1 ++ percentages_of t2.
Proof.
  induction t1 as [|[f|p] t1 IH]; cbn [percentages_of app]; [reflexivity|assumption|].
  now rewrite IH.
Qed.

Lemma written_alternate (rs : list QgsFeature) :
  forall ps, length ps = length rs -> written_of (alternate rs ps) = rs.
Proof.
  induction rs as [|r rs IH]; intros [|p ps] H; cbn in *; try reflexivity; try discriminate.
  rewrite IH by lia. reflexivity.
Qed.

Lemma percentages_alternate (rs : list QgsFeature) :
  forall ps, length ps = length rs -> percentages_of (alternate rs ps) = ps.
Proof.
  induction rs as [|r rs IH]; intros [|p ps] H; cbn in *; try reflexivity; try discriminate.
  rewrite IH by lia. reflexivity.
Qed.

(** However the loop ends, it has written the records of a prefix of the
    rectangles, in order. *)
Lemma loop_trace_written (total : float) (rs : list QgsRectangle) :
  forall current, exists k,
    (k <= length rs)%nat /\
    written_of (loop_trace total current rs) = map extent_record (firstn k rs).
Proof.
  induction rs as [|r rs IH]; intros current.
  - exists 0%nat. split; [apply Nat.le_refl | reflexivity].
  - cbn [loop_trace written_of]. destruct (percentage total current) as [p|e].
    + destruct (IH (current + 1)) as (k & Hk & Hw). exists (S k).
      split; [cbn [length]; lia|]. cbn [written_of firstn map]. now rewrite Hw.
    + exists 1%nat. split; [cbn [length]; lia | reflexivity].
Qed.

(** With a finite nonnegative [total] and indices below [2^63] the loop
    runs to its end, and each record is followed by its percentage. *)
Lemma loop_full (total : float) (Wt : Z) (rs : list QgsRectangle) :
  nnfloat total Wt -> Wt <= 256 * 2 ^ 1074 ->
  forall k : nat, Z.of_nat (k + length rs) <= 2 ^ 63 ->
    loop_outcome total (Z.of_nat k) rs = Ok tt /\
    loop_trace total (Z.of_nat k) rs =
    alternate (map extent_record rs)
              (map (fun i => pct_val Wt (Z.of_nat i)) (seq k (length rs))).
Proof.
  intros Ht HWt. induction rs as [|r rs IH]; intros k Hk.
  - split; reflexivity.
  - cbn [length] in Hk. cbn [loop_outcome loop_trace length seq map alternate].
    rewrite (Binary64.percentage_val total Wt (Z.of_nat k) Ht HWt) by lia.
    replace (Z.of_nat k + 1) with (Z.of_nat (S k)) by lia.
    destruct (IH (S k)) as [Ho Htr]; [lia|]. rewrite Ho, Htr. split; reflexivity.
Qed.

Lemma pcts_sorted (Wt : Z) (n : nat) :
  0 <= Wt ->
  forall k, StronglySorted Z.le (map (fun i => pct_val Wt (Z.of_nat i)) (seq k n)).
Proof.
  intros HWt. induction n as [|n IH]; intros k; cbn [seq map]; constructor.
  - apply IH.
  - apply Forall_forall. intros p Hp. apply in_map_iff in Hp.
    destruct Hp as (i & <- & Hi). apply in_seq in Hi.
    apply Binary64.pct_val_mono; lia.
Qed.

Section FeatureExtentRuns.

Variable InGeometry : Type.
Variable boundingBox : InGeometry -> QgsRectangle.

(** However [featureExtent] ends, what it has written are the records of
    a prefix of the features. *)
Lemma featureExtent_written (layer : QgsVectorLayer InGeometry) (w : World) :
  exists k,
    (k <= length (features layer))%nat /\
    written (snd (featureExtent boundingBox layer w)) =
    written w ++
    map extent_record (firstn k (map (rect_of boundingBox) (features layer))).
Proof.
  pose proof (featureExtent_run InGeometry boundingBox layer w) as H.
  destruct (total_of (length (features layer))) as [total|e].
  - destruct H as (h & _ & _ & ->). cbn [snd]. unfold written. cbn [trace].
    destruct (loop_trace_written total (map (rect_of boundingBox) (features layer)) 0)
      as (k & Hk & Hw).
    exists k. split; [now rewrite length_map in Hk|].
    rewrite written_of_app. now rewrite Hw.
  - rewrite H. exists 0%nat. split; [lia|]. cbn. now rewrite app_nil_r.
Qed.

(** A non-empty layer of fewer than [2^63] features: the run succeeds,
    and the trace is the records with their percentages. *)
Lemma featureExtent_full (layer : QgsVectorLayer InGeometry) (w : World) :
  let n := length (features layer) in
  (0 < n)%nat -> Z.of_nat n < 2 ^ 63 ->
  exists total Wt Wq h,
    total_of n = Ok total /\ nnfloat total Wt /\ 0 <= Wq /\
    Wt * 2 ^ 52 <= Wq * (2 ^ 52 + 1) /\
    Wq * rnd 1074 (Z.of_nat n * 2 ^ 1074) <= 100 * 2 ^ 2148 /\
    100 * 2 ^ 2148 * 2 ^ 52 < Wq * (2 ^ 52 + 1) * rnd 1074 (Z.of_nat n * 2 ^ 1074) /\
    (forall i, (i < n)%nat ->
               percentage total (Z.of_nat i) = Ok (pct_val Wt (Z.of_nat i))) /\
    featureExtent boundingBox layer w =
    (Ok tt,
     mkWorld h (trace w ++
                alternate (map extent_record (map (rect_of boundingBox) (features layer)))
                          (map (fun i => pct_val Wt (Z.of_nat i)) (seq 0 n)))).
Proof.
  intros n Hn0 Hn.
  destruct (Binary64.total_of_nn n ltac:(lia))
    as (total & Wt & Wq & Htot & Ht & HWt & HWq & Ha & Hb & Hc).
  pose proof (featureExtent_run InGeometry boundingBox layer w) as H.
  fold n in H. rewrite Htot in H. destruct H as (h & _ & _ & Hrun).
  exists total, Wt, Wq, h. repeat (split; [assumption|]). split.
  - intros i Hi. apply Binary64.percentage_val; auto. blia.
  - destruct (loop_full total Wt (map (rect_of boundingBox) (features layer)) Ht HWt 0)
      as [Ho Htr].
    { rewrite length_map. fold n. blia. }
    change (Z.of_nat 0) with 0 in Ho, Htr.
    rewrite length_map in Htr. fold n in Htr.
    rewrite Hrun, Ho, Htr. reflexivity.
Qed.

End FeatureExtentRuns.

Lemma In_firstn {A : Type} (x : A) (l : list A) :
  forall k, In x (firstn k l) -> In x l.
Proof.
  induction l as [|a l IH]; intros [|k]; cbn; try tauto.
  intros [->|H]; [now left | right; eauto].
Qed.

Lemma extent_record_closed (B : QgsRectangle) :
  closed_rectangle B (feat_geometry (extent_record B)).
Proof. eexists. repeat split. Qed.


Lemma featureExtent_empty {G : Type} (boundingBox : G -> QgsRectangle)
    (ext : QgsRectangle) (w : World) :
  featureExtent boundingBox (mkLayer ext []) w = (Raise ZeroDivisionError, w).
Proof. reflexivity. Qed.

(** ** The claims *)

(** C1: for every bounding box with [minX <= maxX] and [minY <= maxY],
    [layerExtent] succeeds and writes one record whose ten attributes are
    [minX, minY, maxX, maxY, minX + width/2, minY + height/2, width*height,
    2*(width+height), height, width], where [width = maxX - minX] and
    [height = maxY - minY], in binary64 arithmetic. *)
Theorem C1_layerExtent_attributes {G : Type} (layer : QgsVectorLayer G) (w : World) :
  let minX := xMinimum (extent layer) in
  let minY := yMinimum (extent layer) in
  let maxX := xMaximum (extent layer) in
  let maxY := yMaximum (extent layer) in
  let width := (maxX - minX)%float in
  let height := (maxY - minY)%float in
  (minX <=? maxX)%float = true ->
  (minY <=? maxY)%float = true ->
  fst (layerExtent layer w) = Ok tt /\
  exists r,
    written (snd (layerExtent layer w)) = written w ++ [r] /\
    feat_attributes r =
    [ minX; minY; maxX; maxY;
      (minX + width / 2)%float; (minY + height / 2)%float;
      (width * height)%float; (2 * (width + height))%float;
      height; width ].
Proof.
  intros minX minY maxX maxY width height HX HY.
  rewrite layerExtent_run. split; [reflexivity|].
  exists (extent_record (extent layer)). split.
  - unfold written. cbn [snd trace]. now rewrite written_of_app.
  - cbn [extent_record feat_attributes]. unfold extent_attributes, rect_width, rect_height.
    subst width height. rewrite <- (Binary64.float_double_distr minX maxX minY maxY HX HY).
    reflexivity.
Qed.

Lemma C1_witness :
  (0 <=? 4)%float = true /\ (0 <=? 2)%float = true /\
  fst (layerExtent (@mkLayer unit box_0_0_4_2 []) emptyWorld) = Ok tt /\
  exists r,
    written (snd (layerExtent (@mkLayer unit box_0_0_4_2 []) emptyWorld)) =
    written emptyWorld ++ [r] /\
    feat_attributes r = [0; 0; 4; 2; 2; 1; 8; 12; 2; 4]%float.
Proof.
  split; [reflexivity|]. split; [reflexivity|].
  apply (C1_layerExtent_attributes (@mkLayer unit box_0_0_4_2 []) emptyWorld);
    reflexivity.
Defined.

(** C2: on the empty feature sequence [featureExtent] does raise: the
    division [100.0 / len(features)] raises [ZeroDivisionError] before the
    loop, and nothing is written or reported. *)
Theorem C2_featureExtent_empty_raises {G : Type} (boundingBox : G -> QgsRectangle)
    (ext : QgsRectangle) (w : World) :
  featureExtent boundingBox (mkLayer ext []) w = (Raise ZeroDivisionError, w).
Proof. apply featureExtent_empty. Qed.

(** C3: for every non-empty sequence of features (a Python sequence has
    fewer than [2^63] items) [featureExtent] succeeds and writes exactly one
    record per feature, in the order of the features, and the attributes of
    record [i] are those of the record [layerExtent] writes for a layer whose
    extent is the bounding box of feature [i]. *)
Theorem C3_featureExtent_refines_layerExtent {G : Type}
    (boundingBox : G -> QgsRectangle) (layer : QgsVectorLayer G) (w : World) :
  features layer <> [] ->
  Z.of_nat (length (features layer)) < 2 ^ 63 ->
  fst (featureExtent boundingBox layer w) = Ok tt /\
  exists recs,
    written (snd (featureExtent boundingBox layer w)) = written w ++ recs /\
    length recs = length (features layer) /\
    forall i f, nth_error (features layer) i = Some f ->
      exists r r0,
        nth_error recs i = Some r /\
        (forall w0,
           written (snd (layerExtent (@mkLayer G (boundingBox (geometry f)) []) w0)) =
           written w0 ++ [r0]) /\
        feat_attributes r = feat_attributes r0.
Proof.
  intros Hne Hn.
  assert (Hn0 : (0 < length (features layer))%nat).
  { destruct (features layer); [congruence | cbn; lia]. }
  destruct (featureExtent_full G boundingBox layer w Hn0 Hn)
    as (total & Wt & Wq & h & _ & _ & _ & _ & _ & _ & _ & ->).
  split; [reflexivity|].
  exists (map extent_record (map (rect_of boundingBox) (features layer))).
  unfold written. cbn [snd trace]. rewrite written_of_app.
  rewrite written_alternate by (rewrite !length_map, length_seq; reflexivity).
  split; [reflexivity|]. split; [now rewrite !length_map|].
  intros i f Hf.
  exists (extent_record (boundingBox (geometry f))),
         (extent_record (boundingBox (geometry f))).
  split; [|split; [|reflexivity]].
  - rewrite map_map. now rewrite nth_error_map, Hf.
  - intros w0. rewrite layerExtent_run. cbn [snd trace extent].
    now rewrite written_of_app.
Qed.

Lemma C3_witness :
  two_features <> [] /\
  Z.of_nat (length two_features) < 2 ^ 63 /\
  fst (featureExtent (fun b => b) (mkLayer box_0_0_4_2 two_features) emptyWorld) = Ok tt /\
  exists recs,
    written (snd (featureExtent (fun b => b) (mkLayer box_0_0_4_2 two_features)
                    emptyWorld)) = written emptyWorld ++ recs /\
    length recs = length two_features /\
    forall i f, nth_error two_features i = Some f ->
      exists r r0,
        nth_error recs i = Some r /\
        (forall w0,
           written (snd (layerExtent (@mkLayer QgsRectangle (geometry f) []) w0)) =
           written w0 ++ [r0]) /\
        feat_attributes r = feat_attributes r0.
Proof.
  split; [discriminate|]. split; [reflexivity|].
  apply (C3_featureExtent_refines_layerExtent (fun b => b)
           (mkLayer box_0_0_4_2 two_features) emptyWorld);
    [discriminate | reflexivity].
Defined.

(** C4: every record either method writes has as geometry one ring of
    exactly five coordinates, [(minX,minY), (minX,maxY), (maxX,maxY),
    (maxX,minY), (minX,minY)] of the rectangle it was computed from, the
    first equal to the last. *)
Theorem C4_closed_rectangle_ring {G : Type} (boundingBox : G -> QgsRectangle)
    (layer : QgsVectorLayer G) (w : World) :
  (exists r,
     written (snd (layerExtent layer w)) = written w ++ [r] /\
     closed_rectangle (extent layer) (feat_geometry r)) /\
  (exists recs,
     written (snd (featureExtent boundingBox layer w)) = written w ++ recs /\
     forall i r, nth_error recs i = Some r ->
       exists f, nth_error (features layer) i = Some f /\
                 closed_rectangle (boundingBox (geometry f)) (feat_geometry r)).
Proof.
  split.
  - exists (extent_record (extent layer)). rewrite layerExtent_run.
    unfold written. cbn [snd trace]. rewrite written_of_app.
    split; [reflexivity | apply extent_record_closed].
  - destruct (featureExtent_written G boundingBox layer w) as (k & Hk & ->).
    eexists. split; [reflexivity|]. intros i r Hr.
    rewrite nth_error_map in Hr.
    destruct (nth_error (firstn k (map (rect_of boundingBox) (features layer))) i)
      as [B|] eqn:EB; [|discriminate].
    injection Hr as <-.
    destruct (Nat.lt_ge_cases i k) as [Hik|Hik].
    + rewrite nth_error_firstn in EB.
      destruct (Nat.ltb_spec i k); [|lia].
      rewrite nth_error_map in EB.
      destruct (nth_error (features layer) i) as [f|]; [|discriminate].
      injection EB as <-. exists f. split; [reflexivity | apply extent_record_closed].
    + assert (Hnone : nth_error (firstn k (map (rect_of boundingBox) (features layer))) i = None).
      { apply nth_error_None. rewrite length_firstn. lia. }
      congruence.
Qed.

(** C5: the schema [processAlgorithm] hands to the writer is the ten fields
    MINX, MINY, MAXX, MAXY, CNTX, CNTY, AREA, PERIM, HEIGHT, WIDTH, all of
    type double, and the attributes of every record written are exactly the
    ten values of these fields, in this order and nothing more, for the
    rectangle of the record (the extent of the layer or the bounding box of
    a feature): each value is paired with the name of its field. *)
Theorem C5_schema_and_attribute_order {G : Type} (boundingBox : G -> QgsRectangle)
    (layer : QgsVectorLayer G) (byFeature : bool) (w : World) :
  let schema := fst (processAlgorithm boundingBox layer byFeature) in
  let run := snd (processAlgorithm boundingBox layer byFeature) in
  map field_name schema =
  [ "MINX"; "MINY"; "MAXX"; "MAXY"; "CNTX"; "CNTY"; "AREA"; "PERIM";
    "HEIGHT"; "WIDTH" ]%string /\
  Forall (fun f => field_type f = QVariant_Double) schema /\
  exists recs,
    written (snd (run w)) = written w ++ recs /\
    forall r, In r recs ->
      exists B,
        (B = extent layer \/
         exists f, In f (features layer) /\ B = boundingBox (geometry f)) /\
        feat_attributes r =
        [ xMinimum B; yMinimum B; xMaximum B; yMaximum B;
          xMinimum B + rect_width B / 2; yMinimum B + rect_height B / 2;
          rect_width B * rect_height B; 2 * rect_width B + 2 * rect_height B;
          rect_height B; rect_width B ]%float /\
        combine (map field_name schema) (feat_attributes r) =
        [ ("MINX", xMinimum B); ("MINY", yMinimum B);
          ("MAXX", xMaximum B); ("MAXY", yMaximum B);
          ("CNTX", xMinimum B + rect_width B / 2);
          ("CNTY", yMinimum B + rect_height B / 2);
          ("AREA", rect_width B * rect_height B);
          ("PERIM", 2 * rect_width B + 2 * rect_height B);
          ("HEIGHT", rect_height B); ("WIDTH", rect_width B) ]%string%float.
Proof.
  cbn [processAlgorithm fst snd]. split; [reflexivity|]. split.
  { unfold fields. repeat constructor. }
  destruct byFeature.
  - destruct (featureExtent_written G boundingBox layer w) as (k & Hk & ->).
    eexists. split; [reflexivity|]. intros r Hr.
    apply in_map_iff in Hr. destruct Hr as (B & <- & HB).
    apply In_firstn, in_map_iff in HB. destruct HB as (f & <- & Hf).
    exists (rect_of boundingBox f).
    split; [right; exists f; auto | split; reflexivity].
  - exists [extent_record (extent layer)]. rewrite layerExtent_run.
    unfold written. cbn [snd trace]. rewrite written_of_app. split; [reflexivity|].
    intros r [<-|[]]. exists (extent layer). split; [now left | split; reflexivity].
Qed.

(** C6: no box raises an error in [layerExtent], so none of zero area
    does, whether a point ([minX = maxX] and [minY = maxY]) or a line (one
    of the two): the method returns and writes the record of the box; and
    for the point box [{5,5,5,5}] the attributes written are
    [5,5,5,5,5,5,0,0,0,0]. *)
Theorem C6_degenerate_box {G : Type} (fs : list (InFeature G)) (w : World) :
  (forall B : QgsRectangle,
     fst (layerExtent (mkLayer B fs) w) = Ok tt /\
     written (snd (layerExtent (mkLayer B fs) w)) = written w ++ [extent_record B]) /\
  fst (layerExtent (mkLayer box_point_5 fs) w) = Ok tt /\
  exists r,
    written (snd (layerExtent (mkLayer box_point_5 fs) w)) = written w ++ [r] /\
    feat_attributes r = [5; 5; 5; 5; 5; 5; 0; 0; 0; 0]%float.
Proof.
  assert (H : forall B : QgsRectangle,
             fst (layerExtent (mkLayer B fs) w) = Ok tt /\
             written (snd (layerExtent (mkLayer B fs) w)) =
             written w ++ [extent_record B]).
  { intros B. rewrite layerExtent_run. split; [reflexivity|].
    unfold written. cbn [snd trace extent]. now rewrite written_of_app. }
  split; [exact H|]. split; [apply H|].
  exists (extent_record box_point_5). split; [apply H | reflexivity].
Qed.

(** C7, as stated, fails on [layerExtent]: it writes one record and
    reports no percentage. *)
Lemma C7_counterexample :
  let w' := snd (layerExtent (@mkLayer unit box_unit []) emptyWorld) in
  written w' = [extent_record box_unit] /\
  percentages w' = [] /\
  length (percentages w') <> length (written w').
Proof. repeat split. discriminate. Qed.

(** C7, amended: in a run of [featureExtent] (on fewer than [2^63]
    features) the calls are each record followed by its percentage, one per
    feature, the percentages are integers in non-decreasing order, and the
    records are those of the features whatever the percentages are; a run of
    [layerExtent] reports no percentage. *)
Theorem C7_progress_amended {G : Type} (boundingBox : G -> QgsRectangle)
    (layer : QgsVectorLayer G) (w : World) :
  Z.of_nat (length (features layer)) < 2 ^ 63 ->
  (exists ps : list Z,
     length ps = length (features layer) /\
     trace (snd (featureExtent boundingBox layer w)) =
     trace w ++
     alternate (map (fun f => extent_record (boundingBox (geometry f))) (features layer))
               ps /\
     StronglySorted Z.le ps) /\
  percentages (snd (layerExtent layer w)) = percentages w.
Proof.
  intros Hn. split.
  - destruct (features layer) as [|f0 fs] eqn:Efs.
    + exists []. split; [reflexivity|]. split; [|constructor].
      destruct layer as [ext fts]. cbn [features] in Efs. subst fts.
      rewrite featureExtent_empty. cbn. now rewrite app_nil_r.
    + rewrite <- Efs in *.
      assert (Hn0 : (0 < length (features layer))%nat) by (rewrite Efs; cbn; lia).
      destruct (featureExtent_full G boundingBox layer w Hn0 Hn)
        as (total & Wt & Wq & h & _ & Ht & _ & _ & _ & _ & _ & ->).
      eexists. split; [|split].
      2:{ cbn [snd trace]. rewrite map_map. reflexivity. }
      * now rewrite length_map, length_seq.
      * apply pcts_sorted. destruct Ht as (_ & _ & ? & _). assumption.
  - rewrite layerExtent_run. unfold percentages. cbn [snd trace].
    rewrite percentages_of_app. cbn. now rewrite app_nil_r.
Qed.

(** C8: [layerExtent] succeeds on every layer, and all it does is one call
    of [writer.addFeature]: the trace grows by that one call, no percentage
    is reported, and the objects that existed before are unchanged (the one
    object it allocates is the feature it writes). *)
Theorem C8_layerExtent_one_write {G : Type} (layer : QgsVectorLayer G) (w : World) :
  exists r,
    layerExtent layer w =
    (Ok tt, mkWorld (heap w ++ [r]) (trace w ++ [AddFeature r])) /\
    percentages (snd (layerExtent layer w)) = percentages w /\
    forall k, (k < length (heap w))%nat ->
              deref k (snd (layerExtent layer w)) = deref k w.
Proof.
  exists (extent_record (extent layer)). rewrite layerExtent_run.
  split; [reflexivity|]. split.
  - unfold percentages. cbn [snd trace]. rewrite percentages_of_app. cbn.
    now rewrite app_nil_r.
  - intros k Hk. unfold deref. cbn [snd heap]. now rewrite app_nth1.
Qed.

(** C9, as stated, fails: with 194 features the percentage reported after
    feature 97 is 49, and [floor(97 * 100 / 194)] is 50. *)
Lemma C9_counterexample :
  nth 97 (percentages
            (snd (featureExtent (fun b : QgsRectangle => b)
                    (mkLayer box_unit (repeat (mkInFeature box_unit) 194))
                    emptyWorld))) 0 = 49 /\
  97 * 100 / 194 = 50.
Proof. split; vm_compute; reflexivity. Qed.

(** C9, amended: for a non-empty sequence of [n] features (fewer than
    [2^63]) the percentage reported after feature [i] is [int(i * total)],
    [total = 100.0 / n], in binary64 arithmetic; the first one is 0; and
    with at most [2^50] features the value 100 is never reported. *)
Theorem C9_percentages_amended {G : Type} (boundingBox : G -> QgsRectangle)
    (layer : QgsVectorLayer G) (w : World) :
  let n := length (features layer) in
  (0 < n)%nat ->
  Z.of_nat n < 2 ^ 63 ->
  exists total ps,
    total_of n = Ok total /\
    percentages (snd (featureExtent boundingBox layer w)) = percentages w ++ ps /\
    Forall2 (fun i p => percentage total (Z.of_nat i) = Ok p) (seq 0 n) ps /\
    nth_error ps 0 = Some 0 /\
    (Z.of_nat n <= 2 ^ 50 -> Forall (fun p => p < 100) ps).
Proof.
  intros n Hn0 Hn.
  destruct (featureExtent_full G boundingBox layer w Hn0 Hn)
    as (total & Wt & Wq & h & Htot & Ht & HWq & Ha & Hb & Hc & Hp & ->).
  fold n in Htot, Hb, Hc, Hp |- *.
  exists total, (map (fun i => pct_val Wt (Z.of_nat i)) (seq 0 n)).
  split; [exact Htot|]. split; [|split; [|split]].
  - unfold percentages. cbn [snd trace]. rewrite percentages_of_app.
    rewrite percentages_alternate; [reflexivity|].
    rewrite !length_map, length_seq. reflexivity.
  - assert (HF : forall l, (forall i, In i l -> (i < n)%nat) ->
               Forall2 (fun i p => percentage total (Z.of_nat i) = Ok p) l
                       (map (fun i => pct_val Wt (Z.of_nat i)) l)).
    { induction l as [|i l IH]; intros Hl; cbn [map]; constructor.
      - apply Hp, Hl. now left.
      - apply IH. intros j Hj. apply Hl. now right. }
    apply HF. intros i Hi. apply in_seq in Hi. lia.
  - destruct n as [|n']; [lia|]. cbn [seq map nth_error].
    change (Z.of_nat 0) with 0. now rewrite Binary64.pct_val_0.
  - intros Hn50. apply Forall_forall. intros p Hin.
    apply in_map_iff in Hin. destruct Hin as (i & <- & Hi). apply in_seq in Hi.
    destruct Ht as (_ & _ & HWt0 & _).
    apply (Binary64.pct_val_lt_100 Wt Wq (Z.of_nat n)); auto; lia.
Qed.

Lemma C9_witness :
  (0 < length two_features)%nat /\
  Z.of_nat (length two_features) < 2 ^ 63 /\
  exists total ps,
    total_of (length two_features) = Ok total /\
    percentages (snd (featureExtent (fun b => b) (mkLayer box_0_0_4_2 two_features)
                        emptyWorld)) = percentages emptyWorld ++ ps /\
    Forall2 (fun i p => percentage total (Z.of_nat i) = Ok p)
            (seq 0 (length two_features)) ps /\
    nth_error ps 0 = Some 0 /\
    (Z.of_nat (length two_features) <= 2 ^ 50 -> Forall (fun p => p < 100) ps).
Proof.
  split; [cbn; lia|]. split; [reflexivity|].
  apply (C9_percentages_amended (fun b => b) (mkLayer box_0_0_4_2 two_features)
           emptyWorld); [cbn; lia | reflexivity].
Defined.

(** C10: whatever the reused feature object holds from earlier iterations,
    the loop body sets its geometry and its ten attributes from the current
    input feature before the write: the record written, and the content of
    the object afterwards, are those computed from the bounding box of the
    current feature alone. *)
Theorem C10_no_stale_values {G : Type} (boundingBox : G -> QgsRectangle)
    (total : float) (feat : ref) (current : Z) (f : InFeature G) (w : World) :
  (feat < length (heap w))%nat ->
  let w' := snd (featureExtent_body boundingBox total feat current f w) in
  written w' = written w ++ [extent_record (boundingBox (geometry f))] /\
  deref feat w' = extent_record (boundingBox (geometry f)).
Proof.
  intros Hf w'. subst w'. rewrite featureExtent_body_run by assumption. cbv zeta.
  unfold rect_of.
  destruct (percentage total current) as [p|e]; unfold written, deref; cbn [snd trace heap].
  - rewrite !written_of_app. cbn. rewrite app_nil_r.
    split; [reflexivity | now apply nth_update_nth_eq].
  - rewrite written_of_app. split; [reflexivity | now apply nth_update_nth_eq].
Qed.

Lemma C10_witness :
  (0 < length (heap (mkWorld [stale_feature] [])))%nat /\
  let w' := snd (featureExtent_body (fun b => b) 50%float 0%nat 0 (mkInFeature box_unit)
                   (mkWorld [stale_feature] [])) in
  written w' = written (mkWorld [stale_feature] []) ++ [extent_record box_unit] /\
  deref 0%nat w' = extent_record box_unit.
Proof.
  split; [cbn; lia|].
  apply (C10_no_stale_values (fun b => b) 50%float 0%nat 0 (mkInFeature box_unit)
           (mkWorld [stale_feature] [])).
  cbn; lia.
Defined.

Lemma C7_witness :
  Z.of_nat (length two_features) < 2 ^ 63 /\
  (exists ps : list Z,
     length ps = length two_features /\
     trace (snd (featureExtent (fun b => b) (mkLayer box_0_0_4_2 two_features) emptyWorld)) =
     trace emptyWorld ++
     alternate (map (fun f => extent_record (geometry f)) two_features) ps /\
     StronglySorted Z.le ps) /\
  percentages (snd (layerExtent (mkLayer box_0_0_4_2 two_features) emptyWorld)) =
  percentages emptyWorld.
Proof.
  split; [reflexivity|].
  apply (C7_progress_amended (fun b => b) (mkLayer box_0_0_4_2 two_features) emptyWorld).
  reflexivity.
Defined.

(** * Further properties of the code *)

Import Binary64.

(** ** Signed binary64 arithmetic, on integers *)

(** *** Zeros and finite numbers by sign and magnitude *)

Lemma fin_SF_of (X : spec_float) :
  valid_binary X = true -> SFfin X = true ->
  X = SF_of (SFsign X) (SFmag X) /\ repr (SFmag X) /\ 0 <= SFmag X < 2 ^ 2098.
Proof.
  destruct X as [s|s| |s m e]; try discriminate; intros Hv _.
  - split; [reflexivity|]. split; [reflexivity|]. split; [apply Z.le_refl | reflexivity].
  - cbn [SFsign SFmag]. destruct (valid_SF_of s m e Hv) as (E & He & Hd & Hc).
    assert (Hm : Z.pos m < 2 ^ 53) by (apply Zdigits2_le_iff; blia).
    pose proof (pow2_pos (e + 1074) ltac:(lia)) as Hp.
    split; [exact E|]. split; [apply repr_mul_pow2; blia|].
    unfold Wval. split; [bnia|].
    apply Z.lt_le_trans with (2 ^ 53 * 2 ^ (e + 1074)); [bnia|].
    rewrite <- Z.pow_add_r by blia. apply pow2_le. blia.
Qed.

Lemma SF_of_fin (s : bool) (W : Z) :
  repr W -> 0 <= W < 2 ^ 2098 ->
  valid_binary (SF_of s W) = true /\ SFfin (SF_of s W) = true /\
  SFsign (SF_of s W) = s /\ SFmag (SF_of s W) = W.
Proof.
  intros Hr [H0 Hlt]. destruct (Z.eq_dec W 0) as [->|Hn0].
  - repeat split.
  - assert (Hpos : 0 < W) by (clear Hlt; lia).
    destruct (SF_of_repr s W Hr (conj Hpos Hlt)) as (m & e & -> & Hv & Hval).
    repeat split; assumption.
Qed.

Lemma zval_SF_of (s : bool) (W : Z) :
  repr W -> 0 <= W < 2 ^ 2098 -> zval (SF_of s W) = cond_Zopp s W.
Proof.
  intros Hr HW. destruct (SF_of_fin s W Hr HW) as (_ & _ & Hs & Hm).
  unfold zval. now rewrite Hs, Hm.
Qed.

Lemma SF_of_pos_nz (s s' : bool) (W : Z) : 0 < W -> SF_of s W <> S754_zero s'.
Proof.
  intros HW. unfold SF_of. rewrite (proj2 (Z.leb_gt _ _) HW).
  destruct (2 ^ 2098 <=? W); discriminate.
Qed.

Lemma SFcan_SF_of_pos (s : bool) (W : Z) : 0 < W -> SFcan (SF_of s W) = SF_of s W.
Proof.
  intros HW. unfold SF_of. rewrite (proj2 (Z.leb_gt _ _) HW).
  destruct (2 ^ 2098 <=? W); reflexivity.
Qed.

Lemma SFcan_fin (X : spec_float) : SFfin (SFcan X) = SFfin X.
Proof. destruct X; reflexivity. Qed.

Lemma zval_SFcan (X : spec_float) : zval (SFcan X) = zval X.
Proof. destruct X as [[|]|[|]| |s m e]; reflexivity. Qed.

Lemma zval_zero (s : bool) : zval (S754_zero s) = 0.
Proof. destruct s; reflexivity. Qed.

Lemma valid_SFcan (X : spec_float) : valid_binary (SFcan X) = valid_binary X.
Proof. destruct X; reflexivity. Qed.

(** *** Signed rounding *)

Lemma rnd_1074_ge (V : Z) : 0 < V -> 0 < rnd 1074 V.
Proof.
  intros HV. apply rnd_pos; [apply Z.le_refl|].
  change (2 ^ (1074 - 1074)) with 1. lia.
Qed.

Lemma SFr_0 (a : Z) : 1074 <= a -> SFr a 0 = S754_zero false.
Proof. intros Ha. unfold SFr. cbn [Z.abs Z.ltb Z.compare]. now rewrite rnd_0. Qed.

Lemma SFcan_SFr (V : Z) : SFcan (SFr 1074 V) = SFr 1074 V.
Proof.
  unfold SFr. destruct (Z.eq_dec V 0) as [->|Hn0]; [reflexivity|].
  apply SFcan_SF_of_pos, rnd_1074_ge. lia.
Qed.

Lemma SFr_nz (V : Z) : SFr 1074 V <> S754_zero true.
Proof.
  intros E. pose proof (SFcan_SFr V) as H. rewrite E in H. discriminate.
Qed.

Lemma SFr_exact (s : bool) (W : Z) :
  repr W -> 0 < W -> SFr 1074 (cond_Zopp s W) = SF_of s W.
Proof.
  intros Hr HW. unfold SFr.
  assert (E : rnd 1074 W = W).
  { rewrite <- (Z.mul_1_r W) at 1. change 1 with (2 ^ (1074 - 1074)).
    apply rnd_exact; [apply Z.le_refl | lia | exact Hr]. }
  destruct s; cbn [cond_Zopp].
  - rewrite (proj2 (Z.ltb_lt _ _)) by lia. rewrite Z.abs_neq by lia.
    rewrite Z.opp_involutive. now rewrite E.
  - rewrite (proj2 (Z.ltb_ge _ _)) by lia. rewrite Z.abs_eq by lia. now rewrite E.
Qed.

Lemma binary_normalize_SFr (z e : Z) :
  0 <= e + 1074 ->
  binary_normalize prec emax z e false = SFr 1074 (z * 2 ^ (e + 1074)).
Proof.
  intros He. pose proof (pow2_pos (e + 1074) He) as Hp. unfold SFr.
  destruct z as [|p|p]; cbn [binary_normalize].
  - rewrite Z.mul_0_l. cbn [Z.abs Z.ltb Z.compare]. now rewrite rnd_0.
  - rewrite (binary_round_val false p e 1074) by lia.
    rewrite (proj2 (Z.ltb_ge _ _)) by nia. now rewrite Z.abs_eq by nia.
  - rewrite (binary_round_val true p e 1074) by lia.
    rewrite (proj2 (Z.ltb_lt _ _)) by nia. rewrite Z.abs_neq by nia.
    f_equal. f_equal. rewrite <- Z.mul_opp_l. reflexivity.
Qed.

Lemma shl_align_sval (s : bool) (m : positive) (e ez : Z) :
  ez <= e -> 0 <= ez + 1074 ->
  cond_Zopp s (Z.pos (fst (shl_align m e ez))) * 2 ^ (ez + 1074) = sval s m e.
Proof.
  intros Hle Hez. pose proof (shl_align_val m e ez) as A.
  destruct (shl_align m e ez) as [n z]. destruct A as [A _]. cbn [fst].
  rewrite Z.min_r in A by assumption.
  assert (E : Z.pos n * 2 ^ (ez + 1074) = Wval m e).
  { rewrite A. unfold Wval. rewrite <- Z.mul_assoc, <- Z.pow_add_r by lia.
    f_equal. f_equal. lia. }
  unfold sval. destruct s; cbn [cond_Zopp]; [rewrite Z.mul_opp_l|]; now rewrite E.
Qed.

Lemma SFadd_finite (s1 s2 : bool) (m1 m2 : positive) (e1 e2 : Z) :
  -1074 <= e1 -> -1074 <= e2 ->
  SFadd prec emax (S754_finite s1 m1 e1) (S754_finite s2 m2 e2) =
  SFr 1074 (sval s1 m1 e1 + sval s2 m2 e2).
Proof.
  intros He1 He2. cbn [SFadd]. rewrite binary_normalize_SFr by lia.
  rewrite Z.mul_add_distr_r, !shl_align_sval by lia. reflexivity.
Qed.

Lemma SFsub_finite (s1 s2 : bool) (m1 m2 : positive) (e1 e2 : Z) :
  -1074 <= e1 -> -1074 <= e2 ->
  SFsub prec emax (S754_finite s1 m1 e1) (S754_finite s2 m2 e2) =
  SFr 1074 (sval s1 m1 e1 - sval s2 m2 e2).
Proof.
  intros He1 He2. cbn [SFsub]. rewrite binary_normalize_SFr by lia.
  rewrite Z.mul_sub_distr_r, !shl_align_sval by lia. reflexivity.
Qed.

Lemma valid_exp (s : bool) (m : positive) (e : Z) :
  valid_binary (S754_finite s m e) = true -> -1074 <= e.
Proof. intros H. destruct (valid_SF_of s m e H) as (_ & He & _). lia. Qed.

Lemma valid_repr (s : bool) (m : positive) (e : Z) :
  valid_binary (S754_finite s m e) = true ->
  repr (Wval m e) /\ 0 < Wval m e /\ S754_finite s m e = SF_of s (Wval m e).
Proof.
  intros H. destruct (fin_SF_of _ H eq_refl) as (E & Hr & _).
  split; [exact Hr|]. split; [|exact E].
  apply Wval_pos. now apply valid_exp in H.
Qed.

Lemma SFr_sval (s : bool) (m : positive) (e : Z) :
  valid_binary (S754_finite s m e) = true ->
  SFr 1074 (sval s m e) = S754_finite s m e.
Proof.
  intros H. destruct (valid_repr s m e H) as (Hr & Hp & E).
  unfold sval. rewrite SFr_exact by assumption. now rewrite E.
Qed.

(** The sum and the difference of two zeros or finite numbers, up to the
    sign of a zero. *)
Lemma SFadd_val (X Y : spec_float) :
  valid_binary X = true -> valid_binary Y = true ->
  SFfin X = true -> SFfin Y = true ->
  SFcan (SFadd prec emax X Y) = SFr 1074 (zval X + zval Y).
Proof.
  intros HX HY FX FY.
  destruct X as [sx|sx| |sx mx ex], Y as [sy|sy| |sy my ey]; try discriminate.
  - rewrite !zval_zero, SFr_0 by apply Z.le_refl. destruct sx, sy; reflexivity.
  - rewrite zval_zero. change (zval (S754_finite sy my ey)) with (sval sy my ey).
    rewrite Z.add_0_l, SFr_sval by assumption. reflexivity.
  - rewrite zval_zero. change (zval (S754_finite sx mx ex)) with (sval sx mx ex).
    rewrite Z.add_0_r, SFr_sval by assumption. reflexivity.
  - rewrite SFadd_finite by (eapply valid_exp; eassumption).
    apply SFcan_SFr.
Qed.

Lemma SFsub_val (X Y : spec_float) :
  valid_binary X = true -> valid_binary Y = true ->
  SFfin X = true -> SFfin Y = true ->
  SFcan (SFsub prec emax X Y) = SFr 1074 (zval X - zval Y).
Proof.
  intros HX HY FX FY.
  destruct X as [sx|sx| |sx mx ex], Y as [sy|sy| |sy my ey]; try discriminate.
  - rewrite !zval_zero, SFr_0 by apply Z.le_refl. destruct sx, sy; reflexivity.
  - rewrite zval_zero. change (zval (S754_finite sy my ey)) with (sval sy my ey).
    rewrite Z.sub_0_l. cbn [SFsub SFcan].
    replace (- sval sy my ey) with (sval (negb sy) my ey)
      by (unfold sval; destruct sy; cbn [cond_Zopp negb]; lia).
    now rewrite SFr_sval.
  - rewrite zval_zero. change (zval (S754_finite sx mx ex)) with (sval sx mx ex).
    rewrite Z.sub_0_r, SFr_sval by assumption. reflexivity.
  - rewrite SFsub_finite by (eapply valid_exp; eassumption).
    apply SFcan_SFr.
Qed.

(** A sum is a negative zero only when both terms are. *)
Lemma SFadd_nz (X Y : spec_float) :
  valid_binary X = true -> valid_binary Y = true ->
  SFadd prec emax X Y = S754_zero true -> X = S754_zero true /\ Y = S754_zero true.
Proof.
  intros HX HY.
  destruct X as [sx|sx| |sx mx ex], Y as [sy|sy| |sy my ey];
    try (destruct sx; discriminate); try (destruct sy; discriminate);
    try discriminate.
  - destruct sx, sy; try discriminate. auto.
  - destruct sx, sy; discriminate.
  - rewrite SFadd_finite by (eapply valid_exp; eassumption).
    intros E. now apply SFr_nz in E.
Qed.

Lemma SFsub_nz (X Y : spec_float) :
  valid_binary X = true -> valid_binary Y = true ->
  SFsub prec emax X Y = S754_zero true -> X = S754_zero true /\ Y = S754_zero false.
Proof.
  intros HX HY.
  destruct X as [sx|sx| |sx mx ex], Y as [sy|sy| |sy my ey];
    try (destruct sx; discriminate); try (destruct sy; discriminate);
    try discriminate.
  - destruct sx, sy; try discriminate. auto.
  - destruct sx, sy; discriminate.
  - rewrite SFsub_finite by (eapply valid_exp; eassumption).
    intros E. now apply SFr_nz in E.
Qed.

(** *** Comparisons *)

Lemma SFcompare_fin (X Y : spec_float) :
  valid_binary X = true -> valid_binary Y = true ->
  SFfin X = true -> SFfin Y = true ->
  SFcompare X Y = Some (zval X ?= zval Y).
Proof.
  intros HX HY FX FY.
  destruct X as [sx|sx| |sx mx ex], Y as [sy|sy| |sy my ey]; try discriminate.
  - destruct sx, sy; reflexivity.
  - pose proof (Wval_pos my ey (valid_exp _ _ _ HY)) as Hp.
    cbn [SFcompare]. f_equal. unfold zval. cbn [SFsign SFmag].
    destruct sx, sy; cbn [cond_Zopp]; symmetry;
      solve [apply Z.compare_gt_iff; lia | apply Z.compare_lt_iff; lia].
  - pose proof (Wval_pos mx ex (valid_exp _ _ _ HX)) as Hp.
    cbn [SFcompare]. f_equal. unfold zval. cbn [SFsign SFmag].
    destruct sx, sy; cbn [cond_Zopp]; symmetry;
      solve [apply Z.compare_gt_iff; lia | apply Z.compare_lt_iff; lia].
  - now apply SFcompare_finite.
Qed.

Lemma SFleb_fin (X Y : spec_float) :
  valid_binary X = true -> valid_binary Y = true ->
  SFfin X = true -> SFfin Y = true ->
  SFleb X Y = (zval X <=? zval Y).
Proof.
  intros HX HY FX FY. unfold SFleb, Z.leb. rewrite SFcompare_fin by assumption.
  destruct (zval X ?= zval Y); reflexivity.
Qed.

Lemma SFeqb_fin (X Y : spec_float) :
  valid_binary X = true -> valid_binary Y = true ->
  SFfin X = true -> SFfin Y = true ->
  SFeqb X Y = (zval X =? zval Y).
Proof.
  intros HX HY FX FY. unfold SFeqb. rewrite SFcompare_fin by assumption.
  destruct (Z.compare_spec (zval X) (zval Y)) as [E|E|E]; symmetry;
    [now apply Z.eqb_eq | apply Z.eqb_neq; lia | apply Z.eqb_neq; lia].
Qed.

(** *** Products and halves *)

Lemma SFmul_fin (X Y : spec_float) :
  valid_binary X = true -> valid_binary Y = true ->
  SFfin X = true -> SFfin Y = true ->
  SFmul prec emax X Y =
  SF_of (xorb (SFsign X) (SFsign Y)) (rnd 2148 (SFmag X * SFmag Y)).
Proof.
  intros HX HY FX FY.
  destruct X as [sx|sx| |sx mx ex], Y as [sy|sy| |sy my ey]; try discriminate;
    cbn [SFsign SFmag].
  - rewrite Z.mul_0_l, rnd_0 by discriminate. reflexivity.
  - rewrite Z.mul_0_l, rnd_0 by discriminate. reflexivity.
  - rewrite Z.mul_0_r, rnd_0 by discriminate. reflexivity.
  - now apply SFmul_val.
Qed.

Lemma rnd_shift (a c V : Z) :
  1074 <= a -> 0 <= c -> 0 <= V -> rnd (a + c) (V * 2 ^ c) = rnd a V.
Proof.
  intros Ha Hc HV. destruct (Z.eq_dec V 0) as [->|Hn0].
  - rewrite Z.mul_0_l, !rnd_0 by lia. reflexivity.
  - unfold rnd. cbv zeta. rewrite Zdigits2_mul_pow2 by lia.
    pose proof (Zdigits2_nonneg V) as Hd.
    set (K := Z.max (Zdigits2 V - 53) (a - 1074)).
    assert (HK : 0 <= K) by (unfold K; lia).
    replace (Z.max (Zdigits2 V + c - 53) (a + c - 1074)) with (K + c) by (unfold K; lia).
    rewrite (Z.pow_add_r 2 K c) by lia.
    rewrite RN_scale by (apply pow2_pos; lia).
    f_equal. f_equal. lia.
Qed.

Lemma Zdigits2_div_pow2 (U j : Z) :
  0 <= j -> 2 ^ j <= U -> Zdigits2 (U / 2 ^ j) = Zdigits2 U - j.
Proof.
  intros Hj HU. pose proof (pow2_pos j Hj) as Hp.
  pose proof (Zdigits2_bounds U ltac:(lia)) as [Hlo Hhi].
  pose proof (Zdigits2_pos U ltac:(lia)) as Hd.
  assert (Hjd : j < Zdigits2 U).
  { destruct (Z_lt_le_dec j (Zdigits2 U)) as [|Hge]; [assumption|].
    pose proof (pow2_le (Zdigits2 U) j ltac:(lia)). lia. }
  assert (Hq : 1 <= U / 2 ^ j) by (apply Z.div_le_lower_bound; lia).
  apply Zdigits2_unique; [lia|]. split.
  - apply Z.div_le_lower_bound; [lia|]. rewrite <- Z.pow_add_r by lia.
    replace (j + (Zdigits2 U - j - 1)) with (Zdigits2 U - 1) by lia. exact Hlo.
  - apply Z.div_lt_upper_bound; [lia|]. rewrite <- Z.pow_add_r by lia.
    replace (j + (Zdigits2 U - j)) with (Zdigits2 U) by lia. exact Hhi.
Qed.

(** A quotient by a power of two is rounded as its numerator is. *)
Lemma bra_spec_pow2 (s : bool) (U j e : Z) :
  0 <= j -> 2 ^ j <= U -> e <= fexp prec emax (Zdigits2 U - j + e) ->
  bra_spec s U (2 ^ j) (U / 2 ^ j) e = bra_spec s U 1 U (e - j).
Proof.
  intros Hj HU He. unfold bra_spec. cbv zeta.
  rewrite Zdigits2_div_pow2 by assumption.
  replace (Zdigits2 U + (e - j)) with (Zdigits2 U - j + e) by lia.
  set (F := fexp prec emax (Zdigits2 U - j + e)) in *.
  rewrite (Z.max_l (F - e) 0), (Z.max_l (F - (e - j)) 0) by lia.
  replace (F - (e - j)) with (j + (F - e)) by lia.
  rewrite (Z.pow_add_r 2 j (F - e)), Z.mul_1_l by lia.
  replace (e - j + (j + (F - e))) with (e + (F - e)) by lia.
  reflexivity.
Qed.

Lemma SFdiv_two_finite (s : bool) (m : positive) (e : Z) :
  valid_binary (S754_finite s m e) = true ->
  SFdiv prec emax (S754_finite s m e) SF_two = SF_of s (rnd 1075 (Wval m e)).
Proof.
  intros Hv. destruct (valid_SF_of s m e Hv) as (_ & He & Hd & Hc).
  destruct (Pos.eq_dec m 1) as [->|Hm].
  - change (Zdigits2 1) with 1 in Hc. assert (e = -1074) as -> by lia.
    destruct s; reflexivity.
  - assert (Hm2 : 2 <= Z.pos m) by lia.
    set (d := Zdigits2 (Z.pos m)) in *.
    assert (Hd1 : 2 <= d).
    { destruct (Z_lt_le_dec d 2) as [Hlt|]; [|assumption]. exfalso.
      assert (Z.pos m < 2 ^ 1) by (apply Zdigits2_le_iff; lia).
      change (2 ^ 1) with 2 in *. lia. }
    unfold SF_two. rewrite SFdiv_unfold. cbv zeta.
    change (Zdigits2 (Z.pos 4503599627370496)) with 53. fold d.
    assert (E' : div_exp d e 53 (-51) = Z.max (d + e - 55) (-1074)).
    { unfold div_exp. rewrite fexp_eq. lia. }
    rewrite E'. set (e' := Z.max (d + e - 55) (-1074)).
    set (sh := e - -51 - e').
    assert (Hsh : 51 <= sh) by (unfold sh, e'; lia).
    pose proof (pow2_pos sh ltac:(lia)) as Hpsh.
    set (U := Z.pos m * 2 ^ sh).
    assert (HdU : Zdigits2 U = d + sh).
    { unfold U. apply Zdigits2_mul_pow2; lia. }
    assert (HU52 : 2 ^ 52 <= U).
    { unfold U. apply Z.le_trans with (2 * 2 ^ 51); [reflexivity|].
      apply Z.mul_le_mono_nonneg; [lia | lia | apply Z.lt_le_incl; reflexivity |].
      apply pow2_le. lia. }
    change (Z.pos 4503599627370496) with (2 ^ 52).
    rewrite bra_spec_pow2; [| lia | exact HU52 | rewrite HdU, fexp_eq; unfold sh, e'; lia].
    destruct U as [|M|M] eqn:EU; [exfalso; clear -HU52; lia | | exfalso; clear -HU52; lia].
    rewrite (bra_spec_val (xorb s false) M (e' - 52) 1127);
      [| discriminate | unfold e'; lia | rewrite HdU, fexp_eq; unfold sh, e'; lia].
    rewrite xorb_false_r. f_equal.
    rewrite <- EU. unfold U, Wval.
    rewrite <- Z.mul_assoc, <- Z.pow_add_r by (unfold e'; lia).
    replace (sh + (e' - 52 + 1127)) with ((e + 1074) + 52) by (unfold sh; lia).
    rewrite (Z.pow_add_r 2 (e + 1074) 52), Z.mul_assoc by lia.
    apply (rnd_shift 1075 52); [discriminate | discriminate |].
    apply Z.mul_nonneg_nonneg; [lia|]. apply Z.lt_le_incl, pow2_pos. lia.
Qed.

(** Halving: [x / 2.0]. *)
Lemma SFdiv_two (X : spec_float) :
  valid_binary X = true -> SFfin X = true ->
  SFdiv prec emax X SF_two = SF_of (SFsign X) (rnd 1075 (SFmag X)).
Proof.
  intros HX FX. destruct X as [s|s| |s m e]; try discriminate.
  - cbn [SFsign SFmag]. rewrite rnd_0 by discriminate. destruct s; reflexivity.
  - now apply SFdiv_two_finite.
Qed.

(** *** Signed rounding *)

Lemma srnd_mono (a V1 V2 : Z) : 1074 <= a -> V1 <= V2 -> srnd a V1 <= srnd a V2.
Proof.
  intros Ha H. unfold srnd.
  destruct (Z.ltb_spec V1 0) as [N1|P1], (Z.ltb_spec V2 0) as [N2|P2]; cbn [cond_Zopp].
  - assert (rnd a (Z.abs V2) <= rnd a (Z.abs V1)) by (apply rnd_mono; lia). lia.
  - pose proof (rnd_nonneg a (Z.abs V1) Ha ltac:(lia)).
    pose proof (rnd_nonneg a (Z.abs V2) Ha ltac:(lia)). lia.
  - lia.
  - apply rnd_mono; lia.
Qed.

Lemma rnd_1074_exact (W : Z) : repr W -> 0 <= W -> rnd 1074 W = W.
Proof.
  intros Hr HW. rewrite <- (Z.mul_1_r W) at 1. change 1 with (2 ^ (1074 - 1074)).
  apply rnd_exact; [apply Z.le_refl | exact HW | exact Hr].
Qed.

Lemma srnd_exact (W : Z) : repr (Z.abs W) -> srnd 1074 W = W.
Proof.
  intros Hr. unfold srnd. rewrite rnd_1074_exact by (try assumption; lia).
  destruct (Z.ltb_spec W 0); cbn [cond_Zopp]; lia.
Qed.

Lemma zval_SFr (a V : Z) :
  1074 <= a -> rnd a (Z.abs V) < 2 ^ 2098 ->
  valid_binary (SFr a V) = true /\ SFfin (SFr a V) = true /\ zval (SFr a V) = srnd a V.
Proof.
  intros Ha Hlt. unfold SFr, zval, srnd.
  assert (Hr : repr (rnd a (Z.abs V))) by (apply rnd_repr; lia).
  assert (H0 : 0 <= rnd a (Z.abs V)) by (apply rnd_nonneg; lia).
  destruct (SF_of_fin (V <? 0) _ Hr (conj H0 Hlt)) as (Hv & Hf & Hs & Hm).
  rewrite Hs, Hm. auto.
Qed.

Lemma SFr_inf (a V : Z) :
  2 ^ 2098 <= rnd a (Z.abs V) -> SFr a V = S754_infinity (V <? 0).
Proof. intros H. unfold SFr. now apply SF_of_inf. Qed.

Lemma SFcan_eq (R Z' : spec_float) :
  SFcan R = Z' -> (forall s, Z' <> S754_zero s) -> R = Z'.
Proof. intros E H. destruct R; cbn [SFcan] in E; try exact E. exfalso. now apply (H false). Qed.

Lemma SFcan_zero (R : spec_float) :
  SFcan R = S754_zero false -> exists s, R = S754_zero s.
Proof. destruct R; try discriminate. eauto. Qed.

(** The magnitude and the sign of a zero or a finite number, from its
    signed value. *)
Lemma zval_abs (X : spec_float) :
  valid_binary X = true -> SFfin X = true -> Z.abs (zval X) = SFmag X.
Proof.
  intros HX FX. destruct (fin_SF_of X HX FX) as (_ & _ & H0 & _).
  unfold zval. destruct (SFsign X); cbn [cond_Zopp]; lia.
Qed.

(** *** Finite floats *)

Lemma is_finite_SFfin (x : float) : is_finite x = SFfin (Prim2SF x).
Proof.
  unfold is_finite, is_nan, is_infinity. rewrite !eqb_spec, abs_spec.
  change (Prim2SF infinity) with (S754_infinity false).
  pose proof (Prim2SF_valid x) as Hv.
  destruct (Prim2SF x) as [s|s| |s m e].
  - destruct s; reflexivity.
  - destruct s; reflexivity.
  - reflexivity.
  - rewrite SFeqb_fin, Z.eqb_refl by (assumption || reflexivity). reflexivity.
Qed.

Lemma finite_float (x : float) :
  is_finite x = true ->
  valid_binary (Prim2SF x) = true /\ SFfin (Prim2SF x) = true.
Proof. intros H. rewrite is_finite_SFfin in H. split; [apply Prim2SF_valid | exact H]. Qed.

Lemma SFsub_fin_inv (X Y : spec_float) :
  SFfin (SFsub prec emax X Y) = true -> SFfin X = true /\ SFfin Y = true.
Proof.
  destruct X as [sx|sx| |sx mx ex], Y as [sy|sy| |sy my ey]; cbn [SFsub SFfin]; auto;
    try discriminate; destruct sx, sy; discriminate.
Qed.

(** *** Nonnegative values *)

Lemma nnv_sub (A B : spec_float) :
  valid_binary A = true -> valid_binary B = true ->
  SFfin A = true -> SFfin B = true -> zval A <= zval B ->
  nnv (SFsub prec emax B A) (rnd 1074 (zval B - zval A)).
Proof.
  intros HA HB FA FB Hle.
  pose proof (SFsub_val B A HB HA FB FA) as E. unfold SFr in E.
  rewrite (proj2 (Z.ltb_ge _ _)), Z.abs_eq in E by lia.
  destruct (Z.eq_dec (zval B - zval A) 0) as [E0|Hn0].
  - rewrite E0 in *. rewrite rnd_0 in * by apply Z.le_refl.
    left. split; [reflexivity|]. now apply SFcan_zero.
  - assert (Hp : 0 < rnd 1074 (zval B - zval A)) by (apply rnd_1074_ge; lia).
    right. split; [exact Hp|]. split; [apply rnd_repr; [apply Z.le_refl | lia]|].
    apply SFcan_eq; [exact E|]. intros s. now apply SF_of_pos_nz.
Qed.

Lemma nnv_add (X Y : spec_float) (Wx Wy : Z) :
  nnv X Wx -> nnv Y Wy -> nnv (SFadd prec emax X Y) (rnd 1074 (Wx + Wy)).
Proof.
  intros [[-> [sx ->]]|(Hx & Hrx & ->)] [[-> [sy ->]]|(Hy & Hry & ->)].
  - left. split; [reflexivity|]. destruct sx, sy; cbn [SFadd]; eauto.
  - rewrite Z.add_0_l, rnd_1074_exact by (try assumption; lia).
    rewrite SFadd_zero_l_pos by assumption. right. auto.
  - rewrite Z.add_0_r, rnd_1074_exact by (try assumption; lia).
    rewrite SFadd_zero_r_pos by assumption. right. auto.
  - rewrite SFadd_pos by assumption. right.
    split; [apply rnd_1074_ge; lia|]. split; [apply rnd_repr; [apply Z.le_refl | lia]|].
    reflexivity.
Qed.

Lemma nnv_double (X : spec_float) (W : Z) :
  nnv X W -> nnv (SFmul prec emax SF_two X) (2 * W).
Proof.
  intros [[-> [s ->]]|(Hp & Hr & ->)].
  - left. split; [reflexivity|]. destruct s; cbn; eauto.
  - rewrite SFmul_two_pos by assumption. right.
    split; [lia|]. split; [now apply repr_double | reflexivity].
Qed.

Lemma nnv_mul (X Y : spec_float) (Wx Wy : Z) :
  nnv X Wx -> nnv Y Wy -> Wx < 2 ^ 2098 -> Wy < 2 ^ 2098 ->
  nnv (SFmul prec emax X Y) (rnd 2148 (Wx * Wy)).
Proof.
  intros HX HY Hfx Hfy.
  assert (HZ : forall s, nnv (S754_zero s) 0) by (intros s; left; eauto).
  assert (HF : forall W, 0 < W -> repr W -> W < 2 ^ 2098 ->
               exists m e, SF_of false W = S754_finite false m e /\ Wval m e = W /\
                           valid_binary (S754_finite false m e) = true).
  { intros W H0 Hr Hlt. exact (SF_of_repr false W Hr (conj H0 Hlt)). }
  destruct HX as [[-> [sx ->]]|(Hx & Hrx & ->)], HY as [[-> [sy ->]]|(Hy & Hry & ->)].
  - rewrite Z.mul_0_l, rnd_0 by discriminate. apply HZ.
  - rewrite Z.mul_0_l, rnd_0 by discriminate.
    destruct (HF Wy Hy Hry Hfy) as (m & e & -> & _). apply HZ.
  - rewrite Z.mul_0_r, rnd_0 by discriminate.
    destruct (HF Wx Hx Hrx Hfx) as (m & e & -> & _). apply HZ.
  - destruct (HF Wx Hx Hrx Hfx) as (mx & ex & -> & Ex & Hvx).
    destruct (HF Wy Hy Hry Hfy) as (my & ey & -> & Ey & Hvy).
    rewrite SFmul_val by assumption. rewrite Ex, Ey. cbn [xorb].
    assert (H0 : 0 <= Wx * Wy) by (apply Z.mul_nonneg_nonneg; lia).
    pose proof (rnd_nonneg 2148 (Wx * Wy) ltac:(discriminate) H0) as Hn.
    destruct (Z.eq_dec (rnd 2148 (Wx * Wy)) 0) as [->|Hn0].
    + apply HZ.
    + right. split; [lia|]. split; [apply rnd_repr; [discriminate | exact H0] | reflexivity].
Qed.

Lemma nnv_leb (X Y : spec_float) (Wx Wy : Z) :
  nnv X Wx -> nnv Y Wy -> Wx <= Wy -> SFleb X Y = true.
Proof.
  intros [[-> [sx ->]]|(Hx & Hrx & ->)] [[-> [sy ->]]|(Hy & Hry & ->)] Hle.
  - reflexivity.
  - destruct (SF_of_pos_cases Wy Hry Hy) as [->|(m & e & ->)]; reflexivity.
  - exfalso. lia.
  - destruct (Z_lt_le_dec Wy (2 ^ 2098)) as [Hfy|Hiy].
    + assert (Hfx : Wx < 2 ^ 2098) by (apply Z.le_lt_trans with Wy; assumption).
      destruct (SF_of_fin false Wx Hrx (conj (Z.lt_le_incl _ _ Hx) Hfx)) as (V1 & F1 & S1 & M1).
      destruct (SF_of_fin false Wy Hry (conj (Z.lt_le_incl _ _ Hy) Hfy)) as (V2 & F2 & S2 & M2).
      rewrite SFleb_fin by assumption. unfold zval. rewrite S1, S2, M1, M2.
      cbn [cond_Zopp]. now apply Z.leb_le.
    + rewrite (SF_of_inf false Wy Hiy).
      destruct (SF_of_pos_cases Wx Hrx Hx) as [->|(m & e & ->)]; reflexivity.
Qed.

Lemma nnv_not_neg (X : spec_float) (W : Z) : nnv X W -> SFltb X (S754_zero false) = false.
Proof.
  intros [[-> [s ->]]|(Hp & Hr & ->)]; [reflexivity|].
  destruct (SF_of_pos_cases W Hr Hp) as [->|(m & e & ->)]; reflexivity.
Qed.

(** *** The class of the sizes of an ordered box *)

Lemma nnclass_not_neg (X : spec_float) : nnclass X -> SFltb X (S754_zero false) = false.
Proof.
  intros [|s|W Hr Hp]; [reflexivity | reflexivity |].
  destruct (SF_of_pos_cases W Hr Hp) as [->|(m & e & ->)]; reflexivity.
Qed.

Lemma nnclass_of_nnv (X : spec_float) (W : Z) : nnv X W -> nnclass X.
Proof. intros [[-> [s ->]]|(Hp & Hr & ->)]; now constructor. Qed.

Lemma nnclass_add (X Y : spec_float) :
  nnclass X -> nnclass Y -> nnclass (SFadd prec emax X Y).
Proof.
  intros [|sx|Wx Hrx Hx] HY.
  - constructor.
  - destruct HY as [|sy|Wy Hry Hy].
    + constructor.
    + destruct sx, sy; constructor.
    + rewrite SFadd_zero_l_pos by assumption. now constructor.
  - destruct HY as [|sy|Wy Hry Hy].
    + rewrite SFadd_nan_r. constructor.
    + rewrite SFadd_zero_r_pos by assumption. now constructor.
    + rewrite SFadd_pos by assumption.
      constructor; [apply rnd_repr; [apply Z.le_refl | lia] | apply rnd_1074_ge; lia].
Qed.

Lemma nnclass_mul (X Y : spec_float) :
  nnclass X -> nnclass Y -> nnclass (SFmul prec emax X Y).
Proof.
  assert (HP : forall W, repr W -> 0 < W ->
               SF_of false W = S754_infinity false \/
               exists m e, SF_of false W = S754_finite false m e /\ Wval m e = W /\
                           valid_binary (S754_finite false m e) = true).
  { intros W Hr Hp. destruct (Z_lt_le_dec W (2 ^ 2098)) as [Hf|Hi].
    - right. exact (SF_of_repr false W Hr (conj Hp Hf)).
    - left. now apply SF_of_inf. }
  intros [|sx|Wx Hrx Hx] HY.
  - constructor.
  - destruct HY as [|sy|Wy Hry Hy].
    + constructor.
    + cbn. constructor.
    + destruct (HP Wy Hry Hy) as [->|(m & e & -> & _)]; cbn; constructor.
  - destruct HY as [|sy|Wy Hry Hy].
    + destruct (SF_of false Wx); constructor.
    + destruct (HP Wx Hrx Hx) as [->|(m & e & -> & _)]; cbn; constructor.
    + destruct (HP Wx Hrx Hx) as [->|(mx & ex & -> & Ex & Hvx)],
               (HP Wy Hry Hy) as [->|(my & ey & -> & Ey & Hvy)].
      * exact nnclass_inf.
      * exact nnclass_inf.
      * exact nnclass_inf.
      * rewrite SFmul_val by assumption. rewrite Ex, Ey. cbn [xorb].
        assert (H0 : 0 <= Wx * Wy) by (apply Z.mul_nonneg_nonneg; lia).
        pose proof (rnd_nonneg 2148 (Wx * Wy) ltac:(discriminate) H0) as Hn.
        destruct (Z.eq_dec (rnd 2148 (Wx * Wy)) 0) as [->|Hn0].
        -- constructor.
        -- constructor; [apply rnd_repr; [discriminate | exact H0] | lia].
Qed.

(** ** Further properties of the runs *)

Lemma loop_ok_written (total : float) (rs : list QgsRectangle) :
  forall current,
    loop_outcome total current rs = Ok tt ->
    written_of (loop_trace total current rs) = map extent_record rs.
Proof.
  induction rs as [|r rs IH]; intros current H; [reflexivity|].
  cbn [loop_outcome loop_trace written_of map] in *.
  destruct (percentage total current) as [p|e]; [|discriminate].
  cbn [written_of]. now rewrite IH.
Qed.

Lemma Forall_firstn {A : Type} (P : A -> Prop) (k : nat) (l : list A) :
  Forall P l -> Forall P (firstn k l).
Proof.
  intros H. revert k. induction H as [|x l Hx Hl IH]; intros [|k]; cbn [firstn]; auto.
Qed.

Lemma Forall_map_record (H : QgsRectangle -> Prop) (P : QgsFeature -> Prop)
    (rs : list QgsRectangle) :
  (forall r, H r -> P (extent_record r)) ->
  Forall H rs -> Forall P (map extent_record rs).
Proof.
  intros HP HF. induction HF; cbn [map]; auto.
Qed.

Lemma last_app_cons {A : Type} (l1 l2 : list A) (d : A) :
  l2 <> [] -> last (l1 ++ l2) d = last l2 d.
Proof.
  intros H. induction l1 as [|x l1 IH]; [reflexivity|].
  cbn [app]. destruct (l1 ++ l2) eqn:E.
  - apply app_eq_nil in E. destruct E. congruence.
  - rewrite <- IH. reflexivity.
Qed.

Lemma last_map_record (rs : list QgsRectangle) (d : QgsRectangle) :
  rs <> [] -> last (map extent_record rs) emptyFeature = extent_record (last rs d).
Proof.
  induction rs as [|r rs IH]; intros H; [congruence|].
  destruct rs as [|r' rs']; [reflexivity|].
  cbn [map last] in *. apply IH. discriminate.
Qed.

Section RunRecords.

Variable G : Type.
Variable boundingBox : G -> QgsRectangle.

(** The records a run adds are the records of the first rectangles it
    reads; of all of them when the run raises nothing. *)
Lemma run_written (layer : QgsVectorLayer G) (byFeature : bool) (w : World) :
  exists k,
    written (snd (run boundingBox layer byFeature w)) =
    written w ++ map extent_record (firstn k (boxes_read boundingBox layer byFeature)) /\
    (fst (run boundingBox layer byFeature w) = Ok tt ->
     firstn k (boxes_read boundingBox layer byFeature) =
     boxes_read boundingBox layer byFeature).
Proof.
  unfold run, processAlgorithm, boxes_read. cbn [snd]. destruct byFeature.
  - pose proof (featureExtent_run G boundingBox layer w) as H.
    destruct (total_of (length (features layer))) as [total|e].
    + destruct H as (h & _ & _ & ->). cbn [fst snd]. unfold written. cbn [trace].
      rewrite written_of_app.
      destruct (loop_outcome total 0 (map (rect_of boundingBox) (features layer))) eqn:Ho.
      * exists (length (map (rect_of boundingBox) (features layer))).
        rewrite firstn_all. destruct a.
        rewrite (loop_ok_written _ _ _ Ho). auto.
      * destruct (loop_trace_written total (map (rect_of boundingBox) (features layer)) 0)
          as (k & _ & ->).
        exists k. split; [reflexivity | discriminate].
    + rewrite H. exists 0%nat. cbn [fst snd firstn map]. rewrite app_nil_r.
      split; [reflexivity | discriminate].
  - rewrite layerExtent_run. exists 1%nat. cbn [fst snd firstn map]. unfold written.
    cbn [trace]. rewrite written_of_app. auto.
Qed.

(** What holds of the record of every rectangle read holds of every record
    written. *)
Lemma run_records (H : QgsRectangle -> Prop) (P : QgsFeature -> Prop)
    (layer : QgsVectorLayer G) (byFeature : bool) (w : World) :
  (forall r, H r -> P (extent_record r)) ->
  Forall H (boxes_read boundingBox layer byFeature) ->
  exists fs,
    written (snd (run boundingBox layer byFeature w)) = written w ++ fs /\
    Forall P fs /\
    (fst (run boundingBox layer byFeature w) = Ok tt ->
     length fs = length (boxes_read boundingBox layer byFeature)).
Proof.
  intros HP HF. destruct (run_written layer byFeature w) as (k & Hw & Hk).
  exists (map extent_record (firstn k (boxes_read boundingBox layer byFeature))).
  split; [exact Hw|]. split.
  - apply (Forall_map_record H P); [exact HP | now apply Forall_firstn].
  - intros Hok. rewrite (Hk Hok). apply length_map.
Qed.

(** With fewer than [2^63] features the records a run adds are the records
    of all the rectangles it reads, in order (none on the empty layer in
    per-feature mode, where it raises before the loop). *)
Lemma run_written_all (layer : QgsVectorLayer G) (byFeature : bool) (w : World) :
  Z.of_nat (length (features layer)) < 2 ^ 63 ->
  written (snd (run boundingBox layer byFeature w)) =
  written w ++ map extent_record (boxes_read boundingBox layer byFeature).
Proof.
  intros Hn. destruct (run_written layer byFeature w) as (k & Hw & Hk).
  destruct byFeature.
  - destruct layer as [ext [|f fs]].
    + unfold run, processAlgorithm, boxes_read. cbn [snd features map].
      rewrite featureExtent_empty. cbn [snd]. now rewrite app_nil_r.
    + rewrite Hw, Hk; [reflexivity|].
      unfold run, processAlgorithm. cbn [snd].
      destruct (featureExtent_full G boundingBox (mkLayer ext (f :: fs)) w)
        as (total & Wt & Wq & h & _ & _ & _ & _ & _ & _ & _ & ->);
        [cbn; lia | exact Hn | reflexivity].
  - rewrite Hw, Hk; [reflexivity|].
    unfold run, processAlgorithm. cbn [snd]. now rewrite layerExtent_run.
Qed.

(** The object the loop reuses holds, after a loop that ran to its end
    over at least one feature, the record of the last feature. *)
Lemma featureExtent_loop_last (total : float) (feat : ref) (d : QgsRectangle)
    (fs : list (InFeature G)) :
  forall (current : Z) (w : World),
    (feat < length (heap w))%nat -> fs <> [] ->
    loop_outcome total current (map (rect_of boundingBox) fs) = Ok tt ->
    nth feat (heap (snd (featureExtent_loop boundingBox total feat current fs w)))
        emptyFeature =
    extent_record (last (map (rect_of boundingBox) fs) d).
Proof.
  induction fs as [|f rest IH]; intros current w Hf Hne Ho; [congruence|].
  cbn [featureExtent_loop map loop_outcome] in *. unfold bind at 1.
  rewrite featureExtent_body_run by assumption. cbv zeta.
  destruct (percentage total current) as [p|e]; [|discriminate].
  destruct rest as [|g rest'].
  - cbn [featureExtent_loop map last]. unfold ret. cbn [snd heap].
    now apply nth_update_nth_eq.
  - rewrite IH; [reflexivity | | discriminate | exact Ho].
    cbn [heap]. now rewrite update_nth_length.
Qed.

Lemma featureExtent_heap (layer : QgsVectorLayer G) (w : World) (total : float) :
  total_of (length (features layer)) = Ok total ->
  featureExtent boundingBox layer w =
  featureExtent_loop boundingBox total (length (heap w)) 0 (features layer)
    (mkWorld (heap w ++ [emptyFeature]) (trace w)).
Proof.
  unfold featureExtent, total_of, bind, lift, newQgsFeature.
  destruct (float_of_int (Z.of_nat (length (features layer)))) as [nf|e]; [|discriminate].
  destruct (float_truediv f100_0 nf) as [t|e]; [|discriminate].
  intros E. injection E as ->. reflexivity.
Qed.

End RunRecords.

Arguments run_written {G} _ _ _ _.
Arguments run_records {G} _ _ _ _ _ _ _ _.
Arguments run_written_all {G} _ _ _ _ _.
Arguments featureExtent_loop_last {G} _ _ _ _ _ _ _ _ _ _.
Arguments featureExtent_heap {G} _ _ _ _ _.

(** X1: [featureExtent] allocates one [QgsFeature] object, before the
    loop, and writes every record from it.  After a run on a non-empty
    layer (of fewer than [2^63] features) the heap holds exactly one more
    object, the objects that existed are unchanged, and the new object
    holds the record of the last feature, which is the last record
    written. *)
Theorem X1_featureExtent_one_object {G : Type} (boundingBox : G -> QgsRectangle)
    (layer : QgsVectorLayer G) (w : World) :
  features layer <> [] ->
  Z.of_nat (length (features layer)) < 2 ^ 63 ->
  let w' := snd (featureExtent boundingBox layer w) in
  let r := last (map (rect_of boundingBox) (features layer)) (extent layer) in
  length (heap w') = S (length (heap w)) /\
  (forall k, (k < length (heap w))%nat ->
             nth k (heap w') emptyFeature = nth k (heap w) emptyFeature) /\
  deref (length (heap w)) w' = extent_record r /\
  last (written w') emptyFeature = extent_record r.
Proof.
  intros Hne Hn w' r.
  assert (Hn0 : (0 < length (features layer))%nat).
  { destruct (features layer); [congruence | cbn; lia]. }
  destruct (featureExtent_full G boundingBox layer w Hn0 Hn)
    as (total & Wt & Wq & h & Htot & Ht & _ & _ & _ & _ & Hp & Hrun).
  pose proof (featureExtent_run G boundingBox layer w) as Hr.
  rewrite Htot in Hr. destruct Hr as (h' & Hl & Hk & Hrun').
  assert (Ho : loop_outcome total 0 (map (rect_of boundingBox) (features layer)) = Ok tt).
  { rewrite Hrun in Hrun'. now injection Hrun' as <- _. }
  split; [|split; [|split]].
  - unfold w'. rewrite Hrun'. exact Hl.
  - unfold w'. rewrite Hrun'. exact Hk.
  - unfold w', deref. rewrite (featureExtent_heap boundingBox layer w total Htot).
    apply featureExtent_loop_last; [|exact Hne|exact Ho].
    cbn [heap]. rewrite length_app. cbn. lia.
  - unfold w', written. rewrite Hrun'. cbn [snd trace]. rewrite written_of_app.
    rewrite (loop_ok_written _ _ _ Ho).
    assert (Hm : map (rect_of boundingBox) (features layer) <> []).
    { intros E. apply map_eq_nil in E. congruence. }
    rewrite last_app_cons.
    + now apply last_map_record.
    + intros E. apply map_eq_nil in E. congruence.
Qed.

Lemma X1_witness :
  two_features <> [] /\
  Z.of_nat (length two_features) < 2 ^ 63 /\
  let layer := mkLayer box_0_0_4_2 two_features in
  let w' := snd (featureExtent (fun r => r) layer emptyWorld) in
  let r := last (map (rect_of (fun r => r)) (features layer)) (extent layer) in
  length (heap w') = S (length (heap emptyWorld)) /\
  (forall k, (k < length (heap emptyWorld))%nat ->
             nth k (heap w') emptyFeature = nth k (heap emptyWorld) emptyFeature) /\
  deref (length (heap emptyWorld)) w' = extent_record r /\
  last (written w') emptyFeature = extent_record r.
Proof.
  split; [discriminate|]. split; [reflexivity|].
  apply (X1_featureExtent_one_object (fun r => r) (mkLayer box_0_0_4_2 two_features)
           emptyWorld); [discriminate | reflexivity].
Defined.

(** X2: a run of [processAlgorithm] (on fewer than [2^63] features) raises
    exactly when it is asked for the extents of the features of a layer
    that has none, and what it raises then is [ZeroDivisionError]; every
    other run returns, whatever the coordinates are. *)
Theorem X2_processAlgorithm_outcome {G : Type} (boundingBox : G -> QgsRectangle)
    (layer : QgsVectorLayer G) (byFeature : bool) (w : World) :
  Z.of_nat (length (features layer)) < 2 ^ 63 ->
  fst (run boundingBox layer byFeature w) =
  if byFeature && (length (features layer) =? 0)%nat
  then Raise ZeroDivisionError else Ok tt.
Proof.
  intros Hn. unfold run, processAlgorithm. cbn [snd]. destruct byFeature; cbn [andb].
  - destruct (Nat.eqb_spec (length (features layer)) 0) as [E|E].
    + destruct layer as [ext fs]. cbn [features] in E.
      apply length_zero_iff_nil in E. subst fs. reflexivity.
    + destruct (featureExtent_full G boundingBox layer w ltac:(lia) Hn)
        as (total & Wt & Wq & h & _ & _ & _ & _ & _ & _ & _ & ->). reflexivity.
  - now rewrite layerExtent_run.
Qed.

Lemma X2_witness :
  Z.of_nat (length two_features) < 2 ^ 63 /\
  fst (run (fun r => r) (mkLayer box_0_0_4_2 two_features) true emptyWorld) = Ok tt.
Proof.
  split; [reflexivity|].
  apply (X2_processAlgorithm_outcome (fun r => r) (mkLayer box_0_0_4_2 two_features)
           true emptyWorld). reflexivity.
Defined.

(** ** The attributes of one record, as numbers *)

Lemma Prim2SF_two : Prim2SF 2 = SF_two.
Proof. reflexivity. Qed.

(** *** Sizes are not negative *)

Lemma sizes_not_negative (a b c d : float) :
  (a <=? b)%float = true -> (c <=? d)%float = true ->
  let w := (b - a)%float in
  let h := (d - c)%float in
  (w * h <? 0)%float = false /\ (2 * w + 2 * h <? 0)%float = false /\
  (h <? 0)%float = false /\ (w <? 0)%float = false.
Proof.
  intros Hab Hcd w h. rewrite leb_spec in Hab, Hcd.
  assert (Hw : nnclass (Prim2SF w)).
  { unfold w. rewrite sub_spec. apply SFsub_nnclass; auto using Prim2SF_valid. }
  assert (Hh : nnclass (Prim2SF h)).
  { unfold h. rewrite sub_spec. apply SFsub_nnclass; auto using Prim2SF_valid. }
  rewrite !ltb_spec, add_spec, !mul_spec, Prim2SF_two.
  change (Prim2SF 0) with (S754_zero false).
  repeat split; apply nnclass_not_neg; auto using nnclass_mul, nnclass_add, nnclass_double.
Qed.

(** *** The centre lies in the box *)

Lemma half_le (D : Z) : 0 <= D -> rnd 1075 (rnd 1074 D) <= D.
Proof.
  intros HD. destruct (Z.eq_dec D 0) as [->|Hn0].
  - rewrite (rnd_0 1074), (rnd_0 1075) by discriminate. apply Z.le_refl.
  - pose proof (Zdigits2_bounds D ltac:(lia)) as [Hlo Hhi].
    pose proof (Zdigits2_pos D ltac:(lia)) as Hd.
    set (d := Zdigits2 D) in *.
    assert (H1 : rnd 1074 D <= 2 ^ d).
    { apply rnd_le_pow2; [apply Z.le_refl | lia | lia |].
      change (2 ^ (1074 - 1074)) with 1. lia. }
    assert (H2 : rnd 1075 (rnd 1074 D) <= 2 ^ (d - 1)).
    { apply rnd_le_pow2; [discriminate | apply rnd_nonneg; [apply Z.le_refl | lia] | lia |].
      change (2 ^ (1075 - 1074)) with (2 ^ 1). rewrite <- Z.pow_add_r by lia.
      replace (d - 1 + 1) with d by lia. exact H1. }
    lia.
Qed.

(** A difference [b - a] of finite numbers, [a <= b], that is finite. *)
Lemma width_val (A B : spec_float) :
  valid_binary A = true -> valid_binary B = true ->
  SFfin A = true -> SFfin B = true -> zval A <= zval B ->
  SFfin (SFsub prec emax B A) = true ->
  let S := rnd 1074 (zval B - zval A) in
  S < 2 ^ 2098 /\ SFmag (SFsub prec emax B A) = S /\
  (0 < S -> SFsign (SFsub prec emax B A) = false).
Proof.
  intros VA VB FA FB Hle FW S.
  destruct (nnv_sub A B VA VB FA FB Hle) as [[E0 [s E]]|(Hp & Hr & E)]; fold S in E0 || fold S in Hp, Hr, E.
  - rewrite E, E0. split; [reflexivity|]. split; [reflexivity|]. intros H. inversion H.
  - assert (Hlt : S < 2 ^ 2098).
    { destruct (Z_lt_le_dec S (2 ^ 2098)) as [|Hi]; [assumption|]. exfalso.
      rewrite E, (SF_of_inf false S Hi) in FW. discriminate. }
    destruct (SF_of_fin false S Hr (conj (Z.lt_le_incl _ _ Hp) Hlt)) as (_ & _ & Hs & Hm).
    rewrite E. auto.
Qed.

Lemma centre_inside (a b : float) :
  (a <=? b)%float = true -> is_finite (b - a) = true ->
  (a <=? a + (b - a) / 2)%float = true /\ (a + (b - a) / 2 <=? b)%float = true.
Proof.
  intros Hab Hfin. rewrite is_finite_SFfin, sub_spec in Hfin.
  destruct (SFsub_fin_inv _ _ Hfin) as [FB FA].
  pose proof (Prim2SF_valid a) as VA. pose proof (Prim2SF_valid b) as VB.
  rewrite leb_spec, SFleb_fin in Hab by assumption. apply Z.leb_le in Hab.
  pose proof (Prim2SF_valid (b - a)) as VW. rewrite sub_spec in VW.
  destruct (width_val _ _ VA VB FA FB Hab Hfin) as (HS & HM & Hsg).
  pose proof (Prim2SF_valid ((b - a) / 2)) as VH.
  rewrite div_spec, sub_spec, Prim2SF_two in VH.
  pose proof (Prim2SF_valid (a + (b - a) / 2)) as VC.
  rewrite add_spec, div_spec, sub_spec, Prim2SF_two in VC.
  rewrite !leb_spec, add_spec, div_spec, sub_spec, Prim2SF_two.
  unfold SF64add, SF64sub, SF64div in *.
  set (A := Prim2SF a) in *. set (B := Prim2SF b) in *.
  set (W := SFsub prec emax B A) in *.
  set (S := rnd 1074 (zval B - zval A)) in *.
  assert (HS0 : 0 <= S) by (apply rnd_nonneg; [apply Z.le_refl | lia]).
  (* the half *)
  pose proof (SFdiv_two W VW Hfin) as EH. rewrite HM in EH.
  set (H := rnd 1075 S) in *.
  assert (HH0 : 0 <= H) by (apply rnd_nonneg; [discriminate | exact HS0]).
  assert (HHD : H <= zval B - zval A) by (apply half_le; lia).
  assert (HHr : repr H) by (apply rnd_repr; [discriminate | exact HS0]).
  destruct (fin_SF_of A VA FA) as (_ & HrA & HA0 & HAlt).
  destruct (fin_SF_of B VB FB) as (_ & HrB & HB0 & HBlt).
  rewrite <- (zval_abs A VA FA) in HrA, HAlt. rewrite <- (zval_abs B VB FB) in HrB, HBlt.
  assert (HrS : repr S) by (apply rnd_repr; [apply Z.le_refl | lia]).
  assert (HHS : H <= S).
  { apply rnd_le_repr; [discriminate | exact HS0 | exact HS0 | exact HrS |].
    change (2 ^ (1075 - 1074)) with 2. lia. }
  assert (HHlt : H < 2 ^ 2098) by (apply Z.le_lt_trans with S; assumption).
  destruct (SF_of_fin (SFsign W) H HHr (conj HH0 HHlt)) as (VHf & FHf & SHf & MHf).
  assert (ZH : zval (SF_of (SFsign W) H) = H).
  { unfold zval. rewrite SHf, MHf. destruct (Z.eq_dec H 0) as [E0|Hn0].
    - rewrite E0. destruct (SFsign W); reflexivity.
    - rewrite Hsg; [reflexivity|].
      destruct (Z.eq_dec S 0) as [ES|]; [|lia].
      exfalso. apply Hn0. unfold H. rewrite ES. apply rnd_0. discriminate. }
  rewrite EH in VC |- *.
  pose proof (SFadd_val A _ VA VHf FA FHf) as EC. rewrite ZH in EC.
  set (V := zval A + H) in *.
  assert (HV : rnd 1074 (Z.abs V) < 2 ^ 2098).
  { destruct (Z_lt_le_dec V 0) as [Hn|Hp].
    - apply Z.le_lt_trans with (Z.abs (zval A)); [|exact HAlt].
      apply rnd_le_repr; [apply Z.le_refl | lia | lia | exact HrA |].
      change (2 ^ (1074 - 1074)) with 1. unfold V in *. lia.
    - apply Z.le_lt_trans with (Z.abs (zval B)); [|exact HBlt].
      apply rnd_le_repr; [apply Z.le_refl | lia | lia | exact HrB |].
      change (2 ^ (1074 - 1074)) with 1. unfold V in *. lia. }
  destruct (zval_SFr 1074 V (Z.le_refl _) HV) as (_ & FC & ZC).
  rewrite <- EC, SFcan_fin in FC. rewrite <- EC, zval_SFcan in ZC.
  rewrite !SFleb_fin by assumption. rewrite ZC.
  split; apply Z.leb_le.
  - rewrite <- (srnd_exact (zval A) HrA) at 1. apply srnd_mono; [apply Z.le_refl|].
    unfold V. lia.
  - rewrite <- (srnd_exact (zval B) HrB). apply srnd_mono; [apply Z.le_refl|].
    unfold V. lia.
Qed.

(** *** The box of a point *)

Lemma SFsub_self (X : spec_float) :
  valid_binary X = true -> SFfin X = true -> SFsub prec emax X X = S754_zero false.
Proof.
  destruct X as [s|s| |s m e]; try discriminate; intros V _.
  - destruct s; reflexivity.
  - rewrite SFsub_finite by (eapply valid_exp; eassumption).
    rewrite Z.sub_diag. apply SFr_0, Z.le_refl.
Qed.

Lemma sub_self (x : float) : is_finite x = true -> (x - x)%float = 0%float.
Proof.
  intros H. destruct (finite_float x H) as [V F]. apply Prim2SF_inj.
  rewrite sub_spec. unfold SF64sub. now rewrite SFsub_self.
Qed.

Lemma add_zero_eq (x : float) : is_finite x = true -> (x + 0 =? x)%float = true.
Proof.
  intros H. destruct (finite_float x H) as [V F].
  rewrite eqb_spec, add_spec. unfold SF64add. change (Prim2SF 0) with (S754_zero false).
  destruct (Prim2SF x) as [s|s| |s m e]; try discriminate.
  - destruct s; reflexivity.
  - cbn [SFadd]. rewrite SFeqb_fin by assumption. apply Z.eqb_refl.
Qed.

Lemma point_box (x y : float) :
  is_finite x = true -> is_finite y = true ->
  exists cx cy,
    extent_attributes (mkRect x y x y) = [x; y; x; y; cx; cy; 0; 0; 0; 0]%float /\
    (cx =? x)%float = true /\ (cy =? y)%float = true.
Proof.
  intros Hx Hy. unfold extent_attributes, rect_width, rect_height.
  cbn [xMinimum yMinimum xMaximum yMaximum].
  rewrite (sub_self x Hx), (sub_self y Hy).
  exists (x + 0)%float, (y + 0)%float. split; [reflexivity|].
  split; now apply add_zero_eq.
Qed.

(** *** Integer coordinates *)

Lemma int_scaled (z k : Z) :
  Z.abs z <= 2 ^ 53 -> 0 <= k <= 1074 ->
  repr (Z.abs z * 2 ^ k) /\ 0 <= Z.abs z * 2 ^ k < 2 ^ 2098.
Proof.
  intros Hz Hk. pose proof (pow2_pos k ltac:(lia)) as Hp.
  split; [apply repr_mul_pow2; lia|]. split; [apply Z.mul_nonneg_nonneg; lia|].
  apply Z.le_lt_trans with (2 ^ 53 * 2 ^ 1074); [|reflexivity].
  apply Z.mul_le_mono_nonneg; [lia | exact Hz | lia | apply pow2_le; lia].
Qed.

Lemma SFr_scaled (z k : Z) :
  Z.abs z <= 2 ^ 53 -> 0 <= k <= 1074 ->
  SFr 1074 (z * 2 ^ k) = SF_of (z <? 0) (Z.abs z * 2 ^ k).
Proof.
  intros Hz Hk. pose proof (pow2_pos k ltac:(lia)) as Hp.
  destruct (int_scaled z k Hz Hk) as (Hr & H0 & _).
  unfold SFr. rewrite Z.abs_mul, (Z.abs_eq (2 ^ k)) by lia.
  rewrite rnd_1074_exact by assumption. f_equal.
  destruct (Z.ltb_spec z 0), (Z.ltb_spec (z * 2 ^ k) 0); try reflexivity; exfalso; nia.
Qed.

Lemma SFint_fin (z : Z) :
  Z.abs z <= 2 ^ 53 ->
  valid_binary (SFint z) = true /\ SFfin (SFint z) = true /\
  zval (SFint z) = z * 2 ^ 1074 /\ SFsign (SFint z) = (z <? 0) /\
  SFmag (SFint z) = Z.abs z * 2 ^ 1074 /\ SFint z <> S754_zero true.
Proof.
  intros Hz. destruct (int_scaled z 1074 Hz ltac:(lia)) as (Hr & HW).
  destruct (SF_of_fin (z <? 0) _ Hr HW) as (V & F & S & M). fold (SFint z) in V, F, S, M.
  split; [exact V|]. split; [exact F|]. split; [|split; [exact S|split; [exact M|]]].
  - unfold zval. rewrite S, M. destruct (Z.ltb_spec z 0); cbn [cond_Zopp].
    + rewrite Z.abs_neq by lia. ring.
    + rewrite Z.abs_eq by lia. reflexivity.
  - intros E. rewrite E in S. cbn [SFsign] in S. symmetry in S. apply Z.ltb_lt in S.
    rewrite E in M. cbn [SFmag] in M.
    pose proof (pow2_pos 1074 ltac:(lia)) as Hp. hide_big. nia.
Qed.

Lemma float_of_int_int (z : Z) :
  Z.abs z <= 2 ^ 53 ->
  float_of_int z = Ok (SF2Prim (SFint z)) /\ Prim2SF (SF2Prim (SFint z)) = SFint z.
Proof.
  intros Hz. destruct (SFint_fin z Hz) as (V & F & _).
  split; [|now apply Prim2SF_SF2Prim].
  unfold float_of_int. rewrite binary_normalize_SFr by discriminate.
  change (0 + 1074) with 1074. rewrite SFr_scaled by (try assumption; lia).
  fold (SFint z). destruct (SFint z); try reflexivity; discriminate.
Qed.

Lemma float_of_int_inv (z : Z) (x : float) :
  Z.abs z <= 2 ^ 53 -> float_of_int z = Ok x -> Prim2SF x = SFint z.
Proof.
  intros Hz E. destruct (float_of_int_int z Hz) as [E' P].
  rewrite E' in E. injection E as <-. exact P.
Qed.

Lemma SFcan_id (R : spec_float) : R <> S754_zero true -> SFcan R = R.
Proof. destruct R as [[|]| | |]; try reflexivity. intros H. now elim H. Qed.

Lemma SFsub_int (a b : Z) :
  Z.abs a <= 2 ^ 53 -> Z.abs b <= 2 ^ 53 -> Z.abs (a - b) <= 2 ^ 53 ->
  SFsub prec emax (SFint a) (SFint b) = SFint (a - b).
Proof.
  intros Ha Hb Hab.
  destruct (SFint_fin a Ha) as (Va & Fa & Za & _ & _ & Na).
  destruct (SFint_fin b Hb) as (Vb & Fb & Zb & _).
  rewrite <- (SFcan_id (SFsub prec emax (SFint a) (SFint b))).
  - rewrite SFsub_val by assumption. rewrite Za, Zb, <- Z.mul_sub_distr_r.
    apply SFr_scaled; [exact Hab | lia].
  - intros E. apply SFsub_nz in E; [|assumption|assumption]. now destruct E.
Qed.

Lemma SFadd_int (a b : Z) :
  Z.abs a <= 2 ^ 53 -> Z.abs b <= 2 ^ 53 -> Z.abs (a + b) <= 2 ^ 53 ->
  SFadd prec emax (SFint a) (SFint b) = SFint (a + b).
Proof.
  intros Ha Hb Hab.
  destruct (SFint_fin a Ha) as (Va & Fa & Za & _ & _ & Na).
  destruct (SFint_fin b Hb) as (Vb & Fb & Zb & _).
  rewrite <- (SFcan_id (SFadd prec emax (SFint a) (SFint b))).
  - rewrite SFadd_val by assumption. rewrite Za, Zb, <- Z.mul_add_distr_r.
    apply SFr_scaled; [exact Hab | lia].
  - intros E. apply SFadd_nz in E; [|assumption|assumption]. now destruct E.
Qed.

Lemma SFmul_int (a b : Z) :
  0 <= a -> 0 <= b -> a <= 2 ^ 53 -> b <= 2 ^ 53 -> a * b <= 2 ^ 53 ->
  SFmul prec emax (SFint a) (SFint b) = SFint (a * b).
Proof.
  intros Ha0 Hb0 Ha Hb Hab.
  destruct (SFint_fin a ltac:(lia)) as (Va & Fa & _ & Sa & Ma & _).
  destruct (SFint_fin b ltac:(lia)) as (Vb & Fb & _ & Sb & Mb & _).
  assert (Hab0 : 0 <= a * b) by (apply Z.mul_nonneg_nonneg; assumption).
  rewrite SFmul_fin by assumption. rewrite Sa, Sb, Ma, Mb.
  rewrite !(proj2 (Z.ltb_ge _ _)) by assumption. cbn [xorb].
  unfold SFint. rewrite (proj2 (Z.ltb_ge _ _)) by assumption.
  rewrite !Z.abs_eq by assumption. f_equal.
  destruct (int_scaled (a * b) 1074 ltac:(lia) ltac:(lia)) as (Hr & H0 & _).
  rewrite Z.abs_eq in Hr, H0 by assumption.
  replace (a * 2 ^ 1074 * (b * 2 ^ 1074)) with (a * b * 2 ^ 1074 * 2 ^ (2148 - 1074))
    by (change (2148 - 1074) with 1074; ring).
  apply rnd_exact; [discriminate | exact H0 | exact Hr].
Qed.

Lemma SFhalf_int (z : Z) :
  Z.abs z <= 2 ^ 53 ->
  SFdiv prec emax (SFint z) SF_two = SF_of (z <? 0) (Z.abs z * 2 ^ 1073).
Proof.
  intros Hz. destruct (SFint_fin z Hz) as (V & F & _ & S & M & _).
  rewrite SFdiv_two by assumption. rewrite S, M. f_equal.
  destruct (int_scaled z 1073 Hz ltac:(lia)) as (Hr & H0 & _).
  replace (Z.abs z * 2 ^ 1074) with (Z.abs z * 2 ^ 1073 * 2 ^ (1075 - 1074))
    by (change (1075 - 1074) with 1; change (2 ^ 1074) with (2 ^ 1073 * 2 ^ 1); ring).
  apply rnd_exact; [discriminate | exact H0 | exact Hr].
Qed.

Lemma SFcentre_int (a b : Z) :
  Z.abs a <= 2 ^ 53 -> a <= b -> b - a <= 2 ^ 53 -> Z.abs (a + b) <= 2 ^ 53 ->
  SFadd prec emax (SFint a) (SFdiv prec emax (SFint (b - a)) SF_two) =
  SFdiv prec emax (SFint (a + b)) SF_two.
Proof.
  intros Ha Hab Hw Hs.
  destruct (SFint_fin a Ha) as (Va & Fa & Za & _ & _ & Na).
  rewrite !SFhalf_int by (try assumption; lia).
  rewrite (proj2 (Z.ltb_ge (b - a) 0)) by lia.
  destruct (int_scaled (b - a) 1073 ltac:(lia) ltac:(lia)) as (Hr & HW).
  destruct (SF_of_fin false _ Hr HW) as (Vh & Fh & Sh & Mh).
  rewrite <- (SFcan_id (SFadd prec emax (SFint a) (SF_of false (Z.abs (b - a) * 2 ^ 1073)))).
  - rewrite SFadd_val by assumption. rewrite Za. unfold zval at 1. rewrite Sh, Mh.
    cbn [cond_Zopp]. rewrite Z.abs_eq by lia.
    replace (a * 2 ^ 1074 + (b - a) * 2 ^ 1073) with ((a + b) * 2 ^ 1073)
      by (change (2 ^ 1074) with (2 ^ 1073 * 2 ^ 1); ring).
    apply SFr_scaled; [exact Hs | lia].
  - intros E. apply SFadd_nz in E; [|assumption|assumption]. now destruct E.
Qed.

Lemma SFint_2 : SFint 2 = SF_two.
Proof. reflexivity. Qed.

Lemma int_box (x0 y0 x1 y1 : Z) (r : QgsRectangle) :
  Z.abs x0 <= 2 ^ 25 -> Z.abs y0 <= 2 ^ 25 ->
  Z.abs x1 <= 2 ^ 25 -> Z.abs y1 <= 2 ^ 25 ->
  x0 <= x1 -> y0 <= y1 ->
  float_of_int x0 = Ok (xMinimum r) -> float_of_int y0 = Ok (yMinimum r) ->
  float_of_int x1 = Ok (xMaximum r) -> float_of_int y1 = Ok (yMaximum r) ->
  exists cx cy area perim h w sx sy,
    extent_attributes r =
    [xMinimum r; yMinimum r; xMaximum r; yMaximum r; cx; cy; area; perim; h; w] /\
    float_of_int (x1 - x0) = Ok w /\
    float_of_int (y1 - y0) = Ok h /\
    float_of_int ((x1 - x0) * (y1 - y0)) = Ok area /\
    float_of_int (2 * (x1 - x0) + 2 * (y1 - y0)) = Ok perim /\
    float_of_int (x0 + x1) = Ok sx /\ float_truediv sx f2_0 = Ok cx /\
    float_of_int (y0 + y1) = Ok sy /\ float_truediv sy f2_0 = Ok cy.
Proof.
  intros Bx0 By0 Bx1 By1 Hx Hy Ex0 Ey0 Ex1 Ey1.
  change (2 ^ 25) with 33554432 in *.
  assert (B53 : 2 ^ 53 = 9007199254740992) by reflexivity.
  apply float_of_int_inv in Ex0, Ey0, Ex1, Ey1; try (rewrite B53; lia).
  set (F := fun z => SF2Prim (SFint z)).
  assert (HF : forall z, Z.abs z <= 2 ^ 53 ->
                float_of_int z = Ok (F z) /\ Prim2SF (F z) = SFint z).
  { intros z Hz. now apply float_of_int_int. }
  assert (HP : forall z, Z.abs z <= 2 ^ 53 -> Prim2SF (F z) = SFint z).
  { intros z Hz. now apply HF. }
  assert (Ew : rect_width r = F (x1 - x0)).
  { apply Prim2SF_inj. unfold rect_width. rewrite sub_spec. unfold SF64sub.
    rewrite Ex0, Ex1, SFsub_int by (rewrite B53; lia).
    symmetry. apply HF. rewrite B53. lia. }
  assert (Eh : rect_height r = F (y1 - y0)).
  { apply Prim2SF_inj. unfold rect_height. rewrite sub_spec. unfold SF64sub.
    rewrite Ey0, Ey1, SFsub_int by (rewrite B53; lia).
    symmetry. apply HF. rewrite B53. lia. }
  assert (Ea : (rect_width r * rect_height r)%float = F ((x1 - x0) * (y1 - y0))).
  { apply Prim2SF_inj. rewrite mul_spec, Ew, Eh. unfold SF64mul.
    rewrite !HP by (rewrite ?B53; try lia; nia).
    apply SFmul_int; rewrite ?B53; try lia; nia. }
  assert (Ep : (2 * rect_width r + 2 * rect_height r)%float =
               F (2 * (x1 - x0) + 2 * (y1 - y0))).
  { apply Prim2SF_inj. rewrite add_spec, !mul_spec, Ew, Eh, Prim2SF_two, <- SFint_2.
    unfold SF64add, SF64mul.
    rewrite !HP by (rewrite ?B53; lia).
    rewrite !SFmul_int by (rewrite ?B53; lia).
    apply SFadd_int; rewrite B53; lia. }
  assert (Ecx : (xMinimum r + rect_width r / 2)%float = (F (x0 + x1)%Z / 2)%float).
  { apply Prim2SF_inj. rewrite add_spec, !div_spec, Ew, Ex0, Prim2SF_two.
    unfold SF64add, SF64div.
    rewrite !HP by (rewrite ?B53; lia).
    apply SFcentre_int; rewrite ?B53; lia. }
  assert (Ecy : (yMinimum r + rect_height r / 2)%float = (F (y0 + y1)%Z / 2)%float).
  { apply Prim2SF_inj. rewrite add_spec, !div_spec, Eh, Ey0, Prim2SF_two.
    unfold SF64add, SF64div.
    rewrite !HP by (rewrite ?B53; lia).
    apply SFcentre_int; rewrite ?B53; lia. }
  exists (F (x0 + x1)%Z / 2)%float, (F (y0 + y1)%Z / 2)%float,
         (F ((x1 - x0) * (y1 - y0))), (F (2 * (x1 - x0) + 2 * (y1 - y0))),
         (F (y1 - y0)), (F (x1 - x0)), (F (x0 + x1)), (F (y0 + y1)).
  split.
  { unfold extent_attributes. now rewrite Ecx, Ecy, Ea, Ep, Ew, Eh. }
  repeat split; try apply float_truediv_2; apply HF; rewrite B53; try lia; nia.
Qed.

(** *** Nested boxes *)

Lemma fin_between (A' A B B' : spec_float) :
  SFfin A' = true -> SFfin B' = true ->
  SFleb A' A = true -> SFleb A B = true -> SFleb B B' = true ->
  SFfin A = true /\ SFfin B = true.
Proof.
  intros FA' FB'. unfold SFleb.
  destruct A' as [sa'|sa'| |sa' ma' ea'], B' as [sb'|sb'| |sb' mb' eb']; try discriminate;
    destruct A as [sa|sa| |sa ma ea], B as [sb|sb| |sb mb eb];
    cbn [SFfin]; intros H1 H2 H3; auto;
    try (destruct sa); try (destruct sb); cbn in H1, H2, H3; discriminate.
Qed.

Lemma nnv_nonneg (X : spec_float) (W : Z) : nnv X W -> 0 <= W.
Proof. intros [[-> _]|(H & _)]; lia. Qed.

Lemma nnv_fin (X : spec_float) (W : Z) : nnv X W -> SFfin X = true -> W < 2 ^ 2098.
Proof.
  intros [[-> _]|(Hp & Hr & ->)] F; [reflexivity|].
  destruct (Z_lt_le_dec W (2 ^ 2098)) as [|Hi]; [assumption|].
  rewrite (SF_of_inf false W Hi) in F. discriminate.
Qed.

Lemma nested_width (a' a b b' : float) :
  is_finite (b' - a') = true ->
  (a' <=? a)%float = true -> (a <=? b)%float = true -> (b <=? b')%float = true ->
  exists W W',
    nnv (Prim2SF (b - a)) W /\ nnv (Prim2SF (b' - a')) W' /\
    W <= W' /\ W' < 2 ^ 2098.
Proof.
  intros Hfin H1 H2 H3. rewrite is_finite_SFfin in Hfin.
  rewrite !leb_spec in *. rewrite !sub_spec in *. unfold SF64sub in *.
  destruct (SFsub_fin_inv _ _ Hfin) as [FB' FA'].
  destruct (fin_between _ _ _ _ FA' FB' H1 H2 H3) as [FA FB].
  pose proof (Prim2SF_valid a) as VA. pose proof (Prim2SF_valid b) as VB.
  pose proof (Prim2SF_valid a') as VA'. pose proof (Prim2SF_valid b') as VB'.
  rewrite SFleb_fin in H1, H2, H3 by assumption.
  apply Z.leb_le in H1, H2, H3.
  exists (rnd 1074 (zval (Prim2SF b) - zval (Prim2SF a))),
         (rnd 1074 (zval (Prim2SF b') - zval (Prim2SF a'))).
  assert (N' : nnv (SFsub prec emax (Prim2SF b') (Prim2SF a'))
                   (rnd 1074 (zval (Prim2SF b') - zval (Prim2SF a')))).
  { apply nnv_sub; try assumption. lia. }
  split; [now apply nnv_sub|]. split; [exact N'|]. split.
  - apply rnd_mono; [apply Z.le_refl | lia].
  - now apply (nnv_fin _ _ N').
Qed.

Lemma nested_sizes (a' b' c' d' a b c d : float) :
  is_finite (b' - a') = true -> is_finite (d' - c') = true ->
  (a' <=? a)%float = true -> (a <=? b)%float = true -> (b <=? b')%float = true ->
  (c' <=? c)%float = true -> (c <=? d)%float = true -> (d <=? d')%float = true ->
  let w := (b - a)%float in
  let h := (d - c)%float in
  let w' := (b' - a')%float in
  let h' := (d' - c')%float in
  (w * h <=? w' * h')%float = true /\
  (2 * w + 2 * h <=? 2 * w' + 2 * h')%float = true /\
  (h <=? h')%float = true /\ (w <=? w')%float = true.
Proof.
  intros Fw Fh X1 X2 X3 Y1 Y2 Y3 w h w' h'.
  destruct (nested_width a' a b b' Fw X1 X2 X3) as (Ww & Ww' & Nw & Nw' & Lw & Bw).
  destruct (nested_width c' c d d' Fh Y1 Y2 Y3) as (Wh & Wh' & Nh & Nh' & Lh & Bh).
  fold w in Nw. fold w' in Nw'. fold h in Nh. fold h' in Nh'.
  pose proof (nnv_nonneg _ _ Nw) as Pw. pose proof (nnv_nonneg _ _ Nh) as Ph.
  rewrite !leb_spec, !add_spec, !mul_spec, Prim2SF_two.
  unfold SF64add, SF64mul.
  split; [|split; [|split]].
  - eapply nnv_leb.
    + apply nnv_mul; [exact Nw | exact Nh | |]; eapply Z.le_lt_trans; eassumption.
    + apply nnv_mul; [exact Nw' | exact Nh' | assumption | assumption].
    + apply rnd_mono; [discriminate|]. split; [now apply Z.mul_nonneg_nonneg|].
      apply Z.mul_le_mono_nonneg; assumption.
  - eapply nnv_leb.
    + apply nnv_add; apply nnv_double; [exact Nw | exact Nh].
    + apply nnv_add; apply nnv_double; [exact Nw' | exact Nh'].
    + apply rnd_mono; [apply Z.le_refl | lia].
  - eapply nnv_leb; eassumption.
  - eapply nnv_leb; eassumption.
Qed.

(** ** Properties of the records written *)

(** X3: for boxes with [minX <= maxX] and [minY <= maxY], of whatever
    coordinates (infinite ones too), no record written in either mode has
    a negative AREA, PERIM, HEIGHT or WIDTH: none of the four is less than
    zero (each is a zero, a positive number, [+inf], or a NaN). *)
Theorem X3_sizes_not_negative {G : Type} (boundingBox : G -> QgsRectangle)
    (layer : QgsVectorLayer G) (byFeature : bool) (w : World) :
  Forall (fun r => (xMinimum r <=? xMaximum r)%float = true /\
                   (yMinimum r <=? yMaximum r)%float = true)
         (boxes_read boundingBox layer byFeature) ->
  exists fs,
    written (snd (run boundingBox layer byFeature w)) = written w ++ fs /\
    Forall (fun f =>
              exists minx miny maxx maxy cntx cnty area perim height width,
                feat_attributes f =
                [minx; miny; maxx; maxy; cntx; cnty; area; perim; height; width] /\
                (area <? 0)%float = false /\ (perim <? 0)%float = false /\
                (height <? 0)%float = false /\ (width <? 0)%float = false) fs /\
    (fst (run boundingBox layer byFeature w) = Ok tt ->
     length fs = length (boxes_read boundingBox layer byFeature)).
Proof.
  apply run_records. intros r [Hx Hy].
  destruct (sizes_not_negative _ _ _ _ Hx Hy) as (Ha & Hp & Hh & Hw).
  do 10 eexists. split; [reflexivity|]. repeat split; assumption.
Qed.

Lemma X3_witness :
  Forall (fun r => (xMinimum r <=? xMaximum r)%float = true /\
                   (yMinimum r <=? yMaximum r)%float = true)
         (boxes_read (fun r => r) (mkLayer box_0_0_4_2 two_features) true) /\
  exists fs,
    written (snd (run (fun r => r) (mkLayer box_0_0_4_2 two_features) true emptyWorld)) =
    written emptyWorld ++ fs /\
    Forall (fun f =>
              exists minx miny maxx maxy cntx cnty area perim height width,
                feat_attributes f =
                [minx; miny; maxx; maxy; cntx; cnty; area; perim; height; width] /\
                (area <? 0)%float = false /\ (perim <? 0)%float = false /\
                (height <? 0)%float = false /\ (width <? 0)%float = false) fs /\
    (fst (run (fun r => r) (mkLayer box_0_0_4_2 two_features) true emptyWorld) = Ok tt ->
     length fs = length (boxes_read (fun r => r) (mkLayer box_0_0_4_2 two_features) true)).
Proof.
  assert (H : Forall (fun r => (xMinimum r <=? xMaximum r)%float = true /\
                               (yMinimum r <=? yMaximum r)%float = true)
                     (boxes_read (fun r => r) (mkLayer box_0_0_4_2 two_features) true)).
  { repeat constructor. }
  split; [exact H|].
  exact (X3_sizes_not_negative (fun r => r) (mkLayer box_0_0_4_2 two_features) true
           emptyWorld H).
Defined.

(** X4: for boxes with [minX <= maxX] and [minY <= maxY] whose WIDTH and
    HEIGHT are finite (the subtraction did not overflow), the centre every
    record reports lies in the box: [minX <= CNTX <= maxX] and
    [minY <= CNTY <= maxY], in binary64 arithmetic. *)
Theorem X4_centre_inside {G : Type} (boundingBox : G -> QgsRectangle)
    (layer : QgsVectorLayer G) (byFeature : bool) (w : World) :
  Forall (fun r => (xMinimum r <=? xMaximum r)%float = true /\
                   (yMinimum r <=? yMaximum r)%float = true /\
                   is_finite (rect_width r) = true /\
                   is_finite (rect_height r) = true)
         (boxes_read boundingBox layer byFeature) ->
  exists fs,
    written (snd (run boundingBox layer byFeature w)) = written w ++ fs /\
    Forall (fun f =>
              exists minx miny maxx maxy cntx cnty area perim height width,
                feat_attributes f =
                [minx; miny; maxx; maxy; cntx; cnty; area; perim; height; width] /\
                (minx <=? cntx)%float = true /\ (cntx <=? maxx)%float = true /\
                (miny <=? cnty)%float = true /\ (cnty <=? maxy)%float = true) fs /\
    (fst (run boundingBox layer byFeature w) = Ok tt ->
     length fs = length (boxes_read boundingBox layer byFeature)).
Proof.
  apply run_records. intros r (Hx & Hy & Fw & Fh).
  destruct (centre_inside _ _ Hx Fw) as [X1 X2].
  destruct (centre_inside _ _ Hy Fh) as [Y1 Y2].
  do 10 eexists. split; [reflexivity|]. repeat split; assumption.
Qed.

Lemma X4_witness :
  Forall (fun r => (xMinimum r <=? xMaximum r)%float = true /\
                   (yMinimum r <=? yMaximum r)%float = true /\
                   is_finite (rect_width r) = true /\
                   is_finite (rect_height r) = true)
         (boxes_read (fun r => r) (mkLayer box_0_0_4_2 two_features) true) /\
  exists fs,
    written (snd (run (fun r => r) (mkLayer box_0_0_4_2 two_features) true emptyWorld)) =
    written emptyWorld ++ fs /\
    Forall (fun f =>
              exists minx miny maxx maxy cntx cnty area perim height width,
                feat_attributes f =
                [minx; miny; maxx; maxy; cntx; cnty; area; perim; height; width] /\
                (minx <=? cntx)%float = true /\ (cntx <=? maxx)%float = true /\
                (miny <=? cnty)%float = true /\ (cnty <=? maxy)%float = true) fs /\
    (fst (run (fun r => r) (mkLayer box_0_0_4_2 two_features) true emptyWorld) = Ok tt ->
     length fs = length (boxes_read (fun r => r) (mkLayer box_0_0_4_2 two_features) true)).
Proof.
  assert (H : Forall (fun r => (xMinimum r <=? xMaximum r)%float = true /\
                               (yMinimum r <=? yMaximum r)%float = true /\
                               is_finite (rect_width r) = true /\
                               is_finite (rect_height r) = true)
                     (boxes_read (fun r => r) (mkLayer box_0_0_4_2 two_features) true)).
  { repeat constructor. }
  split; [exact H|].
  exact (X4_centre_inside (fun r => r) (mkLayer box_0_0_4_2 two_features) true
           emptyWorld H).
Defined.

(** X5: with fewer than [2^63] features, for each rectangle read that is
    one finite point [(x, y)] (the box of a point feature, or the extent of
    a layer of one point), whatever the other rectangles are, the record
    written for it (the one at its position) has the ring of five copies of
    that point, the attributes [x, y, x, y, CNTX, CNTY, 0, 0, 0, 0] with
    AREA, PERIM, HEIGHT and WIDTH all [+0.0], and a centre equal to the
    point. *)
Theorem X5_point_box {G : Type} (boundingBox : G -> QgsRectangle)
    (layer : QgsVectorLayer G) (byFeature : bool) (w : World)
    (i : nat) (r : QgsRectangle) :
  Z.of_nat (length (features layer)) < 2 ^ 63 ->
  nth_error (boxes_read boundingBox layer byFeature) i = Some r ->
  is_finite (xMinimum r) = true -> is_finite (yMinimum r) = true ->
  xMaximum r = xMinimum r -> yMaximum r = yMinimum r ->
  exists fs f cntx cnty,
    written (snd (run boundingBox layer byFeature w)) = written w ++ fs /\
    length fs = length (boxes_read boundingBox layer byFeature) /\
    nth_error fs i = Some f /\
    feat_geometry f =
    Polygon [[mkPoint (xMinimum r) (yMinimum r); mkPoint (xMinimum r) (yMinimum r);
              mkPoint (xMinimum r) (yMinimum r); mkPoint (xMinimum r) (yMinimum r);
              mkPoint (xMinimum r) (yMinimum r)]] /\
    feat_attributes f =
    [xMinimum r; yMinimum r; xMinimum r; yMinimum r; cntx; cnty; 0; 0; 0; 0]%float /\
    (cntx =? xMinimum r)%float = true /\ (cnty =? yMinimum r)%float = true.
Proof.
  intros Hn Hi Fx Fy Ex Ey. destruct r as [x y x' y'].
  cbn [xMinimum yMinimum xMaximum yMaximum] in *. subst x' y'.
  destruct (point_box x y Fx Fy) as (cx & cy & E & Hx & Hy).
  exists (map extent_record (boxes_read boundingBox layer byFeature)),
         (extent_record (mkRect x y x y)), cx, cy.
  split; [now apply run_written_all|]. split; [apply length_map|].
  split; [now apply map_nth_error|].
  split; [reflexivity|]. split; [exact E|]. auto.
Qed.

Lemma X5_witness :
  let layer := mkLayer box_0_0_4_2 [mkInFeature box_unit; mkInFeature box_point_5] in
  Z.of_nat (length (features layer)) < 2 ^ 63 /\
  nth_error (boxes_read (fun r => r) layer true) 1 = Some box_point_5 /\
  is_finite (xMinimum box_point_5) = true /\ is_finite (yMinimum box_point_5) = true /\
  xMaximum box_point_5 = xMinimum box_point_5 /\
  yMaximum box_point_5 = yMinimum box_point_5 /\
  exists fs f cntx cnty,
    written (snd (run (fun r => r) layer true emptyWorld)) = written emptyWorld ++ fs /\
    length fs = length (boxes_read (fun r => r) layer true) /\
    nth_error fs 1 = Some f /\
    feat_geometry f =
    Polygon [[mkPoint 5 5; mkPoint 5 5; mkPoint 5 5; mkPoint 5 5; mkPoint 5 5]] /\
    feat_attributes f = [5; 5; 5; 5; cntx; cnty; 0; 0; 0; 0]%float /\
    (cntx =? 5)%float = true /\ (cnty =? 5)%float = true.
Proof.
  cbv zeta. repeat (split; [reflexivity|]).
  exact (X5_point_box (fun r => r)
           (mkLayer box_0_0_4_2 [mkInFeature box_unit; mkInFeature box_point_5])
           true emptyWorld 1 box_point_5
           eq_refl eq_refl eq_refl eq_refl eq_refl eq_refl).
Defined.

(** X6: with fewer than [2^63] features, for each rectangle read whose
    coordinates are the integers [x0, y0, x1, y1], of magnitude at most
    [2^25], [x0 <= x1] and [y0 <= y1], every attribute of the record
    written for it (the one at its position) is exact: the first four are
    the coordinates, WIDTH and HEIGHT are the integers [x1 - x0] and
    [y1 - y0], AREA their product, PERIM [2 (x1 - x0) + 2 (y1 - y0)], and
    CNTX and CNTY the halves of the integers [x0 + x1] and [y0 + y1]. *)
Theorem X6_integer_boxes_exact {G : Type} (boundingBox : G -> QgsRectangle)
    (layer : QgsVectorLayer G) (byFeature : bool) (w : World)
    (i : nat) (r : QgsRectangle) (x0 y0 x1 y1 : Z) :
  Z.of_nat (length (features layer)) < 2 ^ 63 ->
  nth_error (boxes_read boundingBox layer byFeature) i = Some r ->
  Z.abs x0 <= 2 ^ 25 -> Z.abs y0 <= 2 ^ 25 ->
  Z.abs x1 <= 2 ^ 25 -> Z.abs y1 <= 2 ^ 25 ->
  x0 <= x1 -> y0 <= y1 ->
  float_of_int x0 = Ok (xMinimum r) -> float_of_int y0 = Ok (yMinimum r) ->
  float_of_int x1 = Ok (xMaximum r) -> float_of_int y1 = Ok (yMaximum r) ->
  exists (fs : list QgsFeature) (f : QgsFeature)
         (cntx cnty area perim height width sx sy : float),
    written (snd (run boundingBox layer byFeature w)) = written w ++ fs /\
    length fs = length (boxes_read boundingBox layer byFeature) /\
    nth_error fs i = Some f /\
    feat_attributes f =
    [xMinimum r; yMinimum r; xMaximum r; yMaximum r;
     cntx; cnty; area; perim; height; width] /\
    float_of_int (x1 - x0) = Ok width /\
    float_of_int (y1 - y0) = Ok height /\
    float_of_int ((x1 - x0) * (y1 - y0)) = Ok area /\
    float_of_int (2 * (x1 - x0) + 2 * (y1 - y0)) = Ok perim /\
    float_of_int (x0 + x1) = Ok sx /\ float_truediv sx f2_0 = Ok cntx /\
    float_of_int (y0 + y1) = Ok sy /\ float_truediv sy f2_0 = Ok cnty.
Proof.
  intros Hn Hi Bx0 By0 Bx1 By1 Hx Hy Ex0 Ey0 Ex1 Ey1.
  destruct (int_box x0 y0 x1 y1 r Bx0 By0 Bx1 By1 Hx Hy Ex0 Ey0 Ex1 Ey1)
    as (cx & cy & area & perim & h & wd & sx & sy & E & Ew & Eh & Ea & Ep & Esx & Ecx & Esy & Ecy).
  exists (map extent_record (boxes_read boundingBox layer byFeature)),
         (extent_record r), cx, cy, area, perim, h, wd, sx, sy.
  split; [now apply run_written_all|]. split; [apply length_map|].
  split; [now apply map_nth_error|].
  split; [exact E|]. repeat split; assumption.
Qed.

Lemma X6_witness :
  let layer := mkLayer box_0_0_4_2 two_features in
  Z.of_nat (length (features layer)) < 2 ^ 63 /\
  nth_error (boxes_read (fun r => r) layer true) 1 = Some box_0_0_4_2 /\
  Z.abs 0 <= 2 ^ 25 /\ Z.abs 0 <= 2 ^ 25 /\ Z.abs 4 <= 2 ^ 25 /\ Z.abs 2 <= 2 ^ 25 /\
  0 <= 4 /\ 0 <= 2 /\
  float_of_int 0 = Ok (xMinimum box_0_0_4_2) /\
  float_of_int 0 = Ok (yMinimum box_0_0_4_2) /\
  float_of_int 4 = Ok (xMaximum box_0_0_4_2) /\
  float_of_int 2 = Ok (yMaximum box_0_0_4_2) /\
  exists (fs : list QgsFeature) (f : QgsFeature)
         (cntx cnty area perim height width sx sy : float),
    written (snd (run (fun r => r) layer true emptyWorld)) = written emptyWorld ++ fs /\
    length fs = length (boxes_read (fun r => r) layer true) /\
    nth_error fs 1 = Some f /\
    feat_attributes f = [0; 0; 4; 2; cntx; cnty; area; perim; height; width]%float /\
    float_of_int (4 - 0) = Ok width /\
    float_of_int (2 - 0) = Ok height /\
    float_of_int ((4 - 0) * (2 - 0)) = Ok area /\
    float_of_int (2 * (4 - 0) + 2 * (2 - 0)) = Ok perim /\
    float_of_int (0 + 4) = Ok sx /\ float_truediv sx f2_0 = Ok cntx /\
    float_of_int (0 + 2) = Ok sy /\ float_truediv sy f2_0 = Ok cnty.
Proof.
  cbv zeta. split; [reflexivity|]. split; [reflexivity|].
  do 6 (split; [discriminate|]).
  do 4 (split; [vm_compute; reflexivity|]).
  apply (X6_integer_boxes_exact (fun r => r) (mkLayer box_0_0_4_2 two_features)
           true emptyWorld 1 box_0_0_4_2 0 0 4 2);
    solve [reflexivity | discriminate | vm_compute; reflexivity].
Defined.

(** X7: when the extent of the layer has a finite WIDTH and HEIGHT and
    the box of every feature lies within it, no record of the per-feature
    mode exceeds the record of the whole-layer mode: its AREA, PERIM,
    HEIGHT and WIDTH are at most those of the layer's record (rounding
    keeps the order). *)
Theorem X7_feature_within_layer {G : Type} (boundingBox : G -> QgsRectangle)
    (layer : QgsVectorLayer G) (w1 w2 : World) :
  is_finite (rect_width (extent layer)) = true ->
  is_finite (rect_height (extent layer)) = true ->
  Forall (fun r =>
            (xMinimum (extent layer) <=? xMinimum r)%float = true /\
            (xMinimum r <=? xMaximum r)%float = true /\
            (xMaximum r <=? xMaximum (extent layer))%float = true /\
            (yMinimum (extent layer) <=? yMinimum r)%float = true /\
            (yMinimum r <=? yMaximum r)%float = true /\
            (yMaximum r <=? yMaximum (extent layer))%float = true)
         (map (rect_of boundingBox) (features layer)) ->
  exists L fs,
    written (snd (layerExtent layer w1)) = written w1 ++ [L] /\
    written (snd (featureExtent boundingBox layer w2)) = written w2 ++ fs /\
    Forall (fun f =>
              exists minx miny maxx maxy cntx cnty area perim height width
                     MINX MINY MAXX MAXY CNTX CNTY AREA PERIM HEIGHT WIDTH,
                feat_attributes f =
                [minx; miny; maxx; maxy; cntx; cnty; area; perim; height; width] /\
                feat_attributes L =
                [MINX; MINY; MAXX; MAXY; CNTX; CNTY; AREA; PERIM; HEIGHT; WIDTH] /\
                (area <=? AREA)%float = true /\ (perim <=? PERIM)%float = true /\
                (height <=? HEIGHT)%float = true /\ (width <=? WIDTH)%float = true) fs /\
    (fst (featureExtent boundingBox layer w2) = Ok tt ->
     length fs = length (features layer)).
Proof.
  intros Fw Fh HF. exists (extent_record (extent layer)).
  match type of HF with
  | Forall ?H _ =>
      destruct (run_records boundingBox H
                  (fun f =>
                     exists minx miny maxx maxy cntx cnty area perim height width
                            MINX MINY MAXX MAXY CNTX CNTY AREA PERIM HEIGHT WIDTH,
                       feat_attributes f =
                       [minx; miny; maxx; maxy; cntx; cnty; area; perim; height; width] /\
                       feat_attributes (extent_record (extent layer)) =
                       [MINX; MINY; MAXX; MAXY; CNTX; CNTY; AREA; PERIM; HEIGHT; WIDTH] /\
                       (area <=? AREA)%float = true /\ (perim <=? PERIM)%float = true /\
                       (height <=? HEIGHT)%float = true /\ (width <=? WIDTH)%float = true)
                  layer true w2) as (fs & Hw & HP & Hl)
  end.
  - intros r (X1 & X2 & X3 & Y1 & Y2 & Y3).
    destruct (nested_sizes _ _ _ _ _ _ _ _ Fw Fh X1 X2 X3 Y1 Y2 Y3) as (Ha & Hp & Hh & Hwd).
    do 20 eexists. split; [reflexivity|]. split; [reflexivity|].
    repeat split; assumption.
  - exact HF.
  - exists fs. split; [|split; [exact Hw|split; [exact HP|]]].
    + rewrite layerExtent_run. unfold written. cbn [snd trace].
      now rewrite written_of_app.
    + intros Hok. rewrite (Hl Hok). unfold boxes_read. apply length_map.
Qed.

Lemma X7_witness :
  is_finite (rect_width box_0_0_4_2) = true /\
  is_finite (rect_height box_0_0_4_2) = true /\
  Forall (fun r =>
            (xMinimum box_0_0_4_2 <=? xMinimum r)%float = true /\
            (xMinimum r <=? xMaximum r)%float = true /\
            (xMaximum r <=? xMaximum box_0_0_4_2)%float = true /\
            (yMinimum box_0_0_4_2 <=? yMinimum r)%float = true /\
            (yMinimum r <=? yMaximum r)%float = true /\
            (yMaximum r <=? yMaximum box_0_0_4_2)%float = true)
         (map (rect_of (fun r => r)) two_features) /\
  exists L fs,
    written (snd (layerExtent (mkLayer box_0_0_4_2 two_features) emptyWorld)) =
    written emptyWorld ++ [L] /\
    written (snd (featureExtent (fun r => r) (mkLayer box_0_0_4_2 two_features) emptyWorld)) =
    written emptyWorld ++ fs /\
    Forall (fun f =>
              exists minx miny maxx maxy cntx cnty area perim height width
                     MINX MINY MAXX MAXY CNTX CNTY AREA PERIM HEIGHT WIDTH,
                feat_attributes f =
                [minx; miny; maxx; maxy; cntx; cnty; area; perim; height; width] /\
                feat_attributes L =
                [MINX; MINY; MAXX; MAXY; CNTX; CNTY; AREA; PERIM; HEIGHT; WIDTH] /\
                (area <=? AREA)%float = true /\ (perim <=? PERIM)%float = true /\
                (height <=? HEIGHT)%float = true /\ (width <=? WIDTH)%float = true) fs /\
    (fst (featureExtent (fun r => r) (mkLayer box_0_0_4_2 two_features) emptyWorld) = Ok tt ->
     length fs = length (features (mkLayer box_0_0_4_2 two_features))).
Proof.
  assert (H : Forall (fun r =>
            (xMinimum box_0_0_4_2 <=? xMinimum r)%float = true /\
            (xMinimum r <=? xMaximum r)%float = true /\
            (xMaximum r <=? xMaximum box_0_0_4_2)%float = true /\
            (yMinimum box_0_0_4_2 <=? yMinimum r)%float = true /\
            (yMinimum r <=? yMaximum r)%float = true /\
            (yMaximum r <=? yMaximum box_0_0_4_2)%float = true)
         (map (rect_of (fun r => r)) two_features)).
  { repeat constructor. }
  split; [reflexivity|]. split; [reflexivity|]. split; [exact H|].
  exact (X7_feature_within_layer (fun r => r) (mkLayer box_0_0_4_2 two_features)
           emptyWorld emptyWorld eq_refl eq_refl H).
Defined.

(** ** The range of the percentages *)

Lemma pct_val_range (Wt Wq n i : Z) :
  0 <= i <= n -> 0 <= Wt -> 0 <= Wq ->
  Wt * 2 ^ 52 <= Wq * (2 ^ 52 + 1) ->
  Wq * rnd 1074 (n * 2 ^ 1074) <= 100 * 2 ^ 2148 ->
  0 <= pct_val Wt i <= 100.
Proof.
  intros [Hi0 Hin] HWt HWq Ha Hb.
  assert (HA : 0 < 2 ^ 1074) by (apply pow2_pos; discriminate).
  assert (HB : 0 < 2 ^ 1073) by (apply pow2_pos; discriminate).
  assert (HAB : 2 ^ 1074 = 2 * 2 ^ 1073) by reflexivity.
  assert (HAA : 2 ^ 2148 = 2 ^ 1074 * 2 ^ 1074) by reflexivity.
  unfold pct_val.
  set (Wi := rnd 1074 (i * 2 ^ 1074)).
  set (Wn := rnd 1074 (n * 2 ^ 1074)) in *.
  assert (HWi0 : 0 <= Wi).
  { apply rnd_nonneg; [apply Z.le_refl|]. apply Z.mul_nonneg_nonneg; [exact Hi0|].
    now apply Z.lt_le_incl. }
  assert (HWin : Wi <= Wn).
  { apply rnd_mono; [apply Z.le_refl|]. split.
    - apply Z.mul_nonneg_nonneg; [exact Hi0 | now apply Z.lt_le_incl].
    - apply Z.mul_le_mono_nonneg_r; [now apply Z.lt_le_incl | exact Hin]. }
  assert (HV0 : 0 <= Wi * Wt) by (now apply Z.mul_nonneg_nonneg).
  assert (HR : repr (201 * 2 ^ 1073)).
  { apply repr_mul_pow2; [split; discriminate | discriminate]. }
  assert (HVR : Wi * Wt <= 201 * 2 ^ 1073 * 2 ^ (2148 - 1074)).
  { change (2148 - 1074) with 1074.
    rewrite HAA in Hb. change (2 ^ 52) with 4503599627370496 in Ha.
    rewrite HAB in *. revert Ha Hb HWin HWi0 HWt HWq HB. clear.
    generalize (2 ^ 1073). intros B Ha Hb HWin HWi0 HWt HWq HB.
    assert (H1 : Wi * Wt * 4503599627370496 <= Wi * (Wq * 4503599627370497)).
    { rewrite <- Z.mul_assoc. apply Z.mul_le_mono_nonneg_l; assumption. }
    assert (H2 : Wi * (Wq * 4503599627370497) <= Wn * (Wq * 4503599627370497)).
    { apply Z.mul_le_mono_nonneg_r; [lia | assumption]. }
    assert (H3 : Wn * (Wq * 4503599627370497) <= 100 * (2 * B * (2 * B)) * 4503599627370497).
    { replace (Wn * (Wq * 4503599627370497)) with (Wq * Wn * 4503599627370497) by ring.
      apply Z.mul_le_mono_nonneg_r; [lia | assumption]. }
    assert (H4 : 0 < B * B) by (apply Z.mul_pos_pos; assumption).
    nia. }
  assert (Hr : rnd 2148 (Wi * Wt) <= 201 * 2 ^ 1073).
  { apply rnd_le_repr; [discriminate | exact HV0 | | exact HR | exact HVR].
    apply Z.mul_nonneg_nonneg; [discriminate | now apply Z.lt_le_incl]. }
  split.
  - apply Z.div_pos; [|exact HA]. apply rnd_nonneg; [discriminate | exact HV0].
  - apply Z.lt_succ_r. apply Z.div_lt_upper_bound; [exact HA|].
    rewrite HAB in *. revert Hr HB. generalize (rnd 2148 (Wi * Wt)), (2 ^ 1073).
    intros x B Hr HB. lia.
Qed.

(** X8: every percentage [featureExtent] reports lies in the range of a
    progress bar: on a non-empty layer of fewer than [2^63] features it
    reports one integer per feature, each between 0 and 100. *)
Theorem X8_percentages_in_range {G : Type} (boundingBox : G -> QgsRectangle)
    (layer : QgsVectorLayer G) (w : World) :
  features layer <> [] ->
  Z.of_nat (length (features layer)) < 2 ^ 63 ->
  exists ps,
    percentages (snd (featureExtent boundingBox layer w)) = percentages w ++ ps /\
    length ps = length (features layer) /\
    Forall (fun p => 0 <= p <= 100) ps.
Proof.
  intros Hne Hn.
  assert (Hn0 : (0 < length (features layer))%nat).
  { destruct (features layer); [congruence | cbn; lia]. }
  destruct (featureExtent_full G boundingBox layer w Hn0 Hn)
    as (total & Wt & Wq & h & Htot & Ht & HWq & Ha & Hb & _ & _ & Hrun).
  set (n := length (features layer)) in *.
  exists (map (fun i => pct_val Wt (Z.of_nat i)) (seq 0 n)).
  rewrite Hrun. unfold percentages. cbn [snd trace].
  rewrite percentages_of_app, percentages_alternate
    by (now rewrite !length_map, length_seq).
  split; [reflexivity|]. split; [now rewrite length_map, length_seq|].
  apply Forall_forall. intros p Hp. apply in_map_iff in Hp.
  destruct Hp as (i & <- & Hi). apply in_seq in Hi.
  destruct Ht as (_ & _ & HWt0 & _).
  apply (pct_val_range Wt Wq (Z.of_nat n)); try assumption. lia.
Qed.

Lemma X8_witness :
  two_features <> [] /\
  Z.of_nat (length two_features) < 2 ^ 63 /\
  exists ps,
    percentages (snd (featureExtent (fun r => r) (mkLayer box_0_0_4_2 two_features)
                        emptyWorld)) = percentages emptyWorld ++ ps /\
    length ps = length two_features /\
    Forall (fun p => 0 <= p <= 100) ps.
Proof.
  split; [discriminate|]. split; [reflexivity|].
  apply (X8_percentages_in_range (fun r => r) (mkLayer box_0_0_4_2 two_features)
           emptyWorld); [discriminate | reflexivity].
Defined.
